(** * vulkan-renderer: Device Allocator, Frame and Material parameter layout

    A shallow embedding of [src/DeviceAllocator.cpp], [src/Frame.cpp] and of
    the [Material::Parameters] declaration, together with the properties the
    specification states about them, and of the device selection and swap
    chain set-up of [Application.cpp].

    The Vulkan and VMA entry points are not code of the repository.  They are
    modelled as operations on an explicit [World]: a table of live handles, the
    work pending on the queues, the C++ free store, and a log of every call
    made.  Whether a fallible entry point succeeds is decided by an [oracle]
    carried by the world, so every failure path of the code can be exercised. *)

From Stdlib Require Import ZArith List Lia Bool.
From Stdlib Require String DecimalString.
From stdpp Require Import base option list gmap.

Local Open Scope Z_scope.

(** ** Vulkan vocabulary *)

(** The result codes of <vulkan_core.h> that the modelled entry points can
    report. *)
Inductive VkResult :=
| VK_SUCCESS
| VK_ERROR_OUT_OF_HOST_MEMORY
| VK_ERROR_OUT_OF_DEVICE_MEMORY
| VK_ERROR_INITIALIZATION_FAILED
| VK_ERROR_DEVICE_LOST
| VK_ERROR_MEMORY_MAP_FAILED.

Definition is_success (r : VkResult) : bool :=
  match r with VK_SUCCESS => true | _ => false end.

(** Handles are 64-bit values; [VK_NULL_HANDLE] is zero. *)
Definition VK_NULL_HANDLE : Z := 0.

(** Flag bits, with the values <vulkan_core.h> and <vk_mem_alloc.h> give them. *)
Definition VK_BUFFER_USAGE_TRANSFER_SRC_BIT : Z := 1.
Definition VK_BUFFER_USAGE_TRANSFER_DST_BIT : Z := 2.
Definition VK_BUFFER_USAGE_UNIFORM_BUFFER_BIT : Z := 16.
Definition VK_BUFFER_USAGE_VERTEX_BUFFER_BIT : Z := 128.
Definition VK_MEMORY_PROPERTY_DEVICE_LOCAL_BIT : Z := 1.
Definition VK_MEMORY_PROPERTY_HOST_VISIBLE_BIT : Z := 2.
Definition VK_MEMORY_PROPERTY_HOST_COHERENT_BIT : Z := 4.
Definition VMA_ALLOCATION_CREATE_HOST_ACCESS_SEQUENTIAL_WRITE_BIT : Z := 1024.
Definition VMA_MEMORY_USAGE_AUTO : Z := 7.
Definition VK_SHARING_MODE_EXCLUSIVE : Z := 0.
Definition VK_COMMAND_BUFFER_LEVEL_PRIMARY : Z := 0.
Definition VK_COMMAND_BUFFER_USAGE_ONE_TIME_SUBMIT_BIT : Z := 1.
Definition VK_COMMAND_POOL_CREATE_RESET_COMMAND_BUFFER_BIT : Z := 2.
Definition VK_FENCE_CREATE_SIGNALED_BIT : Z := 1.

(** [flags & bit] is non-zero. *)
Definition has_flag (flags bit : Z) : bool := negb (Z.land flags bit =? 0).

Record VkBufferCreateInfo := mkBufferInfo {
  bi_size : Z;
  bi_usage : Z;
  bi_sharingMode : Z
}.

Record VmaAllocationCreateInfo := mkAllocInfo {
  ai_usage : Z;
  ai_requiredFlags : Z;
  ai_flags : Z
}.

Record VkBufferCopy := mkBufferCopy {
  srcOffset : Z;
  dstOffset : Z;
  copy_size : Z
}.

(** Commands recorded into a command buffer. *)
Inductive Command :=
| CmdCopyBuffer (src dst : Z) (region : VkBufferCopy).

Inductive CmdState := Initial | Recording | Executable.

(** Entry points that return a [VkResult]. *)
Inductive FallibleCall :=
| VmaCreateBuffer (info : VkBufferCreateInfo) (ainfo : VmaAllocationCreateInfo)
| VmaCopyMemoryToAllocation (allocation : Z) (offset size : Z)
| VkAllocateCommandBuffers (pool : Z) (level count : Z)
| VkBeginCommandBuffer (cb : Z) (flags : Z)
| VkEndCommandBuffer (cb : Z)
| VkQueueSubmit (queue cb : Z) (fence : Z)
| VkQueueWaitIdle (queue : Z)
| VkCreateCommandPool (flags queueFamilyIndex : Z)
| VkCreateSemaphore
| VkCreateFence (flags : Z).

(** Entry points that return nothing. *)
Inductive VoidCall :=
| VkCmdCopyBuffer (cb src dst : Z) (region : VkBufferCopy)
| VmaDestroyBuffer (buffer allocation : Z)
| VkFreeCommandBuffers (pool cb : Z)
| VkDestroyFence (fence : Z)
| VkDestroySemaphore (semaphore : Z)
| VkDestroyCommandPool (pool : Z).

(** What a handle of the device stands for. *)
Inductive Resource :=
| RBuffer (info : VkBufferCreateInfo) (memory : Z)
| RAllocation (ainfo : VmaAllocationCreateInfo) (bytes : list (option Byte.byte))
| RCommandPool (flags queueFamilyIndex : Z)
| RCommandBuffer (pool : Z) (state : CmdState) (cmds : list Command)
| RSemaphore
| RFence (signaled : bool).

Record VkDescriptorBufferInfo := mkBufferBinding {
  db_buffer : Z;
  db_offset : Z;
  db_range : Z
}.

Record VkDescriptorImageInfo := mkImageBinding {
  di_sampler : Z;
  di_imageView : Z;
  di_imageLayout : Z
}.

(** The class [DescriptorSetLayout] is declared in a header that is not under
    src.  The Frame only hashes it and hands it to the pool it creates, so a
    layout is represented by its native handle and its binding slots
    (binding index, descriptor type). *)
Record DescriptorSetLayout := mkLayout {
  layout_handle : Z;
  layout_bindings : list (Z * Z)
}.

(** A [std::map<uint32_t, T>]: its entries in ascending key order, which is
    the order a range-for visits them in. *)
Definition BindingMap (T : Type) : Type := list (Z * T).

(** The C++ objects the Frame keeps behind [std::unique_ptr], with the
    arguments their constructors received. *)
Inductive Object :=
| ODescriptorPool (device : Z) (layout : DescriptorSetLayout)
| ODescriptorSet (device : Z) (pool : Z)
    (bufferBindingInfos : BindingMap VkDescriptorBufferInfo)
    (imageBindingInfos : BindingMap VkDescriptorImageInfo).

Inductive Event :=
| Called (c : FallibleCall) (r : VkResult)
| Did (c : VoidCall)
| New (address : Z) (o : Object)
| Delete (address : Z)
| UpdateAll (address : Z).

Record World := mkWorld {
  oracle : nat -> FallibleCall -> VkResult;
  trace : list Event;
  next_handle : Z;
  resources : gmap Z Resource;
  pending : list (Z * Command);
  heap : gmap Z Object
}.

(** ** World updates *)

Definition log (e : Event) (w : World) : World :=
  mkWorld (oracle w) (trace w ++ [e]) (next_handle w) (resources w) (pending w) (heap w).

Definition set_resources (r : gmap Z Resource) (w : World) : World :=
  mkWorld (oracle w) (trace w) (next_handle w) r (pending w) (heap w).

Definition set_pending (p : list (Z * Command)) (w : World) : World :=
  mkWorld (oracle w) (trace w) (next_handle w) (resources w) p (heap w).

Definition set_heap (h : gmap Z Object) (w : World) : World :=
  mkWorld (oracle w) (trace w) (next_handle w) (resources w) (pending w) h.

Definition bump (n : Z) (w : World) : World :=
  mkWorld (oracle w) (trace w) (next_handle w + n) (resources w) (pending w) (heap w).

(** A fallible entry point asks the oracle for its result and logs the call. *)
Definition consult (c : FallibleCall) (w : World) : VkResult * World :=
  let r := oracle w (length (trace w)) c in (r, log (Called c r) w).

(** ** The monad of the C++ code

    A member function either returns a value or is cut short by a failed
    [VK_ASSERT]; both outcomes carry the world as it then is. *)
Inductive Outcome (A : Type) :=
| Returned (a : A) (w : World)
| Aborted (r : VkResult) (w : World).
Arguments Returned {A} a w.
Arguments Aborted {A} r w.

Definition M (A : Type) : Type := World -> Outcome A.

Definition ret {A} (a : A) : M A := fun w => Returned a w.

Definition bind {A B} (m : M A) (k : A -> M B) : M B :=
  fun w => match m w with
           | Returned a w' => k a w'
           | Aborted r w' => Aborted r w'
           end.

Notation "x <- m ;; k" := (bind m (fun x => k))
  (at level 100, m at next level, right associativity).
Notation "m ;;; k" := (bind m (fun _ => k))
  (at level 100, right associativity).

(** A native call never cuts the caller short by itself. *)
Definition native {A} (f : World -> A * World) : M A :=
  fun w => let '(a, w') := f w in Returned a w'.

(** Modelled from the spec: the macro [VK_ASSERT] of VkHelpers.h is not under
    src.  Section 4.1 says "any native call failure is fatal (aborts via an
    assertion contract)": the wrapped call is made, and any result other than
    [VK_SUCCESS] ends the enclosing function. *)
Definition VK_ASSERT {A} (call : M (VkResult * A)) : M A :=
  fun w => match call w with
           | Returned (r, a) w' => if is_success r then Returned a w' else Aborted r w'
           | Aborted r w' => Aborted r w'
           end.

(** ** Device memory *)

(** Overwrite [old] from position [off] on with [new]. *)
Definition splice {A} (off : nat) (new old : list A) : list A :=
  take off old ++ new ++ drop (off + length new) old.

(** Run one transfer command on the memory bound to the two buffers.  A
    command that names a buffer no longer alive transfers nothing. *)
Definition execute (c : Command) (res : gmap Z Resource) : gmap Z Resource :=
  match c with
  | CmdCopyBuffer src dst region =>
      match res !! src, res !! dst with
      | Some (RBuffer _ ms), Some (RBuffer _ md) =>
          match res !! ms, res !! md with
          | Some (RAllocation _ from), Some (RAllocation ai to) =>
              let chunk := take (Z.to_nat (copy_size region))
                                (drop (Z.to_nat (srcOffset region)) from) in
              <[md := RAllocation ai (splice (Z.to_nat (dstOffset region)) chunk to)]> res
          | _, _ => res
          end
      | _, _ => res
      end
  end.

Definition execute_all (cs : list Command) (res : gmap Z Resource) : gmap Z Resource :=
  fold_left (fun r c => execute c r) cs res.

(** ** Entry points used by the Device Allocator *)

(** Memory of a new allocation holds no defined byte yet. *)
Definition vmaCreateBuffer (info : VkBufferCreateInfo) (ainfo : VmaAllocationCreateInfo)
  : M (VkResult * (Z * Z)) :=
  native (fun w =>
    let '(r, w1) := consult (VmaCreateBuffer info ainfo) w in
    if is_success r then
      let b := next_handle w1 in
      let a := b + 1 in
      let fresh := repeat None (Z.to_nat (bi_size info)) in
      ((r, (b, a)),
       bump 2 (set_resources (<[b := RBuffer info a]>
                               (<[a := RAllocation ainfo fresh]> (resources w1))) w1))
    else ((r, (VK_NULL_HANDLE, VK_NULL_HANDLE)), w1)).

Definition vmaCopyMemoryToAllocation (data : list Byte.byte) (allocation : Z)
    (offset size : Z) : M VkResult :=
  native (fun w =>
    let '(r, w1) := consult (VmaCopyMemoryToAllocation allocation offset size) w in
    if is_success r then
      match resources w1 !! allocation with
      | Some (RAllocation ai bytes) =>
          let src := Some <$> take (Z.to_nat size) data in
          (r, set_resources (<[allocation := RAllocation ai (splice (Z.to_nat offset) src bytes)]>
                               (resources w1)) w1)
      | _ => (r, w1)
      end
    else (r, w1)).

Definition vmaDestroyBuffer (buffer allocation : Z) : M unit :=
  native (fun w =>
    let w1 := log (Did (VmaDestroyBuffer buffer allocation)) w in
    (tt, set_resources (delete allocation (delete buffer (resources w1))) w1)).

Definition vkAllocateCommandBuffers (pool level count : Z) : M (VkResult * Z) :=
  native (fun w =>
    let '(r, w1) := consult (VkAllocateCommandBuffers pool level count) w in
    if is_success r then
      let cb := next_handle w1 in
      ((r, cb), bump 1 (set_resources (<[cb := RCommandBuffer pool Initial []]> (resources w1)) w1))
    else ((r, VK_NULL_HANDLE), w1)).

Definition vkBeginCommandBuffer (cb flags : Z) : M (VkResult * unit) :=
  native (fun w =>
    let '(r, w1) := consult (VkBeginCommandBuffer cb flags) w in
    if is_success r then
      match resources w1 !! cb with
      | Some (RCommandBuffer p _ _) =>
          ((r, tt), set_resources (<[cb := RCommandBuffer p Recording []]> (resources w1)) w1)
      | _ => ((r, tt), w1)
      end
    else ((r, tt), w1)).

Definition vkCmdCopyBuffer (cb src dst : Z) (region : VkBufferCopy) : M unit :=
  native (fun w =>
    let w1 := log (Did (VkCmdCopyBuffer cb src dst region)) w in
    match resources w1 !! cb with
    | Some (RCommandBuffer p Recording cmds) =>
        (tt, set_resources
               (<[cb := RCommandBuffer p Recording (cmds ++ [CmdCopyBuffer src dst region])]>
                  (resources w1)) w1)
    | _ => (tt, w1)
    end).

Definition vkEndCommandBuffer (cb : Z) : M (VkResult * unit) :=
  native (fun w =>
    let '(r, w1) := consult (VkEndCommandBuffer cb) w in
    if is_success r then
      match resources w1 !! cb with
      | Some (RCommandBuffer p Recording cmds) =>
          ((r, tt), set_resources (<[cb := RCommandBuffer p Executable cmds]> (resources w1)) w1)
      | _ => ((r, tt), w1)
      end
    else ((r, tt), w1)).

(** Submission hands the recorded commands to the queue; they run no later
    than the next wait for that queue to go idle. *)
Definition vkQueueSubmit (queue cb fence : Z) : M (VkResult * unit) :=
  native (fun w =>
    let '(r, w1) := consult (VkQueueSubmit queue cb fence) w in
    if is_success r then
      match resources w1 !! cb with
      | Some (RCommandBuffer p Executable cmds) =>
          ((r, tt), set_pending (pending w1 ++ ((fun c => (queue, c)) <$> cmds)) w1)
      | _ => ((r, tt), w1)
      end
    else ((r, tt), w1)).

Definition vkQueueWaitIdle (queue : Z) : M (VkResult * unit) :=
  native (fun w =>
    let '(r, w1) := consult (VkQueueWaitIdle queue) w in
    if is_success r then
      let mine := snd <$> filter (fun qc => fst qc = queue) (pending w1) in
      let rest := filter (fun qc => fst qc <> queue) (pending w1) in
      ((r, tt), set_pending rest (set_resources (execute_all mine (resources w1)) w1))
    else ((r, tt), w1)).

Definition vkFreeCommandBuffers (pool cb : Z) : M unit :=
  native (fun w =>
    let w1 := log (Did (VkFreeCommandBuffers pool cb)) w in
    (tt, set_resources (delete cb (resources w1)) w1)).

(** ** src/DeviceAllocator.cpp *)

Module DeviceAllocator.

Record t := mk {
  instance : Z;
  physicalDevice : Z;
  device : Z;
  immediateTransferPool : Z;
  immediateTransferQueue : Z;
  allocator : Z
}.

Section Methods.

(** The default value of [allocFlags] is declared in DeviceAllocator.h, which
    is not under src; the three-argument call below uses it. *)
Variable defaultAllocFlags : Z.

Variable this : t.

(** [DeviceAllocator::allocateBuffer], lines 114-143. *)
Definition allocateBuffer (size usage properties allocFlags : Z) : M (Z * Z) :=
  let bufferInfo :=
    mkBufferInfo size (Z.lor VK_BUFFER_USAGE_TRANSFER_DST_BIT usage) VK_SHARING_MODE_EXCLUSIVE in
  let allocInfo := mkAllocInfo VMA_MEMORY_USAGE_AUTO properties allocFlags in
  VK_ASSERT (vmaCreateBuffer bufferInfo allocInfo).

(** [DeviceAllocator::copyBuffer], lines 145-179. *)
Definition copyBuffer (srcBuffer dstBuffer size : Z) : M unit :=
  commandBuffer <- VK_ASSERT (vkAllocateCommandBuffers (immediateTransferPool this)
                                VK_COMMAND_BUFFER_LEVEL_PRIMARY 1) ;;
  VK_ASSERT (vkBeginCommandBuffer commandBuffer VK_COMMAND_BUFFER_USAGE_ONE_TIME_SUBMIT_BIT) ;;;
  vkCmdCopyBuffer commandBuffer srcBuffer dstBuffer (mkBufferCopy 0 0 size) ;;;
  VK_ASSERT (vkEndCommandBuffer commandBuffer) ;;;
  VK_ASSERT (vkQueueSubmit (immediateTransferQueue this) commandBuffer VK_NULL_HANDLE) ;;;
  VK_ASSERT (vkQueueWaitIdle (immediateTransferQueue this)) ;;;
  vkFreeCommandBuffers (immediateTransferPool this) commandBuffer.

(** [DeviceAllocator::allocateDeviceLocalBufferAndTransfer], lines 33-62.
    The result of [vmaCopyMemoryToAllocation] is dropped, as in the source. *)
Definition allocateDeviceLocalBufferAndTransfer (data : list Byte.byte) (size usage : Z)
  : M (Z * Z) :=
  destinationBuf <- allocateBuffer size
                      (Z.lor usage VK_BUFFER_USAGE_TRANSFER_DST_BIT)
                      VK_MEMORY_PROPERTY_DEVICE_LOCAL_BIT
                      defaultAllocFlags ;;
  stagingBuf <- allocateBuffer size
                  VK_BUFFER_USAGE_TRANSFER_SRC_BIT
                  (Z.lor VK_MEMORY_PROPERTY_HOST_VISIBLE_BIT VK_MEMORY_PROPERTY_HOST_COHERENT_BIT)
                  VMA_ALLOCATION_CREATE_HOST_ACCESS_SEQUENTIAL_WRITE_BIT ;;
  vmaCopyMemoryToAllocation data (snd stagingBuf) 0 size ;;;
  copyBuffer (fst stagingBuf) (fst destinationBuf) size ;;;
  vmaDestroyBuffer (fst stagingBuf) (snd stagingBuf) ;;;
  ret destinationBuf.

(** [DeviceAllocator::free] for a buffer pair, lines 104-107. *)
Definition free (allocation : Z * Z) : M unit :=
  vmaDestroyBuffer (fst allocation) (snd allocation).

End Methods.

(** *** Reading the device *)

(** The bytes of the memory bound to a buffer. *)
Definition contents (w : World) (buffer : Z) : option (list (option Byte.byte)) :=
  match resources w !! buffer with
  | Some (RBuffer _ m) =>
      match resources w !! m with
      | Some (RAllocation _ bytes) => Some bytes
      | _ => None
      end
  | _ => None
  end.

Definition buffer_info (w : World) (buffer : Z) : option VkBufferCreateInfo :=
  match resources w !! buffer with
  | Some (RBuffer info _) => Some info
  | _ => None
  end.


(** Worlds to run the code in. *)
Definition always_succeeds : nat -> FallibleCall -> VkResult := fun _ _ => VK_SUCCESS.


(** Mapping the staging memory fails; everything else succeeds. *)
Definition map_fails : nat -> FallibleCall -> VkResult :=
  fun _ c =>
    match c with
    | VmaCopyMemoryToAllocation _ _ _ => VK_ERROR_MEMORY_MAP_FAILED
    | _ => VK_SUCCESS
    end.

Definition boot (o : nat -> FallibleCall -> VkResult) : World :=
  mkWorld o [] 1 ∅ [] ∅.

Definition sample : t := mk 101 102 103 104 105 106.

End DeviceAllocator.

(** ** Entry points used by the Frame *)

Definition vkCreateCommandPool (flags queueFamilyIndex : Z) : M (VkResult * Z) :=
  native (fun w =>
    let '(r, w1) := consult (VkCreateCommandPool flags queueFamilyIndex) w in
    if is_success r then
      let h := next_handle w1 in
      ((r, h), bump 1 (set_resources (<[h := RCommandPool flags queueFamilyIndex]> (resources w1)) w1))
    else ((r, VK_NULL_HANDLE), w1)).

Definition vkCreateSemaphore : M (VkResult * Z) :=
  native (fun w =>
    let '(r, w1) := consult VkCreateSemaphore w in
    if is_success r then
      let h := next_handle w1 in
      ((r, h), bump 1 (set_resources (<[h := RSemaphore]> (resources w1)) w1))
    else ((r, VK_NULL_HANDLE), w1)).

(** A fence starts signaled exactly when the create flags carry the signaled
    bit. *)
Definition vkCreateFence (flags : Z) : M (VkResult * Z) :=
  native (fun w =>
    let '(r, w1) := consult (VkCreateFence flags) w in
    if is_success r then
      let h := next_handle w1 in
      let signaled := has_flag flags VK_FENCE_CREATE_SIGNALED_BIT in
      ((r, h), bump 1 (set_resources (<[h := RFence signaled]> (resources w1)) w1))
    else ((r, VK_NULL_HANDLE), w1)).

Definition allocated_from (pool : Z) (r : Resource) : bool :=
  match r with
  | RCommandBuffer p _ _ => p =? pool
  | _ => false
  end.

(** Destroying [VK_NULL_HANDLE] is a valid call that does nothing. *)
Definition release (h : Z) (r : gmap Z Resource) : gmap Z Resource :=
  if h =? VK_NULL_HANDLE then r else delete h r.

(** Destroying a command pool frees the command buffers allocated from it. *)
Definition release_pool (pool : Z) (r : gmap Z Resource) : gmap Z Resource :=
  if pool =? VK_NULL_HANDLE then r
  else filter (fun kr => allocated_from pool (snd kr) = false) (delete pool r).

Definition vkDestroyFence (fence : Z) : M unit :=
  native (fun w =>
    let w1 := log (Did (VkDestroyFence fence)) w in
    (tt, set_resources (release fence (resources w1)) w1)).

Definition vkDestroySemaphore (semaphore : Z) : M unit :=
  native (fun w =>
    let w1 := log (Did (VkDestroySemaphore semaphore)) w in
    (tt, set_resources (release semaphore (resources w1)) w1)).

Definition vkDestroyCommandPool (pool : Z) : M unit :=
  native (fun w =>
    let w1 := log (Did (VkDestroyCommandPool pool)) w in
    (tt, set_resources (release_pool pool (resources w1)) w1)).

(** Modelled from the spec: the acquire step of the frame loop
    (Application::draw) is not under src.  Sections 4.2 and 5 say it waits on
    the slot's fence with no timeout: the wait returns at once on a signaled
    fence, and otherwise blocks until a submission signals it. *)
Inductive WaitOutcome := ReturnsAtOnce | Blocks.

Definition wait_for_fence (w : World) (fence : Z) : WaitOutcome :=
  match resources w !! fence with
  | Some (RFence true) => ReturnsAtOnce
  | _ => Blocks
  end.

(** ** The free store *)

(** [std::make_unique<T>(args...)]: the new object lives at an address no
    other object has.  The constructors of [DescriptorPool] and
    [DescriptorSet] are not under src; what they do to the device is left
    out, the object records the arguments it was built from. *)
Definition make_unique (o : Object) (w : World) : Z * World :=
  let a := next_handle w in
  (a, bump 1 (set_heap (<[a := o]> (heap w)) (log (New a o) w))).

(** [std::unique_ptr::reset()] on a pointer that owns the object at [a]. *)
Definition reset (a : Z) : M unit :=
  native (fun w => (tt, set_heap (delete a (heap w)) (log (Delete a) w))).

Fixpoint for_each {A} (body : A -> M unit) (l : list A) : M unit :=
  match l with
  | [] => ret tt
  | x :: rest => body x ;;; for_each body rest
  end.

(** ** src/Frame.cpp *)

(** The functions of VkHash.h are not under src.  The Frame uses three of
    them: [hash_value] on a layout, and [hash_combine] on a seed and a buffer
    or an image binding; each yields a [size_t]. *)
Record Hasher := mkHasher {
  hash_value : DescriptorSetLayout -> Z;
  hash_combine_buffer : Z -> VkDescriptorBufferInfo -> Z;
  hash_combine_image : Z -> VkDescriptorImageInfo -> Z
}.

Definition SIZE_MAX : Z := 18446744073709551615.

Definition size_t_valued (hasher : Hasher) : Prop :=
  (forall l, 0 <= hash_value hasher l <= SIZE_MAX) /\
  (forall s b, 0 <= hash_combine_buffer hasher s b <= SIZE_MAX) /\
  (forall s i, 0 <= hash_combine_image hasher s i <= SIZE_MAX).

Module Frame.

(** The caches map a concurrency index to a map from hash to the owned
    object, given by its address. *)
Record t := mk {
  device : Z;
  commandPool : Z;
  commandBuffer : Z;
  fence : Z;
  imageAvailableSemaphore : Z;
  renderFinishedSemaphore : Z;
  descriptorPools : gmap Z (gmap Z Z);
  descriptorSets : gmap Z (gmap Z Z)
}.

Definition set_descriptorPools (m : gmap Z (gmap Z Z)) (f : t) : t :=
  mk (device f) (commandPool f) (commandBuffer f) (fence f)
     (imageAvailableSemaphore f) (renderFinishedSemaphore f) m (descriptorSets f).

Definition set_descriptorSets (m : gmap Z (gmap Z Z)) (f : t) : t :=
  mk (device f) (commandPool f) (commandBuffer f) (fence f)
     (imageAvailableSemaphore f) (renderFinishedSemaphore f) (descriptorPools f) m.

(** [Frame::Frame(VkDevice, uint32_t)], lines 11-38. *)
Definition create (device renderQueueFamilyIndex : Z) : M t :=
  commandPool <- VK_ASSERT (vkCreateCommandPool
                              VK_COMMAND_POOL_CREATE_RESET_COMMAND_BUFFER_BIT
                              renderQueueFamilyIndex) ;;
  commandBuffer <- VK_ASSERT (vkAllocateCommandBuffers commandPool
                                VK_COMMAND_BUFFER_LEVEL_PRIMARY 1) ;;
  imageAvailableSemaphore <- VK_ASSERT vkCreateSemaphore ;;
  renderFinishedSemaphore <- VK_ASSERT vkCreateSemaphore ;;
  fence <- VK_ASSERT (vkCreateFence VK_FENCE_CREATE_SIGNALED_BIT) ;;
  ret (mk device commandPool commandBuffer fence
          imageAvailableSemaphore renderFinishedSemaphore ∅ ∅).

(** [Frame::Frame(Frame &&)], lines 40-53: the new Frame and what is left of
    [other].  The two caches are not in the initialiser list: the new Frame
    starts with empty ones and [other] keeps its own. *)
Definition move (other : t) : t * t :=
  (mk (device other) (commandPool other) (commandBuffer other) (fence other)
      (imageAvailableSemaphore other) (renderFinishedSemaphore other) ∅ ∅,
   mk (device other) VK_NULL_HANDLE VK_NULL_HANDLE VK_NULL_HANDLE
      VK_NULL_HANDLE VK_NULL_HANDLE (descriptorPools other) (descriptorSets other)).

(** The owned addresses of a cache, in the order the two nested range-for
    loops of the destructor visit them. *)
Definition cached (cache : gmap Z (gmap Z Z)) : list Z :=
  map_to_list cache ≫= (fun slot => snd <$> map_to_list (snd slot)).

(** [Frame::~Frame], lines 55-71. *)
Definition destroy (f : t) : M unit :=
  for_each reset (cached (descriptorSets f)) ;;;
  for_each reset (cached (descriptorPools f)) ;;;
  vkDestroyFence (fence f) ;;;
  vkDestroySemaphore (renderFinishedSemaphore f) ;;;
  vkDestroySemaphore (imageAvailableSemaphore f) ;;;
  vkDestroyCommandPool (commandPool f).

Section Cache.

Variable hasher : Hasher.

(** [Frame::getDescriptorPool], lines 93-108.  [operator[]] creates the
    slot's map when the slot has none yet. *)
Definition getDescriptorPool (concurrencyIndex : Z) (layout : DescriptorSetLayout)
    (f : t) (w : World) : Z * t * World :=
  let hash := hash_value hasher layout in
  let descriptorPoolMap := default ∅ (descriptorPools f !! concurrencyIndex) in
  match descriptorPoolMap !! hash with
  | Some pool =>
      (pool,
       set_descriptorPools (<[concurrencyIndex := descriptorPoolMap]> (descriptorPools f)) f,
       w)
  | None =>
      let '(pool, w') := make_unique (ODescriptorPool (device f) layout) w in
      (pool,
       set_descriptorPools
         (<[concurrencyIndex := <[hash := pool]> descriptorPoolMap]> (descriptorPools f)) f,
       w')
  end.

(** The key of a descriptor set, lines 117-123: only the mapped values are
    combined, never the binding indices. *)
Definition set_hash (layout : DescriptorSetLayout)
    (bufferBindingInfos : BindingMap VkDescriptorBufferInfo)
    (imageBindingInfos : BindingMap VkDescriptorImageInfo) : Z :=
  let hash := hash_value hasher layout in
  let hash :=
    fold_left (fun h i => hash_combine_buffer hasher h (snd i)) bufferBindingInfos hash in
  fold_left (fun h i => hash_combine_image hasher h (snd i)) imageBindingInfos hash.

(** [Frame::getDescriptorSet], lines 110-137. *)
Definition getDescriptorSet (concurrencyIndex : Z) (layout : DescriptorSetLayout)
    (bufferBindingInfos : BindingMap VkDescriptorBufferInfo)
    (imageBindingInfos : BindingMap VkDescriptorImageInfo)
    (f : t) (w : World) : Z * t * World :=
  let hash := set_hash layout bufferBindingInfos imageBindingInfos in
  let descriptorSetMap := default ∅ (descriptorSets f !! concurrencyIndex) in
  let f1 := set_descriptorSets (<[concurrencyIndex := descriptorSetMap]> (descriptorSets f)) f in
  match descriptorSetMap !! hash with
  | Some set => (set, f1, w)
  | None =>
      let '(pool, f2, w2) := getDescriptorPool concurrencyIndex layout f1 w in
      let '(set, w3) :=
        make_unique (ODescriptorSet (device f) pool bufferBindingInfos imageBindingInfos) w2 in
      (set,
       set_descriptorSets
         (<[concurrencyIndex := <[hash := set]> descriptorSetMap]> (descriptorSets f2)) f2,
       w3)
  end.

(** [Frame::updateDescriptorSets], lines 139-147: [find], not [operator[]],
    so an unknown slot is left unknown. *)
Definition updateDescriptorSets (concurrencyIndex : Z) (f : t) (w : World) : World :=
  match descriptorSets f !! concurrencyIndex with
  | Some sets => fold_left (fun w' s => log (UpdateAll (snd s)) w') (map_to_list sets) w
  | None => w
  end.

(** The calls a client can make on a Frame's caches. *)
Inductive Request :=
| GetDescriptorPool (concurrencyIndex : Z) (layout : DescriptorSetLayout)
| GetDescriptorSet (concurrencyIndex : Z) (layout : DescriptorSetLayout)
    (bufferBindingInfos : BindingMap VkDescriptorBufferInfo)
    (imageBindingInfos : BindingMap VkDescriptorImageInfo)
| UpdateDescriptorSets (concurrencyIndex : Z).

Definition serve (r : Request) (s : t * World) : t * World :=
  match r with
  | GetDescriptorPool i l => let '(_, f, w) := getDescriptorPool i l (fst s) (snd s) in (f, w)
  | GetDescriptorSet i l bs ims =>
      let '(_, f, w) := getDescriptorSet i l bs ims (fst s) (snd s) in (f, w)
  | UpdateDescriptorSets i => (fst s, updateDescriptorSets i (fst s) (snd s))
  end.

Definition serve_all (rs : list Request) (s : t * World) : t * World :=
  fold_left (fun s r => serve r s) rs s.

End Cache.

(** *** Reading the caches *)

(** The three components of what a cache operation yields. *)
Definition result_of {A} (r : A * t * World) : A := fst (fst r).
Definition frame_of {A} (r : A * t * World) : t := snd (fst r).
Definition world_after {A} (r : A * t * World) : World := snd r.

(** The object cached under a slot and a hash. *)
Definition lookup2 (cache : gmap Z (gmap Z Z)) (slot hash : Z) : option Z :=
  cache !! slot ≫= (fun m => m !! hash).

Inductive Kind := Pool | DSet.

#[global] Instance Kind_eq_dec : EqDecision Kind.
Proof. solve_decision. Defined.

Definition cache_of (f : t) (k : Kind) : gmap Z (gmap Z Z) :=
  match k with Pool => descriptorPools f | DSet => descriptorSets f end.

Definition entry (f : t) (k : Kind) (slot hash : Z) : option Z :=
  lookup2 (cache_of f k) slot hash.


(** Every cached address is that of an object made before now, and no address
    is cached twice. *)
Record cache_wf (f : t) (w : World) : Prop := {
  wf_old : forall k i h a, entry f k i h = Some a -> a < next_handle w;
  wf_inj : forall k i h k' i' h' a,
    entry f k i h = Some a -> entry f k' i' h' = Some a -> k = k' /\ i = i' /\ h = h'
}.

Definition is_new_pool (e : Event) : bool :=
  match e with New _ (ODescriptorPool _ _) => true | _ => false end.

Definition is_new_set (e : Event) : bool :=
  match e with New _ (ODescriptorSet _ _ _ _) => true | _ => false end.

Definition pools_created (w : World) : nat := length (List.filter is_new_pool (trace w)).
Definition sets_created (w : World) : nat := length (List.filter is_new_set (trace w)).

End Frame.

(** ** Material::Parameters (Material.h) *)

Module Material.

Inductive glm_type := glm_float | glm_vec3 | glm_vec4.

(** [glm::vec3] and [glm::vec4] are three and four packed floats. *)
Definition sizeof (ty : glm_type) : Z :=
  match ty with glm_float => 4 | glm_vec3 => 12 | glm_vec4 => 16 end.

(** In C++ the three types have the alignment of [float]. *)
Definition alignof (ty : glm_type) : Z := 4.

(** Base alignments of the std140 uniform block layout (GLSL). *)
Definition std140_align (ty : glm_type) : Z :=
  match ty with glm_float => 4 | glm_vec3 => 16 | glm_vec4 => 16 end.

Inductive field := ambient | pad1 | diffuse | pad2 | specularAndShininess.

Definition field_eqb (a b : field) : bool :=
  match a, b with
  | ambient, ambient | pad1, pad1 | diffuse, diffuse | pad2, pad2
  | specularAndShininess, specularAndShininess => true
  | _, _ => false
  end.

(** [struct Parameters], lines 59-66, in declaration order. *)
Definition Parameters : list (field * glm_type) :=
  [(ambient, glm_vec3); (pad1, glm_float); (diffuse, glm_vec3); (pad2, glm_float);
   (specularAndShininess, glm_vec4)].

(** Modelled from the spec: the fragment shader that reads the parameter
    buffer is not under src.  Section 6 asks for "16-byte-aligned vector/matrix
    fields" in "the same field ordering" as the shader's uniform block: the
    block holds the three vectors, in this order, under std140. *)
Definition uniform_block : list (field * glm_type) :=
  [(ambient, glm_vec3); (diffuse, glm_vec3); (specularAndShininess, glm_vec4)].

Definition align_up (off a : Z) : Z := (off + a - 1) / a * a.

(** Each member goes to the first offset that is free and suitably aligned. *)
Fixpoint place (align : glm_type -> Z) (off : Z) (members : list (field * glm_type))
  : list (field * Z) :=
  match members with
  | [] => []
  | (name, ty) :: rest =>
      let o := align_up off (align ty) in
      (name, o) :: place align (o + sizeof ty) rest
  end.

Fixpoint find_field (name : field) (l : list (field * Z)) : option Z :=
  match l with
  | [] => None
  | (n, o) :: rest => if field_eqb name n then Some o else find_field name rest
  end.

(** [offsetof(Material::Parameters, name)]. *)
Definition offsetof (name : field) : option Z :=
  find_field name (place alignof 0 Parameters).

(** The offset the shader reads the member at. *)
Definition shader_offset (name : field) : option Z :=
  find_field name (place std140_align 0 uniform_block).

Definition is_vector (ty : glm_type) : bool :=
  match ty with glm_float => false | _ => true end.

(** Members laid out back to back, with no padding between them. *)
Fixpoint packed (off : Z) (members : list (field * glm_type)) : list (field * Z) :=
  match members with
  | [] => []
  | (name, ty) :: rest => (name, off) :: packed (off + sizeof ty) rest
  end.

(** The first offset past the last member. *)
Fixpoint struct_end (align : glm_type -> Z) (off : Z) (members : list (field * glm_type)) : Z :=
  match members with
  | [] => off
  | (_, ty) :: rest => struct_end align (align_up off (align ty) + sizeof ty) rest
  end.

(** [sizeof] of a struct with these members: its end, rounded up to the
    alignment of [float], the strictest alignment a member can have. *)
Definition sizeof_struct (members : list (field * glm_type)) : Z :=
  align_up (struct_end alignof 0 members) 4.

Definition members_size (members : list (field * glm_type)) : Z :=
  fold_right (fun member total => sizeof (snd member) + total) 0 members.

End Material.

(** ** Worlds and inputs used in the examples *)

Definition world_of {A} (o : Outcome A) : World :=
  match o with Returned _ w => w | Aborted _ w => w end.

Definition returned {A} (o : Outcome A) : bool :=
  match o with Returned _ _ => true | Aborted _ _ => false end.

Definition all_succeed (w : World) : Prop := forall n c, oracle w n c = VK_SUCCESS.

Definition payload : list Byte.byte := [Byte.x01; Byte.x02; Byte.x03].

(** A Frame with two slots in use, built by hand: slot 0 caches pool 20 and
    sets 21 and 22, slot 1 caches pool 30 and set 31. *)
Definition busy_frame : Frame.t :=
  Frame.mk 103 11 12 15 13 14
    {[ 0 := {[ 7 := 20 ]}; 1 := {[ 7 := 30 ]} ]}
    {[ 0 := {[ 8 := 21; 9 := 22 ]}; 1 := {[ 8 := 31 ]} ]}.

Definition busy_world : World :=
  mkWorld (fun _ _ => VK_SUCCESS) [] 40
    {[ 11 := RCommandPool 2 0; 12 := RCommandBuffer 11 Initial [];
       13 := RSemaphore; 14 := RSemaphore; 15 := RFence true ]}
    []
    {[ 20 := ODescriptorPool 103 (mkLayout 50 []);
       21 := ODescriptorSet 103 20 [] [];
       22 := ODescriptorSet 103 20 [] [];
       30 := ODescriptorPool 103 (mkLayout 50 []);
       31 := ODescriptorSet 103 30 [] [] ]}.

(** An event is in order when it is not a call that failed; the one call
    whose result the Device Allocator never looks at is let through. *)
Definition in_order (e : Event) : Prop :=
  match e with
  | Called (VmaCopyMemoryToAllocation _ _ _) _ => True
  | Called _ r => r = VK_SUCCESS
  | _ => True
  end.

(** Whenever [m] returns, what it has added to the log is in order. *)
Definition returns_in_order {A} (m : M A) : Prop :=
  forall w a w', m w = Returned a w' ->
                 exists es, trace w' = trace w ++ es /\ Forall in_order es.

(** The slots in [S] have been served the material, the others have cached
    nothing for it. *)
Definition served (hasher : Hasher) (l : DescriptorSetLayout)
    (bs : BindingMap VkDescriptorBufferInfo) (ims : BindingMap VkDescriptorImageInfo)
    (f : Frame.t) (S : gset Z) : Prop :=
  forall i, if decide (i ∈ S)
            then is_Some (Frame.entry f Frame.DSet i (Frame.set_hash hasher l bs ims))
            else Frame.entry f Frame.DSet i (Frame.set_hash hasher l bs ims) = None /\
                 Frame.entry f Frame.Pool i (hash_value hasher l) = None.

(** A hasher to run the examples with, in the customary seed-mixing style; the
    repository's own functions are not under src, and no property below
    depends on this choice. *)
Definition mix (seed v : Z) : Z :=
  Z.land (Z.lxor seed (v + 2654435769 + Z.shiftl seed 6 + Z.shiftr seed 2)) SIZE_MAX.

Definition sample_hasher : Hasher :=
  mkHasher
    (fun l => mix 0 (layout_handle l))
    (fun seed b => mix seed (mix (mix (mix 0 (db_buffer b)) (db_offset b)) (db_range b)))
    (fun seed i => mix seed (mix (mix (mix 0 (di_sampler i)) (di_imageView i))
                                 (di_imageLayout i))).

(** A Frame as its constructor leaves it, and a material to ask for. *)
Definition fresh_frame : Frame.t := Frame.mk 103 1 2 5 3 4 ∅ ∅.

Definition fresh_world : World :=
  mkWorld (fun _ _ => VK_SUCCESS) [] 6
    {[ 1 := RCommandPool 2 0; 2 := RCommandBuffer 1 Initial [];
       3 := RSemaphore; 4 := RSemaphore; 5 := RFence true ]}
    [] ∅.

Definition material_layout : DescriptorSetLayout := mkLayout 50 [(0, 6); (1, 1)].

Definition material_buffers : BindingMap VkDescriptorBufferInfo :=
  [(0, mkBufferBinding 60 0 48)].

Definition material_images : BindingMap VkDescriptorImageInfo :=
  [(1, mkImageBinding 70 71 5)].

(** The image binding number [n] of a family of distinct bindings whose
    handles are non-null 64-bit values. *)
Definition image_binding (n : nat) : VkDescriptorImageInfo :=
  mkImageBinding (Z.of_nat n / SIZE_MAX + 1) (Z.of_nat n mod SIZE_MAX + 1) 5.

(** ** The calls of a transfer *)




(** The state of the device hangs together: a copy that is pending on the
    immediate-transfer queue writes to a buffer whose handle the device has
    handed out, and the memory of a buffer has a handle the device has handed
    out. *)
Definition device_consistent (this : DeviceAllocator.t) (w : World) : Prop :=
  (forall src dst region,
     (DeviceAllocator.immediateTransferQueue this, CmdCopyBuffer src dst region) ∈ pending w ->
     dst < next_handle w) /\
  (forall k info memory,
     k < next_handle w -> resources w !! k = Some (RBuffer info memory) ->
     memory < next_handle w).


(** ** Conditions on the device *)

(** No handle from [next_handle] on is in use: the device hands out handles
    in ascending order and never twice. *)
Definition handles_fresh (w : World) : Prop :=
  forall k, next_handle w <= k -> resources w !! k = None.

(** The command buffer [cb] is alive and belongs to [pool]. *)
Definition allocated_in (w : World) (cb pool : Z) : Prop :=
  exists st cmds, resources w !! cb = Some (RCommandBuffer pool st cmds).

Definition frees_command_buffer (e : Event) : bool :=
  match e with Did (VkFreeCommandBuffers _ _) => true | _ => false end.

(** What a step of [copyBuffer] between the allocation and the release of
    its command buffer does: it logs one event that frees nothing and keeps
    every command buffer, or a failed call cuts it short. *)
Definition keeps_command_buffers (m : M unit) : Prop :=
  forall w,
    (exists e w1,
        m w = Returned tt w1 /\ trace w1 = trace w ++ [e] /\
        frees_command_buffer e = false /\ next_handle w1 = next_handle w /\
        forall cb pool, allocated_in w cb pool -> allocated_in w1 cb pool) \/
    (exists c r,
        m w = Aborted r (log (Called c r) w) /\ is_success r = false).

(** How a call that was cut short has left the world: the last event of the
    log is the call that failed, no event before it freed a command buffer,
    and every command buffer is still there. *)
Definition cut_short (w : World) (r : VkResult) (w' : World) : Prop :=
  is_success r = false /\
  (exists es c, trace w' = trace w ++ es ++ [Called c r] /\
                Forall (fun e => frees_command_buffer e = false) es) /\
  next_handle w' = next_handle w /\
  forall cb pool, allocated_in w cb pool -> allocated_in w' cb pool.

(** Submitting to the queue fails: the device is lost. *)
Definition submit_fails : nat -> FallibleCall -> VkResult :=
  fun _ c =>
    match c with
    | VkQueueSubmit _ _ _ => VK_ERROR_DEVICE_LOST
    | _ => VK_SUCCESS
    end.

(** There is device-local memory, but no memory for a transfer source. *)
Definition staging_fails : nat -> FallibleCall -> VkResult :=
  fun _ c =>
    match c with
    | VmaCreateBuffer info _ =>
        if has_flag (bi_usage info) VK_BUFFER_USAGE_TRANSFER_SRC_BIT
        then VK_ERROR_OUT_OF_HOST_MEMORY else VK_SUCCESS
    | _ => VK_SUCCESS
    end.

(** A device with a filled three-byte buffer 1 and an empty three-byte
    buffer 3. *)
Definition two_buffers (o : nat -> FallibleCall -> VkResult) : World :=
  mkWorld o [] 5
    {[ 1 := RBuffer (mkBufferInfo 3 3 VK_SHARING_MODE_EXCLUSIVE) 2;
       2 := RAllocation (mkAllocInfo VMA_MEMORY_USAGE_AUTO 6 0)
              [Some Byte.x01; Some Byte.x02; Some Byte.x03];
       3 := RBuffer (mkBufferInfo 3 2 VK_SHARING_MODE_EXCLUSIVE) 4;
       4 := RAllocation (mkAllocInfo VMA_MEMORY_USAGE_AUTO 1 0) [None; None; None] ]}
    [] ∅.

(** Every command buffer on the device belongs to a pool made before now. *)
Definition pools_known (w : World) : Prop :=
  forall k pool st cmds,
    resources w !! k = Some (RCommandBuffer pool st cmds) -> pool < next_handle w.

(** No address from [next_handle] on holds an object. *)
Definition addresses_fresh (w : World) : Prop :=
  forall a, next_handle w <= a -> heap w !! a = None.

(** What the cached addresses point to.  A cached pool is a [DescriptorPool]
    of the Frame's device, filed under the hash of the layout it was built
    for.  A cached set is a [DescriptorSet] of the Frame's device, filed under
    the hash of a layout and of the bindings it was built from, and the pool
    it was built from is the one the same slot caches for that layout. *)
Definition cache_typed (hasher : Hasher) (f : Frame.t) (w : World) : Prop :=
  (forall i h a,
     Frame.entry f Frame.Pool i h = Some a ->
     exists l, heap w !! a = Some (ODescriptorPool (Frame.device f) l) /\
               hash_value hasher l = h) /\
  (forall i h a,
     Frame.entry f Frame.DSet i h = Some a ->
     exists l bs ims pool,
       heap w !! a = Some (ODescriptorSet (Frame.device f) pool bs ims) /\
       Frame.set_hash hasher l bs ims = h /\
       Frame.entry f Frame.Pool i (hash_value hasher l) = Some pool).

(** The caches hold only addresses handed out since the world [w0], and the
    free store differs from that of [w0] at cached addresses only. *)
Definition cache_owns (w0 : World) (f : Frame.t) (w : World) : Prop :=
  next_handle w0 <= next_handle w /\
  (forall k i h a, Frame.entry f k i h = Some a -> next_handle w0 <= a) /\
  (forall a, (forall k i h, Frame.entry f k i h <> Some a) -> heap w !! a = heap w0 !! a).

(** A call that succeeded. *)
Definition succeeded (e : Event) : Prop := exists c, e = Called c VK_SUCCESS.

(** The device has room for a command pool and its command buffer, but for
    no semaphore. *)
Definition no_semaphores : nat -> FallibleCall -> VkResult :=
  fun _ c =>
    match c with
    | VkCreateSemaphore => VK_ERROR_OUT_OF_DEVICE_MEMORY
    | _ => VK_SUCCESS
    end.

(** The material's buffer, moved from binding 0 to binding 5. *)
Definition material_buffers_rebound : BindingMap VkDescriptorBufferInfo :=
  [(5, mkBufferBinding 60 0 48)].

(** ** Application.cpp: instance, device selection and swap chain parameters *)

Module Application.
Import String.

(** What a function throws: [std::runtime_error] with its message, or the
    [std::bad_optional_access] of [std::optional::value]. *)
Inductive Exception :=
| runtime_error (what : string)
| bad_optional_access.

Inductive Result (A : Type) :=
| Ok (a : A)
| Throw (e : Exception).
Arguments Ok {A} a.
Arguments Throw {A} e.

Definition UINT32_MAX : Z := 4294967295.
Definition VK_FORMAT_B8G8R8A8_SRGB : Z := 50.
Definition VK_COLOR_SPACE_SRGB_NONLINEAR_KHR : Z := 0.
Definition VK_PRESENT_MODE_MAILBOX_KHR : Z := 1.
Definition VK_PRESENT_MODE_FIFO_KHR : Z := 2.
Definition VK_QUEUE_GRAPHICS_BIT : Z := 1.
Definition VK_SHARING_MODE_CONCURRENT : Z := 1.
Definition VK_IMAGE_USAGE_COLOR_ATTACHMENT_BIT : Z := 16.
Definition VK_COMPOSITE_ALPHA_OPAQUE_BIT_KHR : Z := 1.
Definition VK_KHR_SWAPCHAIN_EXTENSION_NAME : string := "VK_KHR_swapchain"%string.

Record VkSurfaceFormatKHR := mkSurfaceFormat {
  format : Z;
  colorSpace : Z
}.

Record VkExtent2D := mkExtent {
  width : Z;
  height : Z
}.

Record VkSurfaceCapabilitiesKHR := mkCapabilities {
  minImageCount : Z;
  maxImageCount : Z;
  currentExtent : VkExtent2D;
  minImageExtent : VkExtent2D;
  maxImageExtent : VkExtent2D;
  currentTransform : Z
}.

Record SwapChainSupportDetails := mkSupport {
  capabilities : VkSurfaceCapabilitiesKHR;
  formats : list VkSurfaceFormatKHR;
  presentModes : list Z
}.

(** A queue family as the loop of [findNeededQueueFamilyIndices] sees it: its
    flags, and what [vkGetPhysicalDeviceSurfaceSupportKHR] answers for it. *)
Record QueueFamily := mkQueueFamily {
  queueFlags : Z;
  presentSupport : bool
}.

(** What the driver reports for one physical device. *)
Record PhysicalDevice := mkPhysicalDevice {
  pd_handle : Z;
  pd_extensions : list string;
  pd_queueFamilies : list QueueFamily;
  pd_swapChainSupport : SwapChainSupportDetails
}.

(** [Application::QueueFamilyIndices] (Application.h). *)
Record QueueFamilyIndices := mkIndices {
  graphics : option Z;
  present : option Z
}.

Definition isComplete (indices : QueueFamilyIndices) : bool :=
  bool_decide (is_Some (graphics indices)) && bool_decide (is_Some (present indices)).

(** [static_cast<uint32_t>] of an [int], and arithmetic in [uint32_t]. *)
Definition to_uint32 (x : Z) : Z := x mod 4294967296.

(** [std::clamp(v, lo, hi)]: [lo] if [v < lo], [hi] if [hi < v], else [v]. *)
Definition clamp (v lo hi : Z) : Z :=
  if v <? lo then lo else if hi <? v then hi else v.

(** [Application::checkValidationLayersSupported], lines 99-122, on the
    layers the instance reports. *)
Definition checkValidationLayersSupported (requiredValidationLayers availableLayers : list string)
  : bool :=
  forallb (fun layer => existsb (fun layerProp => String.eqb layer layerProp) availableLayers)
          requiredValidationLayers.

(** [Application::checkDeviceRequiredExtensionsSupport], lines 266-287. *)
Definition checkDeviceRequiredExtensionsSupport (requiredDeviceExtensions : list string)
    (device : PhysicalDevice) : bool :=
  forallb (fun requiredExtension =>
             existsb (fun availableExtension => String.eqb requiredExtension availableExtension)
                     (pd_extensions device))
          requiredDeviceExtensions.

(** [Application::isDeviceSuitable], lines 248-264. *)
Definition isDeviceSuitable (requiredDeviceExtensions : list string) (device : PhysicalDevice)
    (queueFamilyIndices : QueueFamilyIndices) (swapChainSupportDetails : SwapChainSupportDetails)
  : bool :=
  let familyIndicesComplete := isComplete queueFamilyIndices in
  let extensionsSupported :=
    checkDeviceRequiredExtensionsSupport requiredDeviceExtensions device in
  let swapChainAdequate :=
    if extensionsSupported
    then negb (bool_decide (formats swapChainSupportDetails = [])) &&
         negb (bool_decide (presentModes swapChainSupportDetails = []))
    else false in
  familyIndicesComplete && extensionsSupported && swapChainAdequate.

(** The loop of [findNeededQueueFamilyIndices], lines 369-386, from family
    number [i] on. *)
Fixpoint scanQueueFamilies (queueFamilies : list QueueFamily) (i : Z)
    (indices : QueueFamilyIndices) : QueueFamilyIndices :=
  match queueFamilies with
  | [] => indices
  | queueFamily :: rest =>
      let indices :=
        if has_flag (queueFlags queueFamily) VK_QUEUE_GRAPHICS_BIT
        then mkIndices (Some i) (present indices) else indices in
      let indices :=
        if presentSupport queueFamily
        then mkIndices (graphics indices) (Some i) else indices in
      if isComplete indices then indices
      else scanQueueFamilies rest (i + 1) indices
  end.

(** [Application::findNeededQueueFamilyIndices], lines 360-389. *)
Definition findNeededQueueFamilyIndices (device : PhysicalDevice) : QueueFamilyIndices :=
  scanQueueFamilies (pd_queueFamilies device) 0 (mkIndices None None).

(** [Application::querySwapChainSupport], lines 289-312. *)
Definition querySwapChainSupport (device : PhysicalDevice) : SwapChainSupportDetails :=
  pd_swapChainSupport device.

Definition suitable (requiredDeviceExtensions : list string) (device : PhysicalDevice) : bool :=
  isDeviceSuitable requiredDeviceExtensions device
    (findNeededQueueFamilyIndices device) (querySwapChainSupport device).

(** [Application::findAndChooseDevice], lines 208-246, given the devices the
    instance enumerates and the value the member [physicalDevice] has on
    entry: the value it has on return. *)
Definition findAndChooseDevice (requiredDeviceExtensions : list string)
    (physicalDevice : Z) (devices : list PhysicalDevice) : Result Z :=
  if bool_decide (devices = []) then Throw (runtime_error "No GPUs found!"%string)
  else
    let physicalDevice :=
      fold_left (fun chosen device =>
                   if suitable requiredDeviceExtensions device then pd_handle device else chosen)
                devices physicalDevice in
    if physicalDevice =? VK_NULL_HANDLE
    then Throw (runtime_error "GPUs were found, but no device is suitable!"%string)
    else Ok physicalDevice.

(** [Application::chooseSwapSurfaceFormat], lines 314-327. *)
Definition preferred (f : VkSurfaceFormatKHR) : bool :=
  (format f =? VK_FORMAT_B8G8R8A8_SRGB) && (colorSpace f =? VK_COLOR_SPACE_SRGB_NONLINEAR_KHR).

Definition chooseSwapSurfaceFormat (availableFormats : list VkSurfaceFormatKHR)
  : Result VkSurfaceFormatKHR :=
  match availableFormats with
  | [] => Throw (runtime_error "chooseSwapSurfaceFormat: availableFormats must not be empty"%string)
  | first :: _ =>
      match List.find preferred availableFormats with
      | Some availableFormat => Ok availableFormat
      | None => Ok first
      end
  end.

(** [Application::chooseSwapPresentMode], lines 349-358. *)
Definition chooseSwapPresentMode (availablePresentModes : list Z) : Z :=
  match List.find (fun mode => mode =? VK_PRESENT_MODE_MAILBOX_KHR) availablePresentModes with
  | Some availablePresentMode => availablePresentMode
  | None => VK_PRESENT_MODE_FIFO_KHR
  end.

(** [Application::chooseSwapExtent], lines 329-347; [fbWidth] and [fbHeight]
    are the two [int]s that [glfwGetFramebufferSize] writes. *)
Definition chooseSwapExtent (capabilities : VkSurfaceCapabilitiesKHR) (fbWidth fbHeight : Z)
  : VkExtent2D :=
  if negb (width (currentExtent capabilities) =? UINT32_MAX)
  then currentExtent capabilities
  else
    mkExtent
      (clamp (to_uint32 fbWidth)
             (width (minImageExtent capabilities)) (width (maxImageExtent capabilities)))
      (clamp (to_uint32 fbHeight)
             (height (minImageExtent capabilities)) (height (maxImageExtent capabilities))).

(** [std::optional::value]. *)
Definition value {A} (o : option A) : Result A :=
  match o with
  | Some a => Ok a
  | None => Throw bad_optional_access
  end.

Record VkDeviceQueueCreateInfo := mkQueueCreateInfo {
  queueFamilyIndex : Z;
  queueCount : Z
}.

(** The queue create-infos [createLogicalDevice] builds, lines 395-408: one
    per element of the [std::set] of the two family indices, in ascending
    order. *)
Definition queueCreateInfos (device : PhysicalDevice) : Result (list VkDeviceQueueCreateInfo) :=
  let selectedQueueFamilyIndices := findNeededQueueFamilyIndices device in
  match value (graphics selectedQueueFamilyIndices) with
  | Throw e => Throw e
  | Ok g =>
      match value (present selectedQueueFamilyIndices) with
      | Throw e => Throw e
      | Ok p =>
          let uniqueIndices :=
            if g =? p then [g] else if g <? p then [g; p] else [p; g] in
          Ok ((fun index => mkQueueCreateInfo index 1) <$> uniqueIndices)
      end
  end.

Record VkSwapchainCreateInfoKHR := mkSwapchainInfo {
  sc_minImageCount : Z;
  sc_imageFormat : Z;
  sc_imageColorSpace : Z;
  sc_imageExtent : VkExtent2D;
  sc_imageArrayLayers : Z;
  sc_imageUsage : Z;
  sc_imageSharingMode : Z;
  sc_queueFamilyIndices : list Z;
  sc_preTransform : Z;
  sc_compositeAlpha : Z;
  sc_presentMode : Z;
  sc_clipped : bool
}.

(** The number of images [createSwapChain] asks for, lines 447-451; the sum
    is taken in [uint32_t]. *)
Definition swapChainImageCount (capabilities : VkSurfaceCapabilitiesKHR) : Z :=
  clamp (to_uint32 (minImageCount capabilities + 1))
        (minImageCount capabilities)
        (if 0 <? maxImageCount capabilities then maxImageCount capabilities else UINT32_MAX).

(** The create-info [createSwapChain] hands to [vkCreateSwapchainKHR], lines
    441-477, for the selected device, its queue family indices and the
    framebuffer size of the window. *)
Definition swapChainCreateInfo (device : PhysicalDevice)
    (selectedQueueFamilyIndices : QueueFamilyIndices) (fbWidth fbHeight : Z)
  : Result VkSwapchainCreateInfoKHR :=
  let swapChainSupport := querySwapChainSupport device in
  match chooseSwapSurfaceFormat (formats swapChainSupport) with
  | Throw e => Throw e
  | Ok surfaceFormat =>
      let presentMode := chooseSwapPresentMode (presentModes swapChainSupport) in
      let extent := chooseSwapExtent (capabilities swapChainSupport) fbWidth fbHeight in
      let imageCount := swapChainImageCount (capabilities swapChainSupport) in
      match value (graphics selectedQueueFamilyIndices) with
      | Throw e => Throw e
      | Ok g =>
          match value (present selectedQueueFamilyIndices) with
          | Throw e => Throw e
          | Ok p =>
              let concurrent := negb (g =? p) in
              Ok (mkSwapchainInfo imageCount (format surfaceFormat) (colorSpace surfaceFormat)
                    extent 1 VK_IMAGE_USAGE_COLOR_ATTACHMENT_BIT
                    (if concurrent then VK_SHARING_MODE_CONCURRENT
                     else VK_SHARING_MODE_EXCLUSIVE)
                    (if concurrent then [g; p] else [])
                    (currentTransform (capabilities swapChainSupport))
                    VK_COMPOSITE_ALPHA_OPAQUE_BIT_KHR presentMode true)
          end
      end
  end.

(** *** Instance and debug messenger *)

Definition VK_EXT_DEBUG_UTILS_EXTENSION_NAME : string := "VK_EXT_debug_utils"%string.

(** The fields of [VkInstanceCreateInfo] that [createInstance] sets: the
    layers, the extensions, and whether a debug messenger create-info hangs
    on [pNext]. *)
Record VkInstanceCreateInfo := mkInstanceInfo {
  enabledLayerNames : list string;
  enabledExtensionNames : list string;
  pNext_debugMessenger : bool
}.

(** What the platform answers to the calls of [createInstance] and
    [setupDebugMessenger]: the layers [vkEnumerateInstanceLayerProperties]
    lists, the extensions GLFW asks for ([None] for a null pointer), and the
    result codes of the two creation calls. *)
Record Platform := mkPlatform {
  instanceLayers : list string;
  glfwGetRequiredInstanceExtensions : option (list string);
  vkCreateInstance : VkInstanceCreateInfo -> Z;
  vkCreateDebugUtilsMessengerEXT : Z
}.

(** [fmt::format] of a message that ends in the placeholder for a result
    code. *)
Definition format_code (message : string) (code : Z) : string :=
  (message ++ DecimalString.NilZero.string_of_int (Z.to_int code))%string.

(** [Application::createInstance], lines 124-206.  The instance is given by
    the create-info it was made from. *)
Definition createInstance (isValidationLayersEnabled : bool)
    (requiredValidationLayers : list string) (platform : Platform)
  : Result VkInstanceCreateInfo :=
  if isValidationLayersEnabled &&
     negb (checkValidationLayersSupported requiredValidationLayers (instanceLayers platform))
  then Throw (runtime_error "The required validation layers are not available!"%string)
  else
    match glfwGetRequiredInstanceExtensions platform with
    | None => Throw (runtime_error "glfwGetRequiredInstanceExtensions returned NULL"%string)
    | Some glfwExtensions =>
        let extensionsToEnable :=
          glfwExtensions ++
          (if isValidationLayersEnabled then [VK_EXT_DEBUG_UTILS_EXTENSION_NAME] else []) in
        let createInfo :=
          mkInstanceInfo (if isValidationLayersEnabled then requiredValidationLayers else [])
                         extensionsToEnable isValidationLayersEnabled in
        let result := vkCreateInstance platform createInfo in
        if result =? 0 then Ok createInfo
        else Throw (runtime_error (format_code "vkCreateInstance failed with code "%string result))
    end.

(** [vkGetInstanceProcAddr] for a command of VK_EXT_debug_utils: by the Vulkan
    specification the address of a command of an instance extension is
    returned only for an instance created with that extension enabled, and is
    null otherwise. *)
Definition debugUtilsCommandFound (instance : VkInstanceCreateInfo) : bool :=
  existsb (String.eqb VK_EXT_DEBUG_UTILS_EXTENSION_NAME) (enabledExtensionNames instance).

(** [Application::setupDebugMessenger], lines 71-84. *)
Definition setupDebugMessenger (instance : VkInstanceCreateInfo) (platform : Platform)
  : Result unit :=
  if negb (debugUtilsCommandFound instance)
  then Throw (runtime_error
                "addres of vkCreateDebugUtilsMessengerEXT could not be looked up!"%string)
  else
    let result := vkCreateDebugUtilsMessengerEXT platform in
    if result =? 0 then Ok tt
    else Throw (runtime_error
                  (format_code "vkCreateDebugUtilsMessengerEXT failed with code "%string result)).

(** The first two steps of [Application::initVulkan], lines 49-53:
    [setupDebugMessenger] is called whether or not validation is enabled. *)
Definition initVulkan_instance (isValidationLayersEnabled : bool)
    (requiredValidationLayers : list string) (platform : Platform)
  : Result VkInstanceCreateInfo :=
  match createInstance isValidationLayersEnabled requiredValidationLayers platform with
  | Throw e => Throw e
  | Ok instance =>
      match setupDebugMessenger instance platform with
      | Throw e => Throw e
      | Ok _ => Ok instance
      end
  end.

(** A desktop on which everything is available and every call succeeds. *)
Definition sample_platform : Platform :=
  mkPlatform ["VK_LAYER_KHRONOS_validation"%string]
             (Some ["VK_KHR_surface"%string; "VK_KHR_xcb_surface"%string])
             (fun _ => 0) 0.

(** A family that can draw, and one the surface can be presented from. *)
Definition draws (q : QueueFamily) : Prop :=
  has_flag (queueFlags q) VK_QUEUE_GRAPHICS_BIT = true.

Definition presents (q : QueueFamily) : Prop := presentSupport q = true.

(** What the Vulkan specification promises of surface capabilities: counts
    are [uint32_t] values, and a maximum of zero means there is none. *)
Definition counts_valid (capabilities : VkSurfaceCapabilitiesKHR) : Prop :=
  0 <= minImageCount capabilities <= UINT32_MAX /\
  0 <= maxImageCount capabilities <= UINT32_MAX /\
  (maxImageCount capabilities = 0 \/
   minImageCount capabilities <= maxImageCount capabilities).

(** A discrete GPU with a graphics-only family and a family that can both
    draw and present, and a second device without the swap chain extension. *)
Definition sample_support : SwapChainSupportDetails :=
  mkSupport (mkCapabilities 2 3 (mkExtent UINT32_MAX UINT32_MAX)
                            (mkExtent 1 1) (mkExtent 4096 4096) 1)
            [mkSurfaceFormat 44 0; mkSurfaceFormat 50 0]
            [2; 1].

Definition sample_gpu : PhysicalDevice :=
  mkPhysicalDevice 900 ["VK_KHR_maintenance1"%string; "VK_KHR_swapchain"%string]
                   [mkQueueFamily 1 false; mkQueueFamily 3 true] sample_support.

Definition sample_headless : PhysicalDevice :=
  mkPhysicalDevice 901 ["VK_KHR_maintenance1"%string]
                   [mkQueueFamily 3 true] sample_support.

End Application.

(** * Properties *)

(** ** Bits *)

Lemma land_lor_bit (bit x : Z) : Z.land (Z.lor bit x) bit = bit.
Proof.
  apply Z.bits_inj'. intros n _.
  rewrite Z.land_spec, Z.lor_spec.
  destruct (Z.testbit bit n), (Z.testbit x n); reflexivity.
Qed.

Lemma has_flag_lor_l (bit x : Z) : bit <> 0 -> has_flag (Z.lor bit x) bit = true.
Proof.
  intros Hbit. unfold has_flag. rewrite land_lor_bit.
  destruct (Z.eqb_spec bit 0); [contradiction | reflexivity].
Qed.

Lemma has_flag_lor_r (bit x : Z) : bit <> 0 -> has_flag (Z.lor x bit) bit = true.
Proof. rewrite Z.lor_comm. apply has_flag_lor_l. Qed.

(** ** Running the monad *)

Lemma bind_run {A B} (m : M A) (k : A -> M B) w a w' o :
  m w = Returned a w' -> k a w' = o -> bind m k w = o.
Proof. unfold bind. intros -> ->. reflexivity. Qed.

Lemma bind_aborted {A B} (m : M A) (k : A -> M B) w r w' :
  m w = Aborted r w' -> bind m k w = Aborted r w'.
Proof. unfold bind. intros ->. reflexivity. Qed.

Lemma assert_success {A} (call : M (VkResult * A)) w a w' :
  call w = Returned (VK_SUCCESS, a) w' -> VK_ASSERT call w = Returned a w'.
Proof. unfold VK_ASSERT. intros ->. reflexivity. Qed.

Lemma assert_failure {A} (call : M (VkResult * A)) w r a w' :
  call w = Returned (r, a) w' -> is_success r = false -> VK_ASSERT call w = Aborted r w'.
Proof. unfold VK_ASSERT. intros -> ->. reflexivity. Qed.

(** ** Entry points on a world whose oracle reports success *)

Section Success.

Variable o : nat -> FallibleCall -> VkResult.
Hypothesis Ho : forall n c, o n c = VK_SUCCESS.
Variables (t : list Event) (n : Z) (r : gmap Z Resource) (p : list (Z * Command))
          (h : gmap Z Object).



Lemma vkAllocateCommandBuffers_success pool level count :
  vkAllocateCommandBuffers pool level count (mkWorld o t n r p h) =
    Returned (VK_SUCCESS, n)
      (mkWorld o (t ++ [Called (VkAllocateCommandBuffers pool level count) VK_SUCCESS]) (n + 1)
         (<[n := RCommandBuffer pool Initial []]> r) p h).
Proof. unfold vkAllocateCommandBuffers, native, consult. cbn [oracle]. rewrite Ho. reflexivity. Qed.

Lemma vkBeginCommandBuffer_success cb flags pool st cmds :
  r !! cb = Some (RCommandBuffer pool st cmds) ->
  vkBeginCommandBuffer cb flags (mkWorld o t n r p h) =
    Returned (VK_SUCCESS, tt)
      (mkWorld o (t ++ [Called (VkBeginCommandBuffer cb flags) VK_SUCCESS]) n
         (<[cb := RCommandBuffer pool Recording []]> r) p h).
Proof.
  intros Hcb. unfold vkBeginCommandBuffer, native, consult. cbn [oracle]. rewrite Ho.
  cbn. rewrite Hcb. reflexivity.
Qed.

Lemma vkCmdCopyBuffer_recording cb src dst region pool cmds :
  r !! cb = Some (RCommandBuffer pool Recording cmds) ->
  vkCmdCopyBuffer cb src dst region (mkWorld o t n r p h) =
    Returned tt
      (mkWorld o (t ++ [Did (VkCmdCopyBuffer cb src dst region)]) n
         (<[cb := RCommandBuffer pool Recording (cmds ++ [CmdCopyBuffer src dst region])]> r)
         p h).
Proof.
  intros Hcb. unfold vkCmdCopyBuffer, native. cbn. rewrite Hcb. reflexivity.
Qed.

Lemma vkEndCommandBuffer_success cb pool cmds :
  r !! cb = Some (RCommandBuffer pool Recording cmds) ->
  vkEndCommandBuffer cb (mkWorld o t n r p h) =
    Returned (VK_SUCCESS, tt)
      (mkWorld o (t ++ [Called (VkEndCommandBuffer cb) VK_SUCCESS]) n
         (<[cb := RCommandBuffer pool Executable cmds]> r) p h).
Proof.
  intros Hcb. unfold vkEndCommandBuffer, native, consult. cbn [oracle]. rewrite Ho.
  cbn. rewrite Hcb. reflexivity.
Qed.

Lemma vkQueueSubmit_success queue cb fence pool cmds :
  r !! cb = Some (RCommandBuffer pool Executable cmds) ->
  vkQueueSubmit queue cb fence (mkWorld o t n r p h) =
    Returned (VK_SUCCESS, tt)
      (mkWorld o (t ++ [Called (VkQueueSubmit queue cb fence) VK_SUCCESS]) n r
         (p ++ ((fun c => (queue, c)) <$> cmds)) h).
Proof.
  intros Hcb. unfold vkQueueSubmit, native, consult. cbn [oracle]. rewrite Ho.
  cbn. rewrite Hcb. reflexivity.
Qed.

Lemma vkQueueWaitIdle_success queue :
  vkQueueWaitIdle queue (mkWorld o t n r p h) =
    Returned (VK_SUCCESS, tt)
      (mkWorld o (t ++ [Called (VkQueueWaitIdle queue) VK_SUCCESS]) n
         (execute_all (snd <$> filter (fun qc => fst qc = queue) p) r)
         (filter (fun qc => fst qc <> queue) p) h).
Proof. unfold vkQueueWaitIdle, native, consult. cbn [oracle]. rewrite Ho. reflexivity. Qed.

End Success.

Lemma vkFreeCommandBuffers_run pool cb o t n r p h :
  vkFreeCommandBuffers pool cb (mkWorld o t n r p h) =
    Returned tt (mkWorld o (t ++ [Did (VkFreeCommandBuffers pool cb)]) n (delete cb r) p h).
Proof. reflexivity. Qed.


(** ** Lists *)

Lemma filter_other_queue (queue : Z) (l : list (Z * Command)) :
  (forall qc, qc ∈ l -> fst qc <> queue) ->
  filter (fun qc => fst qc = queue) l = [] /\ filter (fun qc => fst qc <> queue) l = l.
Proof.
  induction l as [| x l IH]; intros Hl; [done |].
  assert (Hx : fst x <> queue) by (apply Hl; left).
  destruct IH as [IH1 IH2]; [intros qc Hqc; apply Hl; by right |].
  split.
  - rewrite filter_cons_False by (intros ?; contradiction). exact IH1.
  - rewrite filter_cons_True by exact Hx. by rewrite IH2.
Qed.


(** ** Handle tables *)

Ltac lookup :=
  repeat match goal with
  | |- context [ <[?k := _]> _ !! ?k ] => rewrite lookup_insert_eq
  | |- context [ delete ?k _ !! ?k ] => rewrite lookup_delete_eq
  | |- context [ <[?k := _]> _ !! ?k' ] =>
      first [ rewrite (lookup_insert_ne _ k k') by lia
            | replace k' with k by lia; rewrite lookup_insert_eq ]
  | |- context [ delete ?k _ !! ?k' ] =>
      first [ rewrite (lookup_delete_ne _ k k') by lia
            | replace k' with k by lia; rewrite lookup_delete_eq ]
  end; try reflexivity.

(** ** Device Allocator *)

Module DeviceAllocatorProps.
Import DeviceAllocator.

Lemma execute_copy (res : gmap Z Resource) src dst region i1 ms i2 md a1 from a2 to :
  res !! src = Some (RBuffer i1 ms) ->
  res !! dst = Some (RBuffer i2 md) ->
  res !! ms = Some (RAllocation a1 from) ->
  res !! md = Some (RAllocation a2 to) ->
  execute (CmdCopyBuffer src dst region) res =
    <[md := RAllocation a2
              (splice (Z.to_nat (dstOffset region))
                 (take (Z.to_nat (copy_size region)) (drop (Z.to_nat (srcOffset region)) from))
                 to)]> res.
Proof. intros Hs Hd Hms Hmd. unfold execute. by rewrite Hs, Hd, Hms, Hmd. Qed.

(** A failed creation ends [allocateBuffer]: the sibling of the unchecked
    call in [allocateDeviceLocalBufferAndTransfer]. *)
Lemma allocateBuffer_failure_aborts size usage properties allocFlags w :
  let call := VmaCreateBuffer
                (mkBufferInfo size (Z.lor VK_BUFFER_USAGE_TRANSFER_DST_BIT usage)
                              VK_SHARING_MODE_EXCLUSIVE)
                (mkAllocInfo VMA_MEMORY_USAGE_AUTO properties allocFlags) in
  let r := oracle w (length (trace w)) call in
  is_success r = false ->
  allocateBuffer size usage properties allocFlags w = Aborted r (log (Called call r) w).
Proof.
  intros call r Hr. unfold allocateBuffer, VK_ASSERT, vmaCreateBuffer, native, consult.
  cbv beta iota zeta. fold call. fold r.
  rewrite Hr. cbv beta iota zeta. rewrite Hr. reflexivity.
Qed.

(** C7. For every size, usage, memory properties and allocation flags,
    [allocateBuffer] makes exactly one native call, [vmaCreateBuffer], whose
    buffer usage is the requested usage OR-ed with the transfer-destination
    bit; that bit is therefore set, and a buffer the function returns carries
    this usage, whether or not the caller asked for transfer-destination. *)
Theorem C7_allocateBuffer_adds_transfer_dst (size usage properties allocFlags : Z) (w : World) :
  let info := mkBufferInfo size (Z.lor VK_BUFFER_USAGE_TRANSFER_DST_BIT usage)
                           VK_SHARING_MODE_EXCLUSIVE in
  let ainfo := mkAllocInfo VMA_MEMORY_USAGE_AUTO properties allocFlags in
  let out := allocateBuffer size usage properties allocFlags w in
  (exists r, trace (world_of out) = trace w ++ [Called (VmaCreateBuffer info ainfo) r]) /\
  has_flag (bi_usage info) VK_BUFFER_USAGE_TRANSFER_DST_BIT = true /\
  (forall b a w', out = Returned (b, a) w' -> buffer_info w' b = Some info) /\
  (oracle w (length (trace w)) (VmaCreateBuffer info ainfo) = VK_SUCCESS ->
     returned out = true).
Proof.
  intros info ainfo out.
  assert (Hflag : has_flag (bi_usage info) VK_BUFFER_USAGE_TRANSFER_DST_BIT = true)
    by (apply has_flag_lor_l; discriminate).
  subst out. unfold allocateBuffer, VK_ASSERT, vmaCreateBuffer, native, consult.
  fold info ainfo.
  destruct (oracle w (length (trace w)) (VmaCreateBuffer info ainfo)) eqn:Hr; simpl;
    (split; [eauto | split; [exact Hflag | split; [| done]]]);
    intros b a w' Hout; try discriminate.
  inversion Hout; subst. unfold buffer_info; simpl.
  by rewrite lookup_insert_eq.
Qed.

(** The case of C7 a caller meets when the allocator has memory to give. *)
Lemma C7_witness :
  exists w', allocateBuffer 3 VK_BUFFER_USAGE_VERTEX_BUFFER_BIT
               VK_MEMORY_PROPERTY_DEVICE_LOCAL_BIT 0 (boot always_succeeds)
             = Returned (1, 2) w' /\
             buffer_info w' 1 = Some (mkBufferInfo 3 130 VK_SHARING_MODE_EXCLUSIVE).
Proof.
  eexists. split; [reflexivity |].
  refine (proj1 (proj2 (proj2
    (C7_allocateBuffer_adds_transfer_dst 3 VK_BUFFER_USAGE_VERTEX_BUFFER_BIT
       VK_MEMORY_PROPERTY_DEVICE_LOCAL_BIT 0 (boot always_succeeds)))) 1 2 _ _).
  reflexivity.
Defined.

Lemma wait_idle_runs_submission (queue : Z) (p : list (Z * Command)) (c : Command) :
  (forall qc, qc ∈ p -> fst qc <> queue) ->
  snd <$> filter (fun qc => fst qc = queue) (p ++ ((fun c => (queue, c)) <$> ([] ++ [c]))) = [c] /\
  filter (fun qc => fst qc <> queue) (p ++ ((fun c => (queue, c)) <$> ([] ++ [c]))) = p.
Proof.
  intros Hp. destruct (filter_other_queue _ _ Hp) as [Hmine Hrest].
  rewrite !filter_app, Hmine, Hrest. cbn [app fmap list_fmap].
  rewrite filter_cons_True by reflexivity.
  rewrite filter_cons_False by (intros Hne; by apply Hne).
  rewrite !filter_nil. split; [reflexivity | apply app_nil_r].
Qed.




(** *** Which failures end the call *)

Lemma ret_in_order {A} (a : A) : returns_in_order (ret a).
Proof.
  intros w a' w' Hrun. inversion Hrun; subst. exists []. by rewrite app_nil_r.
Qed.

Lemma bind_in_order {A B} (m : M A) (k : A -> M B) :
  returns_in_order m -> (forall a, returns_in_order (k a)) -> returns_in_order (bind m k).
Proof.
  intros Hm Hk w b w2 Hrun. unfold bind in Hrun.
  destruct (m w) as [a w1 | r w1] eqn:Hmw; [| discriminate].
  destruct (Hm _ _ _ Hmw) as (es1 & Ht1 & Hes1).
  destruct (Hk a _ _ _ Hrun) as (es2 & Ht2 & Hes2).
  exists (es1 ++ es2). split.
  - by rewrite Ht2, Ht1, app_assoc.
  - by apply Forall_app.
Qed.

Ltac one_call :=
  intros w a w';
  unfold VK_ASSERT, vmaCreateBuffer, vmaCopyMemoryToAllocation, vkAllocateCommandBuffers,
    vkBeginCommandBuffer, vkCmdCopyBuffer, vkEndCommandBuffer, vkQueueSubmit,
    vkQueueWaitIdle, vkFreeCommandBuffers, vmaDestroyBuffer, native, consult;
  cbv beta iota zeta;
  try match goal with
      | |- context [oracle ?w ?n ?c] => destruct (oracle w n c) eqn:?
      end;
  cbn [is_success]; repeat case_match; simplify_eq;
  intros Hrun; inversion Hrun; subst; cbn;
  (eexists [_]; split; [reflexivity | by repeat constructor]).

Lemma allocateBuffer_in_order size usage properties allocFlags :
  returns_in_order (allocateBuffer size usage properties allocFlags).
Proof. unfold allocateBuffer. one_call. Qed.

Lemma copyBuffer_in_order this src dst size :
  returns_in_order (copyBuffer this src dst size).
Proof.
  unfold copyBuffer.
  apply bind_in_order; [one_call | intros cb].
  apply bind_in_order; [one_call | intros _].
  apply bind_in_order; [one_call | intros _].
  apply bind_in_order; [one_call | intros _].
  apply bind_in_order; [one_call | intros _].
  apply bind_in_order; [one_call | intros _].
  one_call.
Qed.

(** Every native failure but that of the staging write ends the call: when
    [allocateDeviceLocalBufferAndTransfer] returns, no call it made has
    failed, the staging write possibly excepted. *)
Lemma only_staging_write_unchecked defaultAllocFlags this data size usage :
  returns_in_order (allocateDeviceLocalBufferAndTransfer defaultAllocFlags this data size usage).
Proof.
  unfold allocateDeviceLocalBufferAndTransfer.
  apply bind_in_order; [apply allocateBuffer_in_order | intros destinationBuf].
  apply bind_in_order; [apply allocateBuffer_in_order | intros stagingBuf].
  apply bind_in_order; [one_call | intros _].
  apply bind_in_order; [apply copyBuffer_in_order | intros _].
  apply bind_in_order; [one_call | intros _].
  apply ret_in_order.
Qed.

(** A failed creation of the destination buffer ends the whole call. *)
Lemma failed_creation_ends_the_call defaultAllocFlags this data size usage w :
  let call := VmaCreateBuffer
                (mkBufferInfo size
                   (Z.lor VK_BUFFER_USAGE_TRANSFER_DST_BIT
                          (Z.lor usage VK_BUFFER_USAGE_TRANSFER_DST_BIT))
                   VK_SHARING_MODE_EXCLUSIVE)
                (mkAllocInfo VMA_MEMORY_USAGE_AUTO VK_MEMORY_PROPERTY_DEVICE_LOCAL_BIT
                             defaultAllocFlags) in
  let r := oracle w (length (trace w)) call in
  is_success r = false ->
  allocateDeviceLocalBufferAndTransfer defaultAllocFlags this data size usage w
  = Aborted r (log (Called call r) w).
Proof.
  intros call r Hr. unfold allocateDeviceLocalBufferAndTransfer.
  apply bind_aborted. by apply allocateBuffer_failure_aborts.
Qed.

(** C4 at the failing input.  The staging write reports
    [VK_ERROR_MEMORY_MAP_FAILED]; the function nevertheless runs to its end and
    returns the destination buffer, none of whose bytes was written. *)
Theorem C4_failed_staging_write_goes_unnoticed :
  exists w',
    allocateDeviceLocalBufferAndTransfer 0 sample payload 3 VK_BUFFER_USAGE_VERTEX_BUFFER_BIT
      (boot map_fails) = Returned (1, 2) w' /\
    trace w' !! 2%nat
      = Some (Called (VmaCopyMemoryToAllocation 4 0 3) VK_ERROR_MEMORY_MAP_FAILED) /\
    length (trace w') = 11%nat /\
    contents w' 1 = Some [None; None; None] /\
    contents w' 1 <> Some (Some <$> payload).
Proof.
  eexists. split; [vm_compute; reflexivity |].
  repeat split; try (vm_compute; reflexivity).
  vm_compute. discriminate.
Qed.


End DeviceAllocatorProps.

(** ** Device Allocator: the transfer, call by call *)

Module DeviceAllocatorCalls.
Import DeviceAllocator.




(** *** Each call, whatever the device answers *)

Section Steps.

Variable o : nat -> FallibleCall -> VkResult.
Variables (t : list Event) (n : Z) (r : gmap Z Resource) (p : list (Z * Command))
          (h : gmap Z Object).








End Steps.

(** *** Work that was pending before *)






(** *** The transfer *)









(** The condition on the device cannot be dropped: a copy recorded against
    the handle the staging buffer is going to get overwrites the staged bytes
    before they are copied, and the payload is lost. *)
Example inconsistent_device_loses_the_payload :
  let w := mkWorld always_succeeds [] 1 ∅ [(105, CmdCopyBuffer 1 3 (mkBufferCopy 0 0 3))] ∅ in
  ~ device_consistent sample w /\
  exists w',
    allocateDeviceLocalBufferAndTransfer 0 sample payload 3 VK_BUFFER_USAGE_VERTEX_BUFFER_BIT w
    = Returned (1, 2) w' /\
    contents w' 1 = Some [None; None; None].
Proof.
  split.
  - intros [Hpending _]. specialize (Hpending 1 3 (mkBufferCopy 0 0 3)).
    cbn in Hpending. specialize (Hpending ltac:(left)). lia.
  - eexists. split; vm_compute; reflexivity.
Qed.

End DeviceAllocatorCalls.

(** ** Material parameters *)

Module MaterialProps.
Import Material.

(** C8. In [Material::Parameters] the members lie at offsets 0, 12, 16, 28
    and 32: [ambient] at 0, [diffuse] at 16 and [specularAndShininess] at 32,
    each a multiple of 16, with [pad1] and [pad2] filling the four bytes after
    each three-component vector.  These are the offsets at which a std140
    uniform block holding the three vectors in the same order reads them. *)
Theorem C8_parameters_layout :
  offsetof ambient = Some 0 /\
  offsetof diffuse = Some 16 /\
  offsetof specularAndShininess = Some 32 /\
  offsetof pad1 = Some 12 /\
  offsetof pad2 = Some 28 /\
  Forall (fun m => exists o, offsetof (fst m) = Some o /\ o mod 16 = 0 /\
                             shader_offset (fst m) = Some o)
         (List.filter (fun m => is_vector (snd m)) Parameters) /\
  fst <$> List.filter (fun m => is_vector (snd m)) Parameters = fst <$> uniform_block.
Proof.
  repeat split; try reflexivity.
  repeat constructor; eexists; repeat split; reflexivity.
Qed.

End MaterialProps.

(** ** Frame: construction, move and teardown *)

Module FrameLifecycle.
Import Frame.

Lemma bind_returned_inv {A B} (m : M A) (k : A -> M B) w b w2 :
  bind m k w = Returned b w2 ->
  exists a w1, m w = Returned a w1 /\ k a w1 = Returned b w2.
Proof.
  unfold bind. destruct (m w) as [a w1 | r w1]; [eauto | discriminate].
Qed.

Lemma assert_returned_inv {A} (call : M (VkResult * A)) w a w' :
  VK_ASSERT call w = Returned a w' -> call w = Returned (VK_SUCCESS, a) w'.
Proof.
  unfold VK_ASSERT. destruct (call w) as [[r a'] w1 | r w1]; [| discriminate].
  destruct r; simpl; intros Heq; inversion Heq; reflexivity.
Qed.

Lemma vkCreateFence_inv flags w h w' :
  vkCreateFence flags w = Returned (VK_SUCCESS, h) w' ->
  resources w' !! h = Some (RFence (has_flag flags VK_FENCE_CREATE_SIGNALED_BIT)) /\
  last (trace w') = Some (Called (VkCreateFence flags) VK_SUCCESS).
Proof.
  unfold vkCreateFence, native, consult.
  destruct (oracle w (length (trace w)) (VkCreateFence flags)); simpl;
    intros Heq; inversion Heq; subst; simpl.
  split; [apply lookup_insert_eq | apply last_snoc].
Qed.

Section Success.

Variable o : nat -> FallibleCall -> VkResult.
Hypothesis Ho : forall n c, o n c = VK_SUCCESS.
Variables (t : list Event) (n : Z) (r : gmap Z Resource) (p : list (Z * Command))
          (h : gmap Z Object).

Lemma vkCreateCommandPool_success flags qfi :
  vkCreateCommandPool flags qfi (mkWorld o t n r p h) =
    Returned (VK_SUCCESS, n)
      (mkWorld o (t ++ [Called (VkCreateCommandPool flags qfi) VK_SUCCESS]) (n + 1)
         (<[n := RCommandPool flags qfi]> r) p h).
Proof. unfold vkCreateCommandPool, native, consult. cbn [oracle]. rewrite Ho. reflexivity. Qed.

Lemma vkCreateSemaphore_success :
  vkCreateSemaphore (mkWorld o t n r p h) =
    Returned (VK_SUCCESS, n)
      (mkWorld o (t ++ [Called VkCreateSemaphore VK_SUCCESS]) (n + 1)
         (<[n := RSemaphore]> r) p h).
Proof. unfold vkCreateSemaphore, native, consult. cbn [oracle]. rewrite Ho. reflexivity. Qed.

Lemma vkCreateFence_success flags :
  vkCreateFence flags (mkWorld o t n r p h) =
    Returned (VK_SUCCESS, n)
      (mkWorld o (t ++ [Called (VkCreateFence flags) VK_SUCCESS]) (n + 1)
         (<[n := RFence (has_flag flags VK_FENCE_CREATE_SIGNALED_BIT)]> r) p h).
Proof. unfold vkCreateFence, native, consult. cbn [oracle]. rewrite Ho. reflexivity. Qed.

End Success.

(** With a device that has room for them, the constructor makes its five
    objects and returns. *)
Lemma create_returns device qfi w :
  all_succeed w -> exists f w', create device qfi w = Returned f w'.
Proof.
  destruct w as [o t n r p h]. intros Ho. unfold all_succeed in Ho. cbn [oracle] in Ho.
  unfold create. eexists. eexists.
  eapply bind_run; [apply assert_success, vkCreateCommandPool_success, Ho |].
  eapply bind_run; [apply assert_success, vkAllocateCommandBuffers_success, Ho |].
  eapply bind_run; [apply assert_success, vkCreateSemaphore_success, Ho |].
  eapply bind_run; [apply assert_success, vkCreateSemaphore_success, Ho |].
  eapply bind_run; [apply assert_success, vkCreateFence_success, Ho |].
  reflexivity.
Qed.

(** C9.  Whenever the constructor returns a Frame, the last native call it
    made is [vkCreateFence] with the signaled bit, the Frame's fence is a live
    fence in the signaled state, and a wait on it returns at once.  On a
    device on which every call succeeds the constructor does return. *)
Theorem C9_fence_created_signaled (device qfi : Z) (w : World) :
  (forall f w', create device qfi w = Returned f w' ->
     last (trace w') = Some (Called (VkCreateFence VK_FENCE_CREATE_SIGNALED_BIT) VK_SUCCESS) /\
     has_flag VK_FENCE_CREATE_SIGNALED_BIT VK_FENCE_CREATE_SIGNALED_BIT = true /\
     resources w' !! fence f = Some (RFence true) /\
     wait_for_fence w' (fence f) = ReturnsAtOnce) /\
  (all_succeed w -> exists f w', create device qfi w = Returned f w').
Proof.
  split; [| apply create_returns].
  intros f w' Hrun. unfold create in Hrun.
  apply bind_returned_inv in Hrun as (cp & w1 & _ & Hrun).
  apply bind_returned_inv in Hrun as (cb & w2 & _ & Hrun).
  apply bind_returned_inv in Hrun as (ia & w3 & _ & Hrun).
  apply bind_returned_inv in Hrun as (rf & w4 & _ & Hrun).
  apply bind_returned_inv in Hrun as (fc & w5 & Hfence & Hrun).
  apply assert_returned_inv, vkCreateFence_inv in Hfence as [Hres Hlast].
  inversion Hrun; subst f w'. cbn [fence].
  unfold wait_for_fence. rewrite Hres. repeat split; done.
Qed.

(** The first Frame of a run. *)
Lemma C9_witness :
  exists f w',
    create 103 0 (DeviceAllocator.boot DeviceAllocator.always_succeeds) = Returned f w' /\
    fence f = 5 /\ wait_for_fence w' (fence f) = ReturnsAtOnce.
Proof.
  eexists. eexists. split; [vm_compute; reflexivity |].
  split; [reflexivity |].
  apply (proj1 (C9_fence_created_signaled 103 0
                  (DeviceAllocator.boot DeviceAllocator.always_succeeds))).
  vm_compute. reflexivity.
Defined.

Lemma reset_run (a : Z) o t n r p h :
  reset a (mkWorld o t n r p h) =
    Returned tt (mkWorld o (t ++ [Delete a]) n r p (delete a h)).
Proof. reflexivity. Qed.

Lemma vkDestroyFence_run (fence : Z) o t n r p h :
  vkDestroyFence fence (mkWorld o t n r p h) =
    Returned tt (mkWorld o (t ++ [Did (VkDestroyFence fence)]) n (release fence r) p h).
Proof. reflexivity. Qed.

Lemma vkDestroySemaphore_run (semaphore : Z) o t n r p h :
  vkDestroySemaphore semaphore (mkWorld o t n r p h) =
    Returned tt (mkWorld o (t ++ [Did (VkDestroySemaphore semaphore)]) n
                   (release semaphore r) p h).
Proof. reflexivity. Qed.

Lemma vkDestroyCommandPool_run (pool : Z) o t n r p h :
  vkDestroyCommandPool pool (mkWorld o t n r p h) =
    Returned tt (mkWorld o (t ++ [Did (VkDestroyCommandPool pool)]) n
                   (release_pool pool r) p h).
Proof. reflexivity. Qed.

Lemma for_each_reset_run (l : list Z) o t n r p h :
  for_each reset l (mkWorld o t n r p h) =
    Returned tt (mkWorld o (t ++ (Delete <$> l)) n r p
                   (fold_left (fun hp a => delete a hp) l h)).
Proof.
  revert t h. induction l as [| a l IH]; intros t h.
  - cbn. by rewrite app_nil_r.
  - cbn [for_each]. eapply bind_run; [apply reset_run |].
    rewrite IH. cbn [fmap list_fmap fold_left]. by rewrite <- app_assoc.
Qed.

Lemma lookup_fold_delete (l : list Z) (h : gmap Z Object) (a : Z) :
  fold_left (fun hp b => delete b hp) l h !! a = if decide (a ∈ l) then None else h !! a.
Proof.
  revert h. induction l as [| b l IH]; intros h; cbn [fold_left].
  - rewrite decide_False by apply not_elem_of_nil. reflexivity.
  - rewrite IH. destruct (decide (a = b)) as [-> | Hne].
    + rewrite (decide_True (P := b ∈ b :: l)) by left.
      case_decide; [reflexivity | apply lookup_delete_eq].
    + rewrite lookup_delete_ne by congruence.
      destruct (decide (a ∈ l)) as [Hin | Hout].
      * rewrite decide_True by (by right). reflexivity.
      * rewrite decide_False; [reflexivity |].
        intros Hin. apply elem_of_cons in Hin as [? | ?]; contradiction.
Qed.

Lemma cached_complete (cache : gmap Z (gmap Z Z)) (i h a : Z) :
  lookup2 cache i h = Some a -> a ∈ cached cache.
Proof.
  unfold lookup2, cached. intros Hl.
  destruct (cache !! i) as [m |] eqn:Hm; [| discriminate]. cbn in Hl.
  apply list_elem_of_bind. exists (i, m). split.
  - apply list_elem_of_fmap. exists (h, a). split; [reflexivity |].
    by apply elem_of_map_to_list.
  - by apply elem_of_map_to_list.
Qed.

Lemma destroy_run (f : t) o tr n r p h :
  destroy f (mkWorld o tr n r p h) =
    Returned tt
      (mkWorld o
         (tr ++ (Delete <$> cached (descriptorSets f)) ++
                (Delete <$> cached (descriptorPools f)) ++
                [ Did (VkDestroyFence (fence f));
                  Did (VkDestroySemaphore (renderFinishedSemaphore f));
                  Did (VkDestroySemaphore (imageAvailableSemaphore f));
                  Did (VkDestroyCommandPool (commandPool f)) ])
         n
         (release_pool (commandPool f)
            (release (imageAvailableSemaphore f)
               (release (renderFinishedSemaphore f) (release (fence f) r))))
         p
         (fold_left (fun hp a => delete a hp) (cached (descriptorPools f))
            (fold_left (fun hp a => delete a hp) (cached (descriptorSets f)) h))).
Proof.
  unfold destroy.
  eapply bind_run; [apply for_each_reset_run |].
  eapply bind_run; [apply for_each_reset_run |].
  eapply bind_run; [apply vkDestroyFence_run |].
  eapply bind_run; [apply vkDestroySemaphore_run |].
  eapply bind_run; [apply vkDestroySemaphore_run |].
  rewrite vkDestroyCommandPool_run.
  by rewrite <- !app_assoc.
Qed.

(** C6.  The destructor always runs to its end, and what it does, in order,
    is: release every cached descriptor set, release every cached descriptor
    pool, destroy the fence, the render-finished semaphore, the
    image-available semaphore and the command pool.  Every object found in
    either cache is among those released, and none of them is left on the
    free store. *)
Theorem C6_teardown_order (f : t) (w : World) :
  exists w',
    destroy f w = Returned tt w' /\
    trace w' = trace w ++
      (Delete <$> cached (descriptorSets f)) ++
      (Delete <$> cached (descriptorPools f)) ++
      [ Did (VkDestroyFence (fence f));
        Did (VkDestroySemaphore (renderFinishedSemaphore f));
        Did (VkDestroySemaphore (imageAvailableSemaphore f));
        Did (VkDestroyCommandPool (commandPool f)) ] /\
    (forall i h a, lookup2 (descriptorSets f) i h = Some a ->
       a ∈ cached (descriptorSets f) /\ heap w' !! a = None) /\
    (forall i h a, lookup2 (descriptorPools f) i h = Some a ->
       a ∈ cached (descriptorPools f) /\ heap w' !! a = None).
Proof.
  destruct w as [o tr n r p h]. eexists. split; [apply destroy_run |].
  cbn [trace heap]. split; [reflexivity |].
  split; intros i k a Hl; apply cached_complete in Hl; (split; [exact Hl |]).
  - rewrite lookup_fold_delete. case_decide; [reflexivity |].
    rewrite lookup_fold_delete. by rewrite decide_True.
  - rewrite lookup_fold_delete. by rewrite decide_True.
Qed.

(** Teardown of a Frame with three sets and two pools in two slots. *)
Lemma C6_witness :
  exists w',
    destroy busy_frame busy_world = Returned tt w' /\
    trace w' = [ Delete 31; Delete 22; Delete 21; Delete 30; Delete 20;
                 Did (VkDestroyFence 15); Did (VkDestroySemaphore 14);
                 Did (VkDestroySemaphore 13); Did (VkDestroyCommandPool 11) ] /\
    heap w' !! 21 = None.
Proof.
  destruct (C6_teardown_order busy_frame busy_world) as (w' & Hrun & Htrace & Hsets & _).
  exists w'. split; [exact Hrun |]. split.
  - rewrite Htrace. vm_compute. reflexivity.
  - apply (Hsets 0 8 21). vm_compute. reflexivity.
Defined.

(** C10.  After the move constructor the moved-from Frame holds
    [VK_NULL_HANDLE] in its command pool, command buffer, fence and both
    semaphores, and the new Frame holds the handles the old one had.
    Destroying the moved-from Frame then runs to its end and leaves the table
    of live device handles exactly as it was: nothing the new Frame owns is
    destroyed.  The new Frame starts with empty caches, so the cached objects
    the destructor releases are none of its own. *)
Theorem C10_moved_from_frame_destroys_nothing (other : t) (w : World) :
  let new := fst (move other) in
  let old := snd (move other) in
  (commandPool old = VK_NULL_HANDLE /\ commandBuffer old = VK_NULL_HANDLE /\
   fence old = VK_NULL_HANDLE /\ imageAvailableSemaphore old = VK_NULL_HANDLE /\
   renderFinishedSemaphore old = VK_NULL_HANDLE) /\
  (commandPool new = commandPool other /\ commandBuffer new = commandBuffer other /\
   fence new = fence other /\
   imageAvailableSemaphore new = imageAvailableSemaphore other /\
   renderFinishedSemaphore new = renderFinishedSemaphore other /\
   device new = device other) /\
  (cached (descriptorSets new) = [] /\ cached (descriptorPools new) = []) /\
  exists w',
    destroy old w = Returned tt w' /\
    trace w' = trace w ++
      (Delete <$> cached (descriptorSets other)) ++
      (Delete <$> cached (descriptorPools other)) ++
      [ Did (VkDestroyFence VK_NULL_HANDLE); Did (VkDestroySemaphore VK_NULL_HANDLE);
        Did (VkDestroySemaphore VK_NULL_HANDLE); Did (VkDestroyCommandPool VK_NULL_HANDLE) ] /\
    resources w' = resources w /\
    wait_for_fence w' (fence new) = wait_for_fence w (fence new).
Proof.
  intros new old. repeat split.
  destruct w as [o tr n r p h]. eexists. split; [apply destroy_run |].
  repeat split.
Qed.

(** A Frame is made, moved, and the moved-from Frame destroyed: the fence of
    the new Frame is still there, and still signaled. *)
Example move_then_destroy :
  exists f w1 w2,
    create 103 0 (DeviceAllocator.boot DeviceAllocator.always_succeeds) = Returned f w1 /\
    destroy (snd (move f)) w1 = Returned tt w2 /\
    wait_for_fence w2 (fence (fst (move f))) = ReturnsAtOnce /\
    resources w2 !! commandPool (fst (move f)) =
      Some (RCommandPool VK_COMMAND_POOL_CREATE_RESET_COMMAND_BUFFER_BIT 0).
Proof.
  do 3 eexists. split; [vm_compute; reflexivity |].
  split; [vm_compute; reflexivity |]. split; vm_compute; reflexivity.
Qed.

End FrameLifecycle.

(** ** Frame: the descriptor caches *)

Module FrameCache.
Import Frame.

Lemma lookup2_default (c : gmap Z (gmap Z Z)) (i h : Z) :
  default ∅ (c !! i) !! h = lookup2 c i h.
Proof. unfold lookup2. destruct (c !! i); [reflexivity | apply lookup_empty]. Qed.

Lemma lookup2_touch (c : gmap Z (gmap Z Z)) (i j h : Z) :
  lookup2 (<[i := default ∅ (c !! i)]> c) j h = lookup2 c j h.
Proof.
  unfold lookup2 at 1. destruct (decide (i = j)) as [-> | Hne].
  - rewrite lookup_insert_eq. apply lookup2_default.
  - rewrite lookup_insert_ne by exact Hne. reflexivity.
Qed.

Lemma lookup2_emplace (c : gmap Z (gmap Z Z)) (i h a j k : Z) :
  lookup2 (<[i := <[h := a]> (default ∅ (c !! i))]> c) j k =
    if decide (j = i /\ k = h) then Some a else lookup2 c j k.
Proof.
  unfold lookup2 at 1. destruct (decide (i = j)) as [-> | Hne].
  - rewrite lookup_insert_eq. cbn. destruct (decide (h = k)) as [-> | Hk].
    + rewrite lookup_insert_eq. by rewrite decide_True.
    + rewrite lookup_insert_ne by exact Hk. rewrite lookup2_default.
      rewrite decide_False; [reflexivity | intros [_ ?]; congruence].
  - rewrite lookup_insert_ne by exact Hne.
    rewrite decide_False; [reflexivity | intros [? _]; congruence].
Qed.

Section Cache.

Variable hasher : Hasher.

(** *** The two branches of each lookup *)

Lemma getDescriptorPool_hit i l f w pool :
  entry f Pool i (hash_value hasher l) = Some pool ->
  getDescriptorPool hasher i l f w =
    (pool,
     set_descriptorPools
       (<[i := default ∅ (descriptorPools f !! i)]> (descriptorPools f)) f,
     w).
Proof.
  unfold entry, cache_of. rewrite <- lookup2_default. intros Hhit.
  unfold getDescriptorPool. by rewrite Hhit.
Qed.

Lemma getDescriptorPool_miss i l f w :
  entry f Pool i (hash_value hasher l) = None ->
  getDescriptorPool hasher i l f w =
    (next_handle w,
     set_descriptorPools
       (<[i := <[hash_value hasher l := next_handle w]> (default ∅ (descriptorPools f !! i))]>
          (descriptorPools f)) f,
     snd (make_unique (ODescriptorPool (device f) l) w)).
Proof.
  unfold entry, cache_of. rewrite <- lookup2_default. intros Hmiss.
  unfold getDescriptorPool. by rewrite Hmiss.
Qed.

Lemma getDescriptorSet_hit i l bs ims f w set :
  entry f DSet i (set_hash hasher l bs ims) = Some set ->
  getDescriptorSet hasher i l bs ims f w =
    (set,
     set_descriptorSets
       (<[i := default ∅ (descriptorSets f !! i)]> (descriptorSets f)) f,
     w).
Proof.
  unfold entry, cache_of. rewrite <- lookup2_default. intros Hhit.
  unfold getDescriptorSet. by rewrite Hhit.
Qed.

Lemma getDescriptorSet_miss i l bs ims f w :
  entry f DSet i (set_hash hasher l bs ims) = None ->
  let f1 := set_descriptorSets
              (<[i := default ∅ (descriptorSets f !! i)]> (descriptorSets f)) f in
  let r := getDescriptorPool hasher i l f1 w in
  let w2 := world_after r in
  getDescriptorSet hasher i l bs ims f w =
    (next_handle w2,
     set_descriptorSets
       (<[i := <[set_hash hasher l bs ims := next_handle w2]>
                 (default ∅ (descriptorSets f !! i))]> (descriptorSets (frame_of r)))
       (frame_of r),
     snd (make_unique (ODescriptorSet (device f) (result_of r) bs ims) w2)).
Proof.
  intros Hmiss f1 r w2. unfold entry, cache_of in Hmiss.
  rewrite <- lookup2_default in Hmiss.
  unfold getDescriptorSet. rewrite Hmiss. fold f1.
  subst w2. unfold world_after, frame_of, result_of.
  destruct r as [[pool f2] w2'] eqn:Hr. subst r. rewrite Hr. reflexivity.
Qed.

(** *** Entries after an operation *)

Lemma entry_touch_pools f i k j h :
  entry (set_descriptorPools
           (<[i := default ∅ (descriptorPools f !! i)]> (descriptorPools f)) f) k j h
  = entry f k j h.
Proof. destruct k; unfold entry; cbn; [apply lookup2_touch | reflexivity]. Qed.

Lemma entry_touch_sets f i k j h :
  entry (set_descriptorSets
           (<[i := default ∅ (descriptorSets f !! i)]> (descriptorSets f)) f) k j h
  = entry f k j h.
Proof. destruct k; unfold entry; cbn; [reflexivity | apply lookup2_touch]. Qed.

Lemma entry_emplace_pool f i hv a k j h :
  entry (set_descriptorPools
           (<[i := <[hv := a]> (default ∅ (descriptorPools f !! i))]> (descriptorPools f)) f)
        k j h
  = if decide (k = Pool /\ j = i /\ h = hv) then Some a else entry f k j h.
Proof.
  destruct k; unfold entry; cbn.
  - rewrite lookup2_emplace. repeat case_decide; naive_solver.
  - rewrite decide_False; [reflexivity | intros [? _]; discriminate].
Qed.

Lemma entry_emplace_set f i hs a k j h :
  entry (set_descriptorSets
           (<[i := <[hs := a]> (default ∅ (descriptorSets f !! i))]> (descriptorSets f)) f)
        k j h
  = if decide (k = DSet /\ j = i /\ h = hs) then Some a else entry f k j h.
Proof.
  destruct k; unfold entry; cbn.
  - rewrite decide_False; [reflexivity | intros [? _]; discriminate].
  - rewrite lookup2_emplace. repeat case_decide; naive_solver.
Qed.

(** What [getDescriptorPool] yields, by the state of the cache it finds. *)
Lemma getDescriptorPool_spec i l f w :
  let r := getDescriptorPool hasher i l f w in
  descriptorSets (frame_of r) = descriptorSets f /\
  device (frame_of r) = device f /\
  match entry f Pool i (hash_value hasher l) with
  | Some pool =>
      result_of r = pool /\ world_after r = w /\
      forall k j h, entry (frame_of r) k j h = entry f k j h
  | None =>
      result_of r = next_handle w /\
      world_after r = snd (make_unique (ODescriptorPool (device f) l) w) /\
      forall k j h, entry (frame_of r) k j h =
                    if decide (k = Pool /\ j = i /\ h = hash_value hasher l)
                    then Some (next_handle w) else entry f k j h
  end.
Proof.
  intros r. subst r.
  destruct (entry f Pool i (hash_value hasher l)) as [pool |] eqn:He.
  - rewrite (getDescriptorPool_hit _ _ _ _ _ He).
    unfold frame_of, result_of, world_after; cbn [fst snd].
    repeat split. intros k j h. apply entry_touch_pools.
  - rewrite (getDescriptorPool_miss _ _ _ _ He).
    unfold frame_of, result_of, world_after; cbn [fst snd].
    repeat split. intros k j h. apply entry_emplace_pool.
Qed.

(** What [getDescriptorSet] yields, by the state of the cache it finds. *)
Lemma getDescriptorSet_spec i l bs ims f w :
  let r := getDescriptorSet hasher i l bs ims f w in
  let rp := getDescriptorPool hasher i l f w in
  match entry f DSet i (set_hash hasher l bs ims) with
  | Some set =>
      result_of r = set /\ world_after r = w /\
      forall k j h, entry (frame_of r) k j h = entry f k j h
  | None =>
      result_of r = next_handle (world_after rp) /\
      world_after r =
        snd (make_unique (ODescriptorSet (device f) (result_of rp) bs ims) (world_after rp)) /\
      forall k j h, entry (frame_of r) k j h =
                    if decide (k = DSet /\ j = i /\ h = set_hash hasher l bs ims)
                    then Some (next_handle (world_after rp)) else entry (frame_of rp) k j h
  end.
Proof.
  intros r rp. subst r.
  destruct (entry f DSet i (set_hash hasher l bs ims)) as [set |] eqn:He.
  - rewrite (getDescriptorSet_hit _ _ _ _ _ _ _ He).
    unfold frame_of, result_of, world_after; cbn [fst snd].
    repeat split. intros k j h. apply entry_touch_sets.
  - rewrite (getDescriptorSet_miss _ _ _ _ _ _ He).
    set (f1 := set_descriptorSets
                 (<[i := default ∅ (descriptorSets f !! i)]> (descriptorSets f)) f).
    assert (Hsame : getDescriptorPool hasher i l f1 w
                    = (result_of rp, set_descriptorSets (descriptorSets f1) (frame_of rp),
                       world_after rp)).
    { subst rp. unfold getDescriptorPool, result_of, frame_of, world_after.
      change (descriptorPools f1) with (descriptorPools f).
      change (device f1) with (device f).
      destruct (default ∅ (descriptorPools f !! i) !! hash_value hasher l); reflexivity. }
    rewrite Hsame. unfold frame_of at 1 2, result_of at 1 2, world_after at 1 2 3.
    cbn [fst snd]. repeat split.
    intros k j h.
    assert (Hsets : descriptorSets (frame_of rp) = descriptorSets f)
      by apply getDescriptorPool_spec.
    set (f2 := frame_of rp) in *.
    replace (set_descriptorSets
               (<[i := <[set_hash hasher l bs ims := next_handle (world_after rp)]>
                         (default ∅ (descriptorSets f !! i))]>
                  (descriptorSets (set_descriptorSets (descriptorSets f1) f2)))
               (set_descriptorSets (descriptorSets f1) f2))
      with (set_descriptorSets
              (<[i := <[set_hash hasher l bs ims := next_handle (world_after rp)]>
                        (default ∅ (descriptorSets f2 !! i))]> (descriptorSets f2)) f2).
    + apply entry_emplace_set.
    + unfold set_descriptorSets; cbn. rewrite Hsets. f_equal.
      subst f1; cbn. by rewrite insert_insert_eq.
Qed.

(** *** The invariant *)

Lemma wf_same f w f' w' :
  (forall k i h, entry f' k i h = entry f k i h) ->
  next_handle w <= next_handle w' ->
  cache_wf f w -> cache_wf f' w'.
Proof.
  intros He Hn [Hold Hinj]. split.
  - intros k i h a Ha. rewrite He in Ha. apply Hold in Ha. lia.
  - intros k i h k' i' h' a Ha Ha'. rewrite He in Ha, Ha'. eauto.
Qed.

Lemma wf_add f w f' w' k0 i0 h0 :
  (forall k i h, entry f' k i h =
                 if decide (k = k0 /\ i = i0 /\ h = h0)
                 then Some (next_handle w) else entry f k i h) ->
  next_handle w < next_handle w' ->
  cache_wf f w -> cache_wf f' w'.
Proof.
  intros He Hn [Hold Hinj]. split.
  - intros k i h a Ha. rewrite He in Ha.
    destruct (decide (k = k0 /\ i = i0 /\ h = h0)) as [_ | _].
    + inversion Ha; subst a. lia.
    + apply Hold in Ha. lia.
  - intros k i h k' i' h' a Ha Ha'. rewrite He in Ha, Ha'.
    destruct (decide (k = k0 /\ i = i0 /\ h = h0)) as [(-> & -> & ->) | Hn1];
      destruct (decide (k' = k0 /\ i' = i0 /\ h' = h0)) as [(-> & -> & ->) | Hn2].
    + done.
    + inversion Ha; subst a. apply Hold in Ha'. lia.
    + inversion Ha'; subst a. apply Hold in Ha. lia.
    + eauto.
Qed.

Lemma next_handle_make_unique o w : next_handle (snd (make_unique o w)) = next_handle w + 1.
Proof. reflexivity. Qed.

Lemma getDescriptorPool_wf i l f w :
  cache_wf f w ->
  cache_wf (frame_of (getDescriptorPool hasher i l f w)) (world_after (getDescriptorPool hasher i l f w)).
Proof.
  intros Hwf. destruct (getDescriptorPool_spec i l f w) as (_ & _ & Hspec).
  destruct (entry f Pool i (hash_value hasher l)) as [pool |].
  - destruct Hspec as (_ & -> & He). by apply (wf_same f w); [| lia |].
  - destruct Hspec as (_ & -> & He).
    apply (wf_add f w _ _ _ _ _ He); [rewrite next_handle_make_unique; lia | exact Hwf].
Qed.


Lemma getDescriptorSet_wf i l bs ims f w :
  cache_wf f w ->
  cache_wf (frame_of (getDescriptorSet hasher i l bs ims f w))
           (world_after (getDescriptorSet hasher i l bs ims f w)).
Proof.
  intros Hwf. pose proof (getDescriptorSet_spec i l bs ims f w) as Hspec. cbv zeta in Hspec.
  destruct (entry f DSet i (set_hash hasher l bs ims)) as [set |].
  - destruct Hspec as (_ & -> & He). by apply (wf_same f w); [| lia |].
  - destruct Hspec as (_ & -> & He).
    apply (wf_add _ _ _ _ _ _ _ He); [rewrite next_handle_make_unique; lia |].
    by apply getDescriptorPool_wf.
Qed.

Lemma serve_wf r f w :
  cache_wf f w -> cache_wf (fst (serve hasher r (f, w))) (snd (serve hasher r (f, w))).
Proof.
  intros Hwf. destruct r as [i l | i l bs ims | i]; cbn [serve fst snd].
  - pose proof (getDescriptorPool_wf i l f w Hwf) as Hr.
    destruct (getDescriptorPool hasher i l f w) as [[p f'] w']. exact Hr.
  - pose proof (getDescriptorSet_wf i l bs ims f w Hwf) as Hr.
    destruct (getDescriptorSet hasher i l bs ims f w) as [[s f'] w']. exact Hr.
  - apply (wf_same f w); [reflexivity | | exact Hwf].
    unfold updateDescriptorSets. destruct (descriptorSets f !! i) as [sets |]; [| lia].
    generalize (map_to_list sets). intros es. revert w Hwf.
    induction es as [| e es IH]; intros w Hwf; cbn [fold_left]; [lia |].
    etrans; [| apply IH]; [reflexivity |].
    destruct Hwf as [Hold Hinj]. by split.
Qed.

Lemma serve_all_wf rs f w :
  cache_wf f w -> cache_wf (fst (serve_all hasher rs (f, w))) (snd (serve_all hasher rs (f, w))).
Proof.
  revert f w. induction rs as [| r rs IH]; intros f w Hwf; [exact Hwf |].
  cbn [serve_all fold_left].
  pose proof (serve_wf r f w Hwf) as Hr.
  destruct (serve hasher r (f, w)) as [f' w']. by apply IH.
Qed.

Lemma empty_caches_wf f w :
  descriptorPools f = ∅ -> descriptorSets f = ∅ -> cache_wf f w.
Proof.
  intros Hp Hs.
  assert (He : forall k i h, entry f k i h = None).
  { intros [] i h; unfold entry, lookup2; cbn; rewrite ?Hp, ?Hs; by rewrite lookup_empty. }
  split; intros *; rewrite He; discriminate.
Qed.

(** *** Entries are never replaced *)

Lemma getDescriptorPool_keeps i l f w k j h a :
  entry f k j h = Some a -> entry (frame_of (getDescriptorPool hasher i l f w)) k j h = Some a.
Proof.
  intros Ha. destruct (getDescriptorPool_spec i l f w) as (_ & _ & Hspec).
  destruct (entry f Pool i (hash_value hasher l)) as [pool |] eqn:Hp;
    destruct Hspec as (_ & _ & He); rewrite He; [exact Ha |].
  case_decide as Hd; [| exact Ha].
  destruct Hd as (-> & -> & ->). congruence.
Qed.

Lemma getDescriptorSet_keeps i l bs ims f w k j h a :
  entry f k j h = Some a ->
  entry (frame_of (getDescriptorSet hasher i l bs ims f w)) k j h = Some a.
Proof.
  intros Ha. pose proof (getDescriptorSet_spec i l bs ims f w) as Hspec. cbv zeta in Hspec.
  destruct (entry f DSet i (set_hash hasher l bs ims)) as [set |] eqn:Hs;
    destruct Hspec as (_ & _ & He); rewrite He; [exact Ha |].
  case_decide as Hd.
  - destruct Hd as (-> & -> & ->). congruence.
  - by apply getDescriptorPool_keeps.
Qed.

Lemma serve_keeps r f w k j h a :
  entry f k j h = Some a -> entry (fst (serve hasher r (f, w))) k j h = Some a.
Proof.
  intros Ha. destruct r as [i l | i l bs ims | i]; cbn [serve fst snd].
  - pose proof (getDescriptorPool_keeps i l f w k j h a Ha) as Hr.
    destruct (getDescriptorPool hasher i l f w) as [[p f'] w']. exact Hr.
  - pose proof (getDescriptorSet_keeps i l bs ims f w k j h a Ha) as Hr.
    destruct (getDescriptorSet hasher i l bs ims f w) as [[s f'] w']. exact Hr.
  - exact Ha.
Qed.

Lemma serve_all_keeps rs f w k j h a :
  entry f k j h = Some a -> entry (fst (serve_all hasher rs (f, w))) k j h = Some a.
Proof.
  revert f w. induction rs as [| r rs IH]; intros f w Ha; [exact Ha |].
  cbn [serve_all fold_left].
  pose proof (serve_keeps r f w k j h a Ha) as Hr.
  destruct (serve hasher r (f, w)) as [f' w']. by apply IH.
Qed.

(** The object a lookup returns is the one found under its key afterwards. *)
Lemma getDescriptorPool_cached i l f w :
  entry (frame_of (getDescriptorPool hasher i l f w)) Pool i (hash_value hasher l)
  = Some (result_of (getDescriptorPool hasher i l f w)).
Proof.
  destruct (getDescriptorPool_spec i l f w) as (_ & _ & Hspec).
  destruct (entry f Pool i (hash_value hasher l)) as [pool |] eqn:Hp;
    destruct Hspec as (-> & _ & He); rewrite He; [exact Hp |].
  by rewrite decide_True.
Qed.

Lemma getDescriptorSet_cached i l bs ims f w :
  entry (frame_of (getDescriptorSet hasher i l bs ims f w)) DSet i (set_hash hasher l bs ims)
  = Some (result_of (getDescriptorSet hasher i l bs ims f w)).
Proof.
  pose proof (getDescriptorSet_spec i l bs ims f w) as Hspec. cbv zeta in Hspec.
  destruct (entry f DSet i (set_hash hasher l bs ims)) as [set |] eqn:Hs;
    destruct Hspec as (-> & _ & He); rewrite He; [exact Hs |].
  by rewrite decide_True.
Qed.

(** *** Counting what is created *)

Lemma trace_make_unique o w :
  trace (snd (make_unique o w)) = trace w ++ [New (next_handle w) o].
Proof. reflexivity. Qed.

Lemma heap_make_unique o w :
  heap (snd (make_unique o w)) = <[next_handle w := o]> (heap w).
Proof. reflexivity. Qed.

Lemma created_after_pool d l w :
  pools_created (snd (make_unique (ODescriptorPool d l) w)) = S (pools_created w) /\
  sets_created (snd (make_unique (ODescriptorPool d l) w)) = sets_created w.
Proof.
  unfold pools_created, sets_created. rewrite trace_make_unique, !List.filter_app.
  cbn. rewrite !length_app. cbn. lia.
Qed.

Lemma created_after_set d p bs ims w :
  pools_created (snd (make_unique (ODescriptorSet d p bs ims) w)) = pools_created w /\
  sets_created (snd (make_unique (ODescriptorSet d p bs ims) w)) = S (sets_created w).
Proof.
  unfold pools_created, sets_created. rewrite trace_make_unique, !List.filter_app.
  cbn. rewrite !length_app. cbn. lia.
Qed.

Lemma one_pool_and_set_per_slot l bs ims (slots : list Z) :
  forall f w (S : gset Z),
    served hasher l bs ims f S ->
    let s := serve_all hasher ((fun i => GetDescriptorSet i l bs ims) <$> slots) (f, w) in
    (pools_created (snd s) + size S = pools_created w + size (S ∪ list_to_set slots))%nat /\
    (sets_created (snd s) + size S = sets_created w + size (S ∪ list_to_set slots))%nat.
Proof.
  induction slots as [| i slots IH]; intros f w S Hserved.
  - cbn. replace (S ∪ ∅) with S by set_solver. lia.
  - cbn [fmap list_fmap serve_all fold_left serve fst snd list_to_set].
    pose proof (getDescriptorSet_spec i l bs ims f w) as Hspec. cbv zeta in Hspec.
    pose proof (Hserved i) as Hi.
    destruct (getDescriptorSet hasher i l bs ims f w) as [[set f'] w'] eqn:Hr.
    unfold result_of, frame_of, world_after in Hspec; cbn [fst snd] in Hspec.
    destruct (decide (i ∈ S)) as [Hin | Hout].
    + destruct Hi as [a Ha]. rewrite Ha in Hspec. destruct Hspec as (_ & -> & He).
      replace (S ∪ ({[i]} ∪ list_to_set slots)) with (S ∪ list_to_set slots)
        by set_solver.
      apply IH. intros j. specialize (Hserved j). rewrite !He. exact Hserved.
    + destruct Hi as [Hs Hp]. rewrite Hs in Hspec. destruct Hspec as (_ & -> & He).
      destruct (getDescriptorPool_spec i l f w) as (_ & _ & Hpool).
      rewrite Hp in Hpool. destruct Hpool as (Hpr & Hpw & Hpe).
      destruct (getDescriptorPool hasher i l f w) as [[pool fp] wp] eqn:Hrp.
      unfold result_of, frame_of, world_after in *; cbn [fst snd] in *. subst wp.
      specialize (IH f' (snd (make_unique (ODescriptorSet (device f) pool bs ims)
                                (snd (make_unique (ODescriptorPool (device f) l) w))))
                    (S ∪ {[i]})).
      cbv zeta in IH. destruct IH as [IHp IHs].
      { intros j. specialize (Hserved j).
        destruct (decide (j ∈ S ∪ {[i]})) as [Hj | Hj].
        - rewrite He.
          destruct (decide (DSet = DSet /\ j = i /\
                            set_hash hasher l bs ims = set_hash hasher l bs ims)) as [_ | Hn];
            [eauto |].
          assert (HjS : j ∈ S) by (apply elem_of_union in Hj as [? | ?]; [done |];
                                   exfalso; apply Hn; set_solver).
          rewrite decide_True in Hserved by exact HjS.
          rewrite Hpe. rewrite decide_False by (intros (? & _); discriminate).
          exact Hserved.
        - assert (HjS : j ∉ S) by set_solver.
          assert (Hji : j <> i) by set_solver.
          rewrite decide_False in Hserved by exact HjS.
          rewrite !He, !Hpe.
          rewrite !decide_False by (intros (? & ? & ?); done || discriminate).
          exact Hserved. }
      destruct (created_after_set (device f) pool bs ims
                  (snd (make_unique (ODescriptorPool (device f) l) w))) as [Hc1 Hc2].
      destruct (created_after_pool (device f) l w) as [Hc3 Hc4].
      rewrite Hc1, Hc3 in IHp. rewrite Hc2, Hc4 in IHs.
      replace (S ∪ ({[i]} ∪ list_to_set slots)) with (S ∪ {[i]} ∪ list_to_set slots)
        by set_solver.
      rewrite size_union, size_singleton in IHp, IHs by set_solver.
      unfold serve_all in IHp, IHs. split; lia.
Qed.

(** C3.  [getDescriptorPool] creates lazily and is idempotent per slot.  A
    request whose layout hash the slot has not cached makes exactly one
    [DescriptorPool], at a fresh address, and caches it under that hash; in
    every case the pool returned is then the one cached in the slot, and a
    later request for the same layout in the same slot - whatever requests
    were served in between - returns that same pool and creates nothing.
    Hence, starting from empty caches, any succession of frames that ask for
    the descriptor set of one material creates as many pools, and as many
    sets, as there are distinct slots among them: two of each for three
    frames over two slots. *)
Theorem C3_pool_created_once_per_slot (i : Z) (l : DescriptorSetLayout)
    (f : t) (w : World) (rs : list Request) :
  let r1 := getDescriptorPool hasher i l f w in
  let s := serve_all hasher rs (frame_of r1, world_after r1) in
  let r2 := getDescriptorPool hasher i l (fst s) (snd s) in
  (entry f Pool i (hash_value hasher l) = None ->
     result_of r1 = next_handle w /\
     trace (world_after r1) = trace w ++ [New (next_handle w) (ODescriptorPool (device f) l)] /\
     heap (world_after r1) !! result_of r1 = Some (ODescriptorPool (device f) l) /\
     pools_created (world_after r1) = S (pools_created w)) /\
  (forall pool, entry f Pool i (hash_value hasher l) = Some pool ->
     result_of r1 = pool /\ world_after r1 = w) /\
  entry (frame_of r1) Pool i (hash_value hasher l) = Some (result_of r1) /\
  (result_of r2 = result_of r1 /\ world_after r2 = snd s) /\
  (forall f0 w0 bs ims (slots : list Z),
     descriptorPools f0 = ∅ -> descriptorSets f0 = ∅ ->
     let s' := serve_all hasher ((fun j => GetDescriptorSet j l bs ims) <$> slots) (f0, w0) in
     pools_created (snd s') = (pools_created w0 + size (list_to_set slots : gset Z))%nat /\
     sets_created (snd s') = (sets_created w0 + size (list_to_set slots : gset Z))%nat) /\
  (forall f0 w0 bs ims,
     descriptorPools f0 = ∅ -> descriptorSets f0 = ∅ ->
     let s' := serve_all hasher [GetDescriptorSet 0 l bs ims; GetDescriptorSet 1 l bs ims;
                            GetDescriptorSet 0 l bs ims] (f0, w0) in
     pools_created (snd s') = (pools_created w0 + 2)%nat /\
     sets_created (snd s') = (sets_created w0 + 2)%nat).
Proof.
  intros r1 s r2.
  assert (Hschedule : forall f0 w0 bs ims (slots : list Z),
     descriptorPools f0 = ∅ -> descriptorSets f0 = ∅ ->
     let s' := serve_all hasher ((fun j => GetDescriptorSet j l bs ims) <$> slots) (f0, w0) in
     pools_created (snd s') = (pools_created w0 + size (list_to_set slots : gset Z))%nat /\
     sets_created (snd s') = (sets_created w0 + size (list_to_set slots : gset Z))%nat).
  { intros f0 w0 bs ims slots Hp Hs s'.
    destruct (one_pool_and_set_per_slot l bs ims slots f0 w0 ∅) as [Hc1 Hc2].
    - intros j. rewrite decide_False by set_solver.
      unfold entry, lookup2; cbn. rewrite Hp, Hs. by rewrite !lookup_empty.
    - fold s' in Hc1, Hc2. rewrite size_empty in Hc1, Hc2.
      replace (∅ ∪ list_to_set slots) with (list_to_set slots : gset Z) in Hc1, Hc2
        by set_solver.
      lia. }
  pose proof (getDescriptorPool_cached i l f w) as Hcached. fold r1 in Hcached.
  destruct (getDescriptorPool_spec i l f w) as (_ & _ & Hspec). fold r1 in Hspec.
  split; [| split; [| split; [| split; [| split]]]].
  - intros Hmiss. rewrite Hmiss in Hspec. destruct Hspec as (Hr & Hw & _).
    rewrite Hw, Hr. repeat split.
    + rewrite heap_make_unique. apply lookup_insert_eq.
    + apply created_after_pool.
  - intros pool Hhit. rewrite Hhit in Hspec. destruct Hspec as (Hr & Hw & _). by split.
  - exact Hcached.
  - apply (serve_all_keeps rs _ (world_after r1)) in Hcached. fold s in Hcached.
    destruct (getDescriptorPool_spec i l (fst s) (snd s)) as (_ & _ & Hspec2).
    fold r2 in Hspec2. rewrite Hcached in Hspec2.
    destruct Hspec2 as (Hr & Hw & _). by split.
  - exact Hschedule.
  - intros f0 w0 bs ims Hp Hs.
    apply (Hschedule f0 w0 bs ims [0; 1; 0] Hp Hs).
Qed.

(** *** Other slots *)








(** A request whose combined hash is already a key of the slot is answered
    from the cache, whatever its layout and bindings are. *)
Lemma same_hash_same_set i l bs ims l2 bs2 ims2 f w (between : list Request) :
  set_hash hasher l2 bs2 ims2 = set_hash hasher l bs ims ->
  let r1 := getDescriptorSet hasher i l bs ims f w in
  let s := serve_all hasher between (frame_of r1, world_after r1) in
  result_of (getDescriptorSet hasher i l2 bs2 ims2 (fst s) (snd s)) = result_of r1 /\
  world_after (getDescriptorSet hasher i l2 bs2 ims2 (fst s) (snd s)) = snd s.
Proof.
  intros Heq r1 s.
  assert (Hcached : entry (fst s) DSet i (set_hash hasher l bs ims) = Some (result_of r1))
    by apply serve_all_keeps, getDescriptorSet_cached.
  pose proof (getDescriptorSet_spec i l2 bs2 ims2 (fst s) (snd s)) as Hspec.
  cbv zeta in Hspec. rewrite Heq, Hcached in Hspec.
  destruct Hspec as (Hr & Hw & _). by split.
Qed.

(** C2, as amended.  Within one slot of a Frame that started with empty
    caches, and whatever requests are served before and in between: asking
    again for the same layout and bindings returns the very object returned
    the first time and creates nothing; asking for another combination
    returns that same object when the two combined hashes are equal, and a
    different object when they differ. *)
Theorem C2_same_set_iff_same_hash (i : Z) (l l' : DescriptorSetLayout)
    (bs bs' : BindingMap VkDescriptorBufferInfo) (ims ims' : BindingMap VkDescriptorImageInfo)
    (f0 : t) (w0 : World) (before between : list Request) :
  descriptorPools f0 = ∅ -> descriptorSets f0 = ∅ ->
  let s0 := serve_all hasher before (f0, w0) in
  let r1 := getDescriptorSet hasher i l bs ims (fst s0) (snd s0) in
  let s := serve_all hasher between (frame_of r1, world_after r1) in
  let again := getDescriptorSet hasher i l bs ims (fst s) (snd s) in
  let other := getDescriptorSet hasher i l' bs' ims' (fst s) (snd s) in
  (result_of again = result_of r1 /\ world_after again = snd s) /\
  (set_hash hasher l' bs' ims' = set_hash hasher l bs ims -> result_of other = result_of r1) /\
  (set_hash hasher l' bs' ims' <> set_hash hasher l bs ims -> result_of other <> result_of r1).
Proof.
  intros Hp Hs s0 r1 s again other.
  split; [by apply same_hash_same_set |].
  split; [intros Heq; by apply same_hash_same_set |].
  intros Hne Heq.
  assert (Hwf : cache_wf (fst s) (snd s)).
  { apply serve_all_wf, getDescriptorSet_wf, serve_all_wf, empty_caches_wf; assumption. }
  assert (Hcached : entry (fst s) DSet i (set_hash hasher l bs ims) = Some (result_of r1))
    by apply serve_all_keeps, getDescriptorSet_cached.
  pose proof (getDescriptorSet_wf i l' bs' ims' _ _ Hwf) as [_ Hinj]. fold other in Hinj.
  pose proof (getDescriptorSet_cached i l' bs' ims' (fst s) (snd s)) as Hnew.
  fold other in Hnew. rewrite Heq in Hnew.
  apply (getDescriptorSet_keeps i l' bs' ims' _ (snd s)) in Hcached. fold other in Hcached.
  destruct (Hinj _ _ _ _ _ _ _ Hnew Hcached) as (_ & _ & ?). contradiction.
Qed.

End Cache.

(** *** Examples *)

(** Three frames over two slots, one material. *)
Lemma C3_witness :
  let s := serve_all sample_hasher
             [ GetDescriptorSet 0 material_layout material_buffers material_images;
               GetDescriptorSet 1 material_layout material_buffers material_images;
               GetDescriptorSet 0 material_layout material_buffers material_images ]
             (fresh_frame, fresh_world) in
  pools_created (snd s) = 2%nat /\ sets_created (snd s) = 2%nat.
Proof.
  apply (proj2 (proj2 (proj2 (proj2 (proj2
           (C3_pool_created_once_per_slot sample_hasher 0 material_layout
              fresh_frame fresh_world [])))))); reflexivity.
Defined.


Lemma C2_witness :
  let r1 := getDescriptorSet sample_hasher 0 material_layout material_buffers material_images
              fresh_frame fresh_world in
  let again := getDescriptorSet sample_hasher 0 material_layout material_buffers
                 material_images (frame_of r1) (world_after r1) in
  result_of again = result_of r1 /\ result_of r1 = 7.
Proof.
  split; [| vm_compute; reflexivity].
  apply (C2_same_set_iff_same_hash sample_hasher 0 material_layout material_layout
           material_buffers material_buffers material_images material_images
           fresh_frame fresh_world [] []); reflexivity.
Defined.

(** *** No hash keeps all combinations apart *)

Lemma no_injection (n : nat) :
  forall g : nat -> Z,
    (forall i, (i <= n)%nat -> 0 <= g i < Z.of_nat n) ->
    (forall i j, (i < j <= n)%nat -> g i <> g j) -> False.
Proof.
  induction n as [| n IH]; intros g Hrange Hinj.
  - specialize (Hrange 0%nat). lia.
  - apply (IH (fun i => if g i <? g (S n) then g i else g i - 1)).
    + intros i Hi. pose proof (Hrange i). pose proof (Hrange (S n)).
      pose proof (Hinj i (S n)). destruct (Z.ltb_spec (g i) (g (S n))); lia.
    + intros i j Hij. pose proof (Hinj i j). pose proof (Hinj i (S n)).
      pose proof (Hinj j (S n)).
      destruct (Z.ltb_spec (g i) (g (S n))), (Z.ltb_spec (g j) (g (S n))); lia.
Qed.

Lemma word_count : exists n : nat, Z.of_nat n = SIZE_MAX + 1.
Proof. exists (Z.to_nat (SIZE_MAX + 1)). apply Z2Nat.id. unfold SIZE_MAX. lia. Qed.

Lemma image_binding_handles (n : nat) :
  Z.of_nat n <= SIZE_MAX + 1 ->
  0 < di_sampler (image_binding n) <= SIZE_MAX /\
  0 < di_imageView (image_binding n) <= SIZE_MAX.
Proof.
  intros Hn. unfold image_binding; cbn [di_sampler di_imageView].
  assert (HM : 0 < SIZE_MAX) by (unfold SIZE_MAX; lia).
  pose proof (Z.mod_pos_bound (Z.of_nat n) SIZE_MAX HM).
  assert (0 <= Z.of_nat n / SIZE_MAX) by (apply Z.div_pos; lia).
  assert (Z.of_nat n / SIZE_MAX < 2)
    by (apply Z.div_lt_upper_bound; unfold SIZE_MAX in *; lia).
  unfold SIZE_MAX in *. lia.
Qed.

Lemma image_binding_differs (m n : nat) :
  m <> n ->
  di_sampler (image_binding m) <> di_sampler (image_binding n) \/
  di_imageView (image_binding m) <> di_imageView (image_binding n).
Proof.
  intros Hmn. unfold image_binding; cbn [di_sampler di_imageView].
  assert (HM : SIZE_MAX <> 0) by (unfold SIZE_MAX; lia).
  pose proof (Z.div_mod (Z.of_nat m) SIZE_MAX HM) as Hm.
  pose proof (Z.div_mod (Z.of_nat n) SIZE_MAX HM) as Hn.
  destruct (Z.eq_dec (Z.of_nat m / SIZE_MAX) (Z.of_nat n / SIZE_MAX)) as [Hq | Hq];
    [| left; lia].
  right. intros Hr. apply Hmn, Nat2Z.inj. rewrite Hm, Hn, Hq. f_equal. lia.
Qed.

(** C2 as stated cannot hold, whatever the hash functions are: among the
    image bindings [image_binding 0 .. image_binding 2^64] two must be given
    the same [size_t], and the second of two requests that differ in nothing
    but those two handles is answered from the cache with the first one's
    descriptor set. *)
Lemma C2_counterexample_hash_collision :
  ~ exists hasher : Hasher,
      size_t_valued hasher /\
      forall (i k : Z) (l : DescriptorSetLayout) (x y : VkDescriptorImageInfo)
             (f : t) (w : World),
        descriptorPools f = ∅ -> descriptorSets f = ∅ ->
        0 < di_sampler x <= SIZE_MAX -> 0 < di_imageView x <= SIZE_MAX ->
        0 < di_sampler y <= SIZE_MAX -> 0 < di_imageView y <= SIZE_MAX ->
        di_imageLayout x = di_imageLayout y ->
        (di_sampler x <> di_sampler y \/ di_imageView x <> di_imageView y) ->
        let r1 := getDescriptorSet hasher i l [] [(k, x)] f w in
        let r2 := getDescriptorSet hasher i l [] [(k, y)] (frame_of r1) (world_after r1) in
        result_of r2 <> result_of r1.
Proof.
  intros (hasher & (_ & _ & Hrange) & Hclaim).
  destruct word_count as [n Hn].
  apply (no_injection n
           (fun m => hash_combine_image hasher (hash_value hasher material_layout)
                       (image_binding m))).
  - intros m _. specialize (Hrange (hash_value hasher material_layout) (image_binding m)).
    lia.
  - intros a b Hab Heq.
    destruct (image_binding_handles a) as [Has Hav]; [lia |].
    destruct (image_binding_handles b) as [Hbs Hbv]; [lia |].
    apply (Hclaim 0 1 material_layout (image_binding a) (image_binding b)
             fresh_frame fresh_world); try done.
    + apply image_binding_differs. lia.
    + apply (same_hash_same_set hasher 0 material_layout [] [(1, image_binding a)]
               material_layout [] [(1, image_binding b)] fresh_frame fresh_world []).
      cbn. symmetry. exact Heq.
Qed.

End FrameCache.

(** ** Device Allocator: transfers, failures and releases *)

Module DeviceAllocatorTransfers.
Import DeviceAllocator.

Lemma fresh_lt (w : World) (k : Z) (x : Resource) :
  handles_fresh w -> resources w !! k = Some x -> k < next_handle w.
Proof.
  intros Hfresh Hk. destruct (Z.lt_ge_cases k (next_handle w)) as [? | Hge]; [done |].
  apply Hfresh in Hge. congruence.
Qed.

Lemma two_buffers_fresh o : handles_fresh (two_buffers o).
Proof.
  intros k Hk. cbn in *.
  rewrite !lookup_insert_ne by lia. apply lookup_singleton_ne. lia.
Qed.

Lemma splice_prefix {A} (new old : list A) :
  splice 0 new old = new ++ drop (length new) old.
Proof. reflexivity. Qed.

(** X1.  When every call succeeds and the transfer queue is idle, [copyBuffer]
    overwrites the first [size] bytes of the destination's memory with the
    first [size] bytes of the source's and changes nothing else on the
    device: its command buffer is freed again and nothing is left pending. *)
Theorem copyBuffer_copies_prefix (this : t) (src dst size : Z) (w : World)
    (i1 i2 : VkBufferCreateInfo) (ms md : Z) (a1 a2 : VmaAllocationCreateInfo)
    (from to : list (option Byte.byte)) :
  all_succeed w ->
  (forall qc, qc ∈ pending w -> fst qc <> immediateTransferQueue this) ->
  handles_fresh w ->
  resources w !! src = Some (RBuffer i1 ms) ->
  resources w !! dst = Some (RBuffer i2 md) ->
  resources w !! ms = Some (RAllocation a1 from) ->
  resources w !! md = Some (RAllocation a2 to) ->
  (Z.to_nat size <= length from)%nat ->
  (Z.to_nat size <= length to)%nat ->
  let cb := next_handle w in
  let copied := take (Z.to_nat size) from ++ drop (Z.to_nat size) to in
  exists w',
    copyBuffer this src dst size w = Returned tt w' /\
    resources w' = <[md := RAllocation a2 copied]> (resources w) /\
    contents w' dst = Some copied /\
    length copied = length to /\
    pending w' = pending w /\
    heap w' = heap w /\
    next_handle w' = cb + 1 /\
    trace w' = trace w ++
      [ Called (VkAllocateCommandBuffers (immediateTransferPool this)
                  VK_COMMAND_BUFFER_LEVEL_PRIMARY 1) VK_SUCCESS;
        Called (VkBeginCommandBuffer cb VK_COMMAND_BUFFER_USAGE_ONE_TIME_SUBMIT_BIT) VK_SUCCESS;
        Did (VkCmdCopyBuffer cb src dst (mkBufferCopy 0 0 size));
        Called (VkEndCommandBuffer cb) VK_SUCCESS;
        Called (VkQueueSubmit (immediateTransferQueue this) cb VK_NULL_HANDLE) VK_SUCCESS;
        Called (VkQueueWaitIdle (immediateTransferQueue this)) VK_SUCCESS;
        Did (VkFreeCommandBuffers (immediateTransferPool this) cb) ].
Proof.
  destruct w as [o tr n r p h].
  intros Ho Hq Hfresh Hsrc Hdst Hms Hmd Hfrom Hto cb copied.
  pose proof (fresh_lt _ _ _ Hfresh Hsrc) as Hsrc_lt.
  pose proof (fresh_lt _ _ _ Hfresh Hdst) as Hdst_lt.
  pose proof (fresh_lt _ _ _ Hfresh Hms) as Hms_lt.
  pose proof (fresh_lt _ _ _ Hfresh Hmd) as Hmd_lt.
  assert (Hn : r !! n = None) by (apply (Hfresh n); cbn; lia).
  unfold all_succeed in Ho. cbn [oracle pending next_handle trace resources] in *.
  destruct (DeviceAllocatorProps.wait_idle_runs_submission (immediateTransferQueue this) p
              (CmdCopyBuffer src dst (mkBufferCopy 0 0 size)) Hq) as [Hrun Hleft].
  eexists. split.
  { unfold copyBuffer.
    eapply bind_run; [apply assert_success, vkAllocateCommandBuffers_success, Ho |].
    eapply bind_run;
      [eapply assert_success, vkBeginCommandBuffer_success; [apply Ho | lookup] |].
    eapply bind_run; [eapply vkCmdCopyBuffer_recording; lookup |].
    eapply bind_run;
      [eapply assert_success, vkEndCommandBuffer_success; [apply Ho | lookup] |].
    eapply bind_run;
      [eapply assert_success, vkQueueSubmit_success; [apply Ho | lookup] |].
    eapply bind_run; [eapply assert_success, vkQueueWaitIdle_success; apply Ho |].
    apply vkFreeCommandBuffers_run. }
  assert (Hlen : length (take (Z.to_nat size) from) = Z.to_nat size)
    by (rewrite length_take; lia).
  assert (Hcopied :
    splice (Z.to_nat 0) (take (Z.to_nat size) (drop (Z.to_nat 0) from)) to = copied).
  { change (Z.to_nat 0) with 0%nat. rewrite drop_0, splice_prefix, Hlen. reflexivity. }
  assert (Hres :
    delete n
      (execute_all [CmdCopyBuffer src dst (mkBufferCopy 0 0 size)]
         (<[n := RCommandBuffer (immediateTransferPool this) Executable
                   ([] ++ [CmdCopyBuffer src dst (mkBufferCopy 0 0 size)])]>
            (<[n := RCommandBuffer (immediateTransferPool this) Recording
                      ([] ++ [CmdCopyBuffer src dst (mkBufferCopy 0 0 size)])]>
               (<[n := RCommandBuffer (immediateTransferPool this) Recording []]>
                  (<[n := RCommandBuffer (immediateTransferPool this) Initial []]> r)))))
    = <[md := RAllocation a2 copied]> r).
  { cbn [execute_all fold_left].
    erewrite DeviceAllocatorProps.execute_copy;
      [| lookup; eassumption | lookup; eassumption | lookup; eassumption
       | lookup; eassumption ].
    cbn [copy_size srcOffset dstOffset]. rewrite Hcopied.
    apply map_eq. intros k.
    destruct (decide (k = n)) as [-> | Hkn]; [lookup; by rewrite Hn |].
    destruct (decide (k = md)) as [-> | Hkmd]; [by lookup |].
    rewrite lookup_delete_ne by done.
    rewrite !(lookup_insert_ne _ md k) by done.
    by rewrite !(lookup_insert_ne _ n k) by done. }
  cbn [resources pending trace heap next_handle]. rewrite Hrun, Hleft.
  split; [exact Hres |].
  split.
  { unfold contents. cbn [resources]. rewrite Hres.
    rewrite (lookup_insert_ne _ md dst) by (intros ->; congruence).
    rewrite Hdst. by rewrite lookup_insert_eq. }
  split.
  { subst copied. rewrite length_app, Hlen, length_drop. lia. }
  split; [reflexivity |]. split; [reflexivity |]. split; [reflexivity |].
  subst cb. rewrite <- !app_assoc. reflexivity.
Qed.

Lemma copyBuffer_copies_prefix_witness :
  exists w',
    copyBuffer sample 1 3 2 (two_buffers always_succeeds) = Returned tt w' /\
    contents w' 3 = Some [Some Byte.x01; Some Byte.x02; None].
Proof.
  destruct (copyBuffer_copies_prefix sample 1 3 2 (two_buffers always_succeeds)
              (mkBufferInfo 3 3 VK_SHARING_MODE_EXCLUSIVE)
              (mkBufferInfo 3 2 VK_SHARING_MODE_EXCLUSIVE) 2 4
              (mkAllocInfo VMA_MEMORY_USAGE_AUTO 6 0) (mkAllocInfo VMA_MEMORY_USAGE_AUTO 1 0)
              [Some Byte.x01; Some Byte.x02; Some Byte.x03] [None; None; None])
    as (w' & Hrun & _ & Hbytes & _).
  - intros n c. reflexivity.
  - intros qc Hqc. cbn in Hqc. by apply elem_of_nil in Hqc.
  - apply two_buffers_fresh.
  - reflexivity.
  - reflexivity.
  - reflexivity.
  - reflexivity.
  - cbn. lia.
  - cbn. lia.
  - exists w'. split; [exact Hrun | exact Hbytes].
Defined.



(** X5.  [allocateBuffer] followed by [free] of the pair it returned leaves the
    device holding what it held before; the two handles are not given out
    again. *)
Theorem allocateBuffer_free_round_trip (size usage properties allocFlags : Z) (w : World) :
  oracle w (length (trace w))
    (VmaCreateBuffer
       (mkBufferInfo size (Z.lor VK_BUFFER_USAGE_TRANSFER_DST_BIT usage)
                     VK_SHARING_MODE_EXCLUSIVE)
       (mkAllocInfo VMA_MEMORY_USAGE_AUTO properties allocFlags)) = VK_SUCCESS ->
  handles_fresh w ->
  exists w1 w2,
    allocateBuffer size usage properties allocFlags w
      = Returned (next_handle w, next_handle w + 1) w1 /\
    free (next_handle w, next_handle w + 1) w1 = Returned tt w2 /\
    resources w2 = resources w /\
    pending w2 = pending w /\
    next_handle w2 = next_handle w + 2 /\
    handles_fresh w2 /\
    last (trace w2) = Some (Did (VmaDestroyBuffer (next_handle w) (next_handle w + 1))).
Proof.
  destruct w as [o tr n r p h]. cbn [oracle trace next_handle resources pending].
  intros Hr Hfresh.
  assert (Hnone : forall k, n <= k -> r !! k = None) by exact Hfresh.
  eexists _, _. split.
  { unfold allocateBuffer, VK_ASSERT, vmaCreateBuffer, native, consult.
    cbn [oracle trace]. rewrite Hr. reflexivity. }
  split.
  { unfold free, vmaDestroyBuffer, native. cbn [fst snd]. reflexivity. }
  cbn. split; [| split; [reflexivity | split; [reflexivity | split]]].
  - apply map_eq. intros k.
    destruct (decide (k = n + 1)) as [-> | ?]; [lookup; by rewrite Hnone by lia |].
    destruct (decide (k = n)) as [-> | ?]; [lookup; by rewrite Hnone by lia |].
    by lookup.
  - intros k Hk. cbn in *.
    rewrite !lookup_delete_ne, !lookup_insert_ne by lia. apply Hnone. lia.
  - by rewrite last_snoc.
Qed.

Lemma allocateBuffer_free_round_trip_witness :
  exists w1 w2,
    allocateBuffer 3 VK_BUFFER_USAGE_VERTEX_BUFFER_BIT VK_MEMORY_PROPERTY_DEVICE_LOCAL_BIT 0
      (two_buffers always_succeeds) = Returned (5, 6) w1 /\
    free (5, 6) w1 = Returned tt w2 /\
    resources w2 = resources (two_buffers always_succeeds).
Proof.
  destruct (allocateBuffer_free_round_trip 3 VK_BUFFER_USAGE_VERTEX_BUFFER_BIT
              VK_MEMORY_PROPERTY_DEVICE_LOCAL_BIT 0 (two_buffers always_succeeds)
              eq_refl (two_buffers_fresh always_succeeds))
    as (w1 & w2 & Halloc & Hfree & Hres & _).
  exists w1, w2. split; [exact Halloc |]. split; [exact Hfree | exact Hres].
Defined.

(** X4.  When the destination buffer can be created and the staging buffer
    cannot, [allocateDeviceLocalBufferAndTransfer] is cut short after the
    second call; the destination buffer stays alive with its memory, and no
    call has destroyed anything. *)
Theorem failed_staging_creation_keeps_destination (defaultAllocFlags : Z) (this : t)
    (data : list Byte.byte) (size usage : Z) (w : World) :
  let dstCall :=
    VmaCreateBuffer
      (mkBufferInfo size
         (Z.lor VK_BUFFER_USAGE_TRANSFER_DST_BIT (Z.lor usage VK_BUFFER_USAGE_TRANSFER_DST_BIT))
         VK_SHARING_MODE_EXCLUSIVE)
      (mkAllocInfo VMA_MEMORY_USAGE_AUTO VK_MEMORY_PROPERTY_DEVICE_LOCAL_BIT
                   defaultAllocFlags) in
  let stagingCall :=
    VmaCreateBuffer
      (mkBufferInfo size
         (Z.lor VK_BUFFER_USAGE_TRANSFER_DST_BIT VK_BUFFER_USAGE_TRANSFER_SRC_BIT)
         VK_SHARING_MODE_EXCLUSIVE)
      (mkAllocInfo VMA_MEMORY_USAGE_AUTO
         (Z.lor VK_MEMORY_PROPERTY_HOST_VISIBLE_BIT VK_MEMORY_PROPERTY_HOST_COHERENT_BIT)
         VMA_ALLOCATION_CREATE_HOST_ACCESS_SEQUENTIAL_WRITE_BIT) in
  let r := oracle w (S (length (trace w))) stagingCall in
  oracle w (length (trace w)) dstCall = VK_SUCCESS ->
  is_success r = false ->
  exists w',
    allocateDeviceLocalBufferAndTransfer defaultAllocFlags this data size usage w
      = Aborted r w' /\
    trace w' = trace w ++ [Called dstCall VK_SUCCESS; Called stagingCall r] /\
    is_Some (buffer_info w' (next_handle w)) /\
    contents w' (next_handle w) = Some (repeat None (Z.to_nat size)) /\
    next_handle w' = next_handle w + 2.
Proof.
  destruct w as [o tr n res p h].
  intros dstCall stagingCall r Hdst Hr. cbn [oracle trace next_handle] in *.
  assert (Hfirst :
    allocateBuffer size (Z.lor usage VK_BUFFER_USAGE_TRANSFER_DST_BIT)
      VK_MEMORY_PROPERTY_DEVICE_LOCAL_BIT defaultAllocFlags (mkWorld o tr n res p h)
    = Returned (n, n + 1)
        (mkWorld o (tr ++ [Called dstCall VK_SUCCESS]) (n + 2)
           (<[n := RBuffer
                     (mkBufferInfo size
                        (Z.lor VK_BUFFER_USAGE_TRANSFER_DST_BIT
                               (Z.lor usage VK_BUFFER_USAGE_TRANSFER_DST_BIT))
                        VK_SHARING_MODE_EXCLUSIVE) (n + 1)]>
              (<[n + 1 := RAllocation
                            (mkAllocInfo VMA_MEMORY_USAGE_AUTO
                               VK_MEMORY_PROPERTY_DEVICE_LOCAL_BIT defaultAllocFlags)
                            (repeat None (Z.to_nat size))]> res))
           p h)).
  { unfold allocateBuffer, VK_ASSERT, vmaCreateBuffer, native, consult.
    cbn [oracle trace]. fold dstCall. rewrite Hdst. reflexivity. }
  assert (Hsecond : forall w1,
    oracle w1 = o -> trace w1 = tr ++ [Called dstCall VK_SUCCESS] ->
    allocateBuffer size VK_BUFFER_USAGE_TRANSFER_SRC_BIT
      (Z.lor VK_MEMORY_PROPERTY_HOST_VISIBLE_BIT VK_MEMORY_PROPERTY_HOST_COHERENT_BIT)
      VMA_ALLOCATION_CREATE_HOST_ACCESS_SEQUENTIAL_WRITE_BIT w1
    = Aborted r (log (Called stagingCall r) w1)).
  { intros w1 Ho Ht.
    rewrite DeviceAllocatorProps.allocateBuffer_failure_aborts;
      rewrite Ho, Ht, length_app, Nat.add_1_r; [reflexivity | exact Hr]. }
  eexists. split.
  { unfold allocateDeviceLocalBufferAndTransfer.
    eapply bind_run; [exact Hfirst |].
    apply bind_aborted. apply Hsecond; reflexivity. }
  cbn [trace log next_handle].
  split; [by rewrite <- app_assoc |].
  unfold buffer_info, contents. cbn [resources log].
  split; [lookup; eexists; reflexivity |]. split; [by lookup | reflexivity].
Qed.

Lemma failed_staging_creation_keeps_destination_witness :
  exists w',
    allocateDeviceLocalBufferAndTransfer 0 sample payload 3 VK_BUFFER_USAGE_VERTEX_BUFFER_BIT
      (boot staging_fails) = Aborted VK_ERROR_OUT_OF_HOST_MEMORY w' /\
    contents w' 1 = Some [None; None; None].
Proof.
  destruct (failed_staging_creation_keeps_destination 0 sample payload 3
              VK_BUFFER_USAGE_VERTEX_BUFFER_BIT (boot staging_fails) eq_refl eq_refl)
    as (w' & Hrun & _ & _ & Hbytes & _).
  exists w'. split; [exact Hrun | exact Hbytes].
Defined.

(** *** A transfer that is cut short *)

Lemma bind_aborted_inv {A B} (m : M A) (k : A -> M B) w r w' :
  bind m k w = Aborted r w' ->
  m w = Aborted r w' \/ exists a w1, m w = Returned a w1 /\ k a w1 = Aborted r w'.
Proof.
  unfold bind. destruct (m w) as [a w1 | r1 w1]; intros Hrun.
  - right. eauto.
  - left. injection Hrun as <- <-. reflexivity.
Qed.

Lemma keeps_then (m k : M unit) :
  keeps_command_buffers m ->
  (forall w r w', k w = Aborted r w' -> cut_short w r w') ->
  forall w r w', (m ;;; k) w = Aborted r w' -> cut_short w r w'.
Proof.
  intros Hm Hk w r w' Hrun.
  destruct (Hm w) as [(e & w1 & Hmw & Ht & He & Hn & Hcb) | (c & r1 & Hmw & Hr1)].
  - apply bind_aborted_inv in Hrun as [Hrun | (a & w1' & Hmw' & Hrun)]; [congruence |].
    rewrite Hmw in Hmw'. simplify_eq.
    destruct (Hk _ _ _ Hrun) as (Hr & (es & c & Ht' & Hes) & Hn' & Hcb').
    split; [exact Hr |]. split; [| split; [congruence | auto]].
    exists (e :: es), c. split.
    + rewrite Ht', Ht, <- app_assoc. reflexivity.
    + by constructor.
  - apply bind_aborted_inv in Hrun as [Hrun | (a & w1' & Hmw' & Hrun)]; [| congruence].
    rewrite Hmw in Hrun. simplify_eq.
    split; [exact Hr1 |]. split; [| split; [reflexivity | auto]].
    exists [], c. split; [reflexivity | constructor].
Qed.

Lemma allocated_in_insert o t n r p h cb pool st cmds st' cmds' cb' pool' :
  r !! cb = Some (RCommandBuffer pool st cmds) ->
  allocated_in (mkWorld o t n r p h) cb' pool' ->
  allocated_in (mkWorld o t n (<[cb := RCommandBuffer pool st' cmds']> r) p h) cb' pool'.
Proof.
  intros Hcb (st0 & cmds0 & Hcb'). unfold allocated_in in *. cbn [resources] in *.
  destruct (decide (cb' = cb)) as [-> | Hne].
  - rewrite lookup_insert_eq. rewrite Hcb in Hcb'. injection Hcb' as -> _ _. eauto.
  - rewrite lookup_insert_ne by done. eauto.
Qed.

Lemma execute_keeps (c : Command) (res : gmap Z Resource) cb pool st cmds :
  res !! cb = Some (RCommandBuffer pool st cmds) ->
  execute c res !! cb = Some (RCommandBuffer pool st cmds).
Proof.
  intros Hcb. unfold execute. destruct c as [src dst region].
  repeat case_match; try exact Hcb.
  rewrite lookup_insert_ne; [exact Hcb | congruence].
Qed.

Lemma execute_all_keeps (cs : list Command) (res : gmap Z Resource) cb pool st cmds :
  res !! cb = Some (RCommandBuffer pool st cmds) ->
  execute_all cs res !! cb = Some (RCommandBuffer pool st cmds).
Proof.
  revert res. induction cs as [| c cs IH]; intros res Hcb; [exact Hcb |].
  apply IH. by apply execute_keeps.
Qed.

Ltac fallible_step :=
  intros [o tr n r p h];
  unfold VK_ASSERT, vkBeginCommandBuffer, vkEndCommandBuffer, vkQueueSubmit, vkQueueWaitIdle,
    native, consult;
  cbv beta iota zeta; cbn [oracle trace];
  match goal with
  | |- context [o ?i ?c] => destruct (o i c) eqn:Hr
  end;
  cbn [is_success];
  [ left | right; eexists _, _; split; [reflexivity | reflexivity] .. ].

Lemma vkBeginCommandBuffer_keeps cb flags :
  keeps_command_buffers (VK_ASSERT (vkBeginCommandBuffer cb flags)).
Proof.
  fallible_step. cbn [resources log].
  destruct (r !! cb) as [[| | | pool st cmds | |] |] eqn:Hcb;
    eexists _, _; (split; [reflexivity |]);
    (split; [reflexivity |]); (split; [reflexivity |]); (split; [reflexivity |]);
    intros cb' pool' Hcb'; try exact Hcb'.
  eapply allocated_in_insert; eassumption.
Qed.

Lemma vkCmdCopyBuffer_keeps cb src dst region :
  keeps_command_buffers (vkCmdCopyBuffer cb src dst region).
Proof.
  intros [o tr n r p h]. left. unfold vkCmdCopyBuffer, native.
  cbv beta iota zeta. cbn [resources log].
  destruct (r !! cb) as [[| | | pool [] cmds | |] |] eqn:Hcb;
    eexists _, _; (split; [reflexivity |]);
    (split; [reflexivity |]); (split; [reflexivity |]); (split; [reflexivity |]);
    intros cb' pool' Hcb'; try exact Hcb'.
  eapply allocated_in_insert; eassumption.
Qed.

Lemma vkEndCommandBuffer_keeps cb :
  keeps_command_buffers (VK_ASSERT (vkEndCommandBuffer cb)).
Proof.
  fallible_step. cbn [resources log].
  destruct (r !! cb) as [[| | | pool [] cmds | |] |] eqn:Hcb;
    eexists _, _; (split; [reflexivity |]);
    (split; [reflexivity |]); (split; [reflexivity |]); (split; [reflexivity |]);
    intros cb' pool' Hcb'; try exact Hcb'.
  eapply allocated_in_insert; eassumption.
Qed.

Lemma vkQueueSubmit_keeps queue cb fence :
  keeps_command_buffers (VK_ASSERT (vkQueueSubmit queue cb fence)).
Proof.
  fallible_step. cbn [resources log].
  destruct (r !! cb) as [[| | | pool [] cmds | |] |] eqn:Hcb;
    eexists _, _; (split; [reflexivity |]);
    (split; [reflexivity |]); (split; [reflexivity |]); (split; [reflexivity |]);
    intros cb' pool' Hcb'; exact Hcb'.
Qed.

Lemma vkQueueWaitIdle_keeps queue :
  keeps_command_buffers (VK_ASSERT (vkQueueWaitIdle queue)).
Proof.
  fallible_step. cbn [resources log pending].
  eexists _, _. split; [reflexivity |].
  split; [reflexivity |]. split; [reflexivity |]. split; [reflexivity |].
  intros cb' pool' (st & cmds & Hcb'). exists st, cmds. cbn [resources] in *.
  by apply execute_all_keeps.
Qed.

(** X2.  A failed call cuts [copyBuffer] short without [vkFreeCommandBuffers]
    having been called: when the command buffer had been allocated, it is
    still allocated from the immediate-transfer pool as the function ends. *)
Theorem copyBuffer_cut_short_keeps_command_buffer (this : t) (src dst size : Z)
    (w : World) (r : VkResult) (w' : World) :
  copyBuffer this src dst size w = Aborted r w' ->
  let allocation := VkAllocateCommandBuffers (immediateTransferPool this)
                      VK_COMMAND_BUFFER_LEVEL_PRIMARY 1 in
  is_success r = false /\
  (exists es c, trace w' = trace w ++ es ++ [Called c r] /\
                Forall (fun e => frees_command_buffer e = false) es) /\
  (oracle w (length (trace w)) allocation = VK_SUCCESS ->
     allocated_in w' (next_handle w) (immediateTransferPool this) /\
     next_handle w' = next_handle w + 1) /\
  (oracle w (length (trace w)) allocation <> VK_SUCCESS ->
     r = oracle w (length (trace w)) allocation /\
     resources w' = resources w /\ next_handle w' = next_handle w).
Proof.
  intros Hrun allocation. unfold copyBuffer in Hrun.
  apply bind_aborted_inv in Hrun as [Hrun | (cb & w1 & Halloc & Hrun)].
  - destruct w as [o tr n res p h].
    unfold VK_ASSERT, vkAllocateCommandBuffers, native, consult in Hrun.
    cbv beta iota zeta in Hrun. cbn [oracle trace] in *. fold allocation in Hrun.
    destruct (o (length tr) allocation) eqn:Hr; cbn [is_success] in Hrun;
      try discriminate; injection Hrun as <- <-.
    all: split; [reflexivity |].
    all: split; [exists [], allocation; split; [reflexivity | constructor] |].
    all: split; [discriminate | intros _; by repeat split].
  - assert (Hfirst :
      oracle w (length (trace w)) allocation = VK_SUCCESS /\
      cb = next_handle w /\ next_handle w1 = next_handle w + 1 /\
      trace w1 = trace w ++ [Called allocation VK_SUCCESS] /\
      allocated_in w1 cb (immediateTransferPool this)).
    { destruct w as [o tr n res p h].
      unfold VK_ASSERT, vkAllocateCommandBuffers, native, consult in Halloc.
      cbv beta iota zeta in Halloc. cbn [oracle trace] in *. fold allocation in Halloc.
      destruct (o (length tr) allocation) eqn:Hr; cbn [is_success] in Halloc;
        try discriminate; injection Halloc as <- <-.
      repeat split. exists Initial, []. cbn. by rewrite lookup_insert_eq. }
    destruct Hfirst as (Hok & -> & Hnext & Htrace & Hcb).
    assert (Hrest : cut_short w1 r w').
    { revert Hrun.
      apply keeps_then; [apply vkBeginCommandBuffer_keeps |].
      apply keeps_then; [apply vkCmdCopyBuffer_keeps |].
      apply keeps_then; [apply vkEndCommandBuffer_keeps |].
      apply keeps_then; [apply vkQueueSubmit_keeps |].
      apply keeps_then; [apply vkQueueWaitIdle_keeps |].
      intros w2 r2 w2' Hfree. discriminate. }
    destruct Hrest as (Hr & (es & c & Ht & Hes) & Hn & Hkeeps).
    split; [exact Hr |]. split; [| split].
    + exists (Called allocation VK_SUCCESS :: es), c. split.
      * rewrite Ht, Htrace, <- app_assoc. reflexivity.
      * by constructor.
    + intros _. split; [by apply Hkeeps | congruence].
    + intros Hne. congruence.
Qed.

Lemma copyBuffer_cut_short_keeps_command_buffer_witness :
  exists w',
    copyBuffer sample 1 3 3 (two_buffers submit_fails) = Aborted VK_ERROR_DEVICE_LOST w' /\
    allocated_in w' 5 104.
Proof.
  eexists. split; [vm_compute; reflexivity |].
  refine (proj1 (proj1 (proj2 (proj2
    (copyBuffer_cut_short_keeps_command_buffer sample 1 3 3 (two_buffers submit_fails)
       VK_ERROR_DEVICE_LOST _ _))) eq_refl)).
  vm_compute. reflexivity.
Defined.

End DeviceAllocatorTransfers.

(** ** Material: C++ layout of float vectors *)

Module MaterialLayout.
Import Material.

Lemma align_up_aligned (off : Z) : off mod 4 = 0 -> align_up off 4 = off.
Proof. unfold align_up. intros Hoff. Z.to_euclidean_division_equations. lia. Qed.

Lemma sizeof_aligned (ty : glm_type) (off : Z) : off mod 4 = 0 -> (off + sizeof ty) mod 4 = 0.
Proof.
  intros Hoff. destruct ty; cbn [sizeof]; Z.to_euclidean_division_equations; lia.
Qed.

(** X13.  The C++ compiler inserts no padding into a struct whose members are
    [float], [glm::vec3] and [glm::vec4]: every member starts where the one
    before it ends, and the size of the struct is the sum of the sizes of its
    members.  The gaps the shader's layout needs are there only as far as the
    struct declares members for them. *)
Theorem cpp_layout_has_no_implicit_padding (members : list (field * glm_type)) (off : Z) :
  off mod 4 = 0 ->
  place alignof off members = packed off members /\
  struct_end alignof off members = off + members_size members /\
  (off = 0 -> sizeof_struct members = members_size members).
Proof.
  intros Hoff.
  assert (Hgen : forall members off, off mod 4 = 0 ->
            place alignof off members = packed off members /\
            struct_end alignof off members = off + members_size members).
  { clear. intros members. induction members as [| [name ty] rest IH]; intros off Hoff.
    - cbn. split; [reflexivity | lia].
    - cbn [place packed struct_end members_size fold_right snd].
      change (alignof ty) with 4.
      rewrite align_up_aligned by exact Hoff.
      destruct (IH (off + sizeof ty) (sizeof_aligned ty off Hoff)) as [-> ->].
      split; [reflexivity |]. fold (members_size rest). lia. }
  destruct (Hgen members off Hoff) as [Hplace Hend].
  split; [exact Hplace |]. split; [exact Hend |].
  intros ->. unfold sizeof_struct. rewrite Hend, align_up_aligned; [lia |].
  clear. induction members as [| [name ty] rest IH]; [reflexivity |].
  cbn [members_size fold_right snd]. fold (members_size rest).
  rewrite Z.add_0_l in *. destruct ty; cbn [sizeof]; Z.to_euclidean_division_equations; lia.
Qed.

Lemma cpp_layout_has_no_implicit_padding_witness :
  sizeof_struct Parameters = 48 /\
  place alignof 0 Parameters = packed 0 Parameters /\
  struct_end std140_align 0 uniform_block = 48.
Proof.
  destruct (cpp_layout_has_no_implicit_padding Parameters 0 eq_refl) as (Hplace & _ & Hsize).
  split; [rewrite Hsize; reflexivity |]. split; [exact Hplace | reflexivity].
Defined.

End MaterialLayout.

(** ** Frame: a whole life *)

Module FrameLife.
Import Frame.

Lemma not_allocated_from (w : World) (k : Z) (x : Resource) :
  pools_known w -> resources w !! k = Some x -> allocated_from (next_handle w) x = false.
Proof.
  intros Hknown Hk. destruct x; try reflexivity. cbn.
  apply Hknown in Hk. apply Z.eqb_neq. lia.
Qed.

(** X6.  A Frame that is constructed and then destroyed leaves the device holding
    what it held before.  The destructor makes no call for the command
    buffer: it goes with the command pool. *)
Theorem create_destroy_round_trip (device renderQueueFamilyIndex : Z) (w : World) :
  all_succeed w ->
  handles_fresh w ->
  pools_known w ->
  0 < next_handle w ->
  exists f w1 w2,
    create device renderQueueFamilyIndex w = Returned f w1 /\
    destroy f w1 = Returned tt w2 /\
    resources w1 !! commandBuffer f
      = Some (RCommandBuffer (commandPool f) Initial []) /\
    resources w2 = resources w /\
    heap w2 = heap w /\
    pending w2 = pending w /\
    Forall (fun e => frees_command_buffer e = false) (drop (length (trace w)) (trace w2)).
Proof.
  destruct w as [o tr n r p h]. intros Ho Hfresh Hknown Hpos.
  unfold all_succeed in Ho. cbn [oracle next_handle] in *.
  assert (Hnone : forall k, n <= k -> r !! k = None) by exact Hfresh.
  eexists _, _, _. split.
  { unfold create.
    eapply bind_run; [apply assert_success, FrameLifecycle.vkCreateCommandPool_success, Ho |].
    eapply bind_run; [apply assert_success, vkAllocateCommandBuffers_success, Ho |].
    eapply bind_run; [apply assert_success, FrameLifecycle.vkCreateSemaphore_success, Ho |].
    eapply bind_run; [apply assert_success, FrameLifecycle.vkCreateSemaphore_success, Ho |].
    eapply bind_run; [apply assert_success, FrameLifecycle.vkCreateFence_success, Ho |].
    reflexivity. }
  split; [apply FrameLifecycle.destroy_run |].
  cbn [resources heap pending trace commandBuffer commandPool fence
       imageAvailableSemaphore renderFinishedSemaphore descriptorSets descriptorPools].
  split; [by lookup |].
  split; [| split; [reflexivity | split; [reflexivity |]]].
  - unfold release, release_pool, VK_NULL_HANDLE.
    rewrite !(proj2 (Z.eqb_neq _ 0)) by lia.
    apply map_eq. intros k. apply option_eq. intros x.
    rewrite map_lookup_filter_Some. cbn [snd].
    destruct (decide (k = n)) as [-> | ?];
      [lookup; rewrite Hnone by lia; naive_solver |].
    destruct (decide (k = n + 1)) as [-> | ?].
    { rewrite Hnone by lia. lookup. split; [| discriminate].
      intros [Hx Hfalse]. injection Hx as <-. cbn [allocated_from] in Hfalse.
      rewrite Z.eqb_refl in Hfalse. discriminate. }
    destruct (decide (k = n + 1 + 1)) as [-> | ?];
      [lookup; rewrite Hnone by lia; naive_solver |].
    destruct (decide (k = n + 1 + 1 + 1)) as [-> | ?];
      [lookup; rewrite Hnone by lia; naive_solver |].
    destruct (decide (k = n + 1 + 1 + 1 + 1)) as [-> | ?];
      [lookup; rewrite Hnone by lia; naive_solver |].
    lookup. split; [by intros [? _] |]. intros Hk. split; [exact Hk |].
    by apply (not_allocated_from (mkWorld o tr n r p h) k x).
  - rewrite <- !app_assoc, drop_app_length. cbn [fmap list_fmap app].
    repeat constructor.
Qed.

Lemma create_destroy_round_trip_witness :
  exists f w1 w2,
    create 103 0 (two_buffers DeviceAllocator.always_succeeds) = Returned f w1 /\
    destroy f w1 = Returned tt w2 /\
    resources w2 = resources (two_buffers DeviceAllocator.always_succeeds).
Proof.
  destruct (create_destroy_round_trip 103 0 (two_buffers DeviceAllocator.always_succeeds))
    as (f & w1 & w2 & Hcreate & Hdestroy & _ & Hres & _).
  - intros n c. reflexivity.
  - apply DeviceAllocatorTransfers.two_buffers_fresh.
  - intros k pool st cmds Hk. cbn in Hk.
    repeat (apply lookup_insert_Some in Hk as [[_ Hk] | [_ Hk]]; [discriminate |]).
    apply lookup_singleton_Some in Hk as [_ Hk]. discriminate.
  - cbn. lia.
  - exists f, w1, w2. split; [exact Hcreate |]. split; [exact Hdestroy | exact Hres].
Defined.

(** *** A constructor that is cut short *)

Lemma creation_cases (c : FallibleCall) (x : Resource) o tr n r p h :
  let m : M (VkResult * Z) :=
    native (fun w =>
      let '(res, w1) := consult c w in
      if is_success res then
        ((res, next_handle w1),
         bump 1 (set_resources (<[next_handle w1 := x]> (resources w1)) w1))
      else ((res, VK_NULL_HANDLE), w1)) in
  (VK_ASSERT m (mkWorld o tr n r p h)
   = Returned n (mkWorld o (tr ++ [Called c VK_SUCCESS]) (n + 1) (<[n := x]> r) p h)) \/
  (is_success (o (length tr) c) = false /\
   VK_ASSERT m (mkWorld o tr n r p h)
   = Aborted (o (length tr) c) (mkWorld o (tr ++ [Called c (o (length tr) c)]) n r p h)).
Proof.
  intros m. subst m. unfold VK_ASSERT, native, consult. cbv beta iota zeta. cbn [oracle trace].
  destruct (o (length tr) c) eqn:Hr; cbn [is_success]; [left; reflexivity | right ..];
    (split; reflexivity).
Qed.

Lemma vkCreateCommandPool_cases flags qfi o tr n r p h :
  (VK_ASSERT (vkCreateCommandPool flags qfi) (mkWorld o tr n r p h)
   = Returned n (mkWorld o (tr ++ [Called (VkCreateCommandPool flags qfi) VK_SUCCESS]) (n + 1)
                   (<[n := RCommandPool flags qfi]> r) p h)) \/
  (is_success (o (length tr) (VkCreateCommandPool flags qfi)) = false /\
   VK_ASSERT (vkCreateCommandPool flags qfi) (mkWorld o tr n r p h)
   = Aborted (o (length tr) (VkCreateCommandPool flags qfi))
       (mkWorld o (tr ++ [Called (VkCreateCommandPool flags qfi)
                            (o (length tr) (VkCreateCommandPool flags qfi))]) n r p h)).
Proof. exact (creation_cases _ _ o tr n r p h). Qed.

Lemma vkAllocateCommandBuffers_cases pool level count o tr n r p h :
  (VK_ASSERT (vkAllocateCommandBuffers pool level count) (mkWorld o tr n r p h)
   = Returned n (mkWorld o (tr ++ [Called (VkAllocateCommandBuffers pool level count)
                                     VK_SUCCESS]) (n + 1)
                   (<[n := RCommandBuffer pool Initial []]> r) p h)) \/
  (is_success (o (length tr) (VkAllocateCommandBuffers pool level count)) = false /\
   VK_ASSERT (vkAllocateCommandBuffers pool level count) (mkWorld o tr n r p h)
   = Aborted (o (length tr) (VkAllocateCommandBuffers pool level count))
       (mkWorld o (tr ++ [Called (VkAllocateCommandBuffers pool level count)
                            (o (length tr) (VkAllocateCommandBuffers pool level count))])
          n r p h)).
Proof. exact (creation_cases _ _ o tr n r p h). Qed.

Lemma vkCreateSemaphore_cases o tr n r p h :
  (VK_ASSERT vkCreateSemaphore (mkWorld o tr n r p h)
   = Returned n (mkWorld o (tr ++ [Called VkCreateSemaphore VK_SUCCESS]) (n + 1)
                   (<[n := RSemaphore]> r) p h)) \/
  (is_success (o (length tr) VkCreateSemaphore) = false /\
   VK_ASSERT vkCreateSemaphore (mkWorld o tr n r p h)
   = Aborted (o (length tr) VkCreateSemaphore)
       (mkWorld o (tr ++ [Called VkCreateSemaphore (o (length tr) VkCreateSemaphore)])
          n r p h)).
Proof. exact (creation_cases _ _ o tr n r p h). Qed.

Lemma vkCreateFence_cases flags o tr n r p h :
  (VK_ASSERT (vkCreateFence flags) (mkWorld o tr n r p h)
   = Returned n (mkWorld o (tr ++ [Called (VkCreateFence flags) VK_SUCCESS]) (n + 1)
                   (<[n := RFence (has_flag flags VK_FENCE_CREATE_SIGNALED_BIT)]> r) p h)) \/
  (is_success (o (length tr) (VkCreateFence flags)) = false /\
   VK_ASSERT (vkCreateFence flags) (mkWorld o tr n r p h)
   = Aborted (o (length tr) (VkCreateFence flags))
       (mkWorld o (tr ++ [Called (VkCreateFence flags) (o (length tr) (VkCreateFence flags))])
          n r p h)).
Proof. exact (creation_cases _ _ o tr n r p h). Qed.

Ltac creation_step cases Hrun :=
  apply DeviceAllocatorTransfers.bind_aborted_inv in Hrun as [Hrun | (? & ? & Hstep & Hrun)];
  [ destruct cases as [Hok | [Hfail Hcut]];
    [ rewrite Hok in Hrun; discriminate
    | rewrite Hcut in Hrun; injection Hrun as <- <- ]
  | destruct cases as [Hok | [Hfail Hcut]];
    [ rewrite Hok in Hstep; injection Hstep as <- <-; clear Hok
    | rewrite Hcut in Hstep; discriminate ] ].

Ltac cut_short_after made :=
  split; [assumption |];
  eexists made, _;
  split; [rewrite <- ?app_assoc; reflexivity |];
  split; [repeat constructor; eexists; reflexivity |];
  split; [cbn; lia |];
  split; [cbn [next_handle length]; lia |];
  split; [intros k Hk; cbn [next_handle resources] in *; lookup |];
  intros k Hk; cbn [next_handle resources length] in *;
  repeat match goal with
         | |- is_Some (<[?i := _]> _ !! k) =>
             destruct (decide (k = i)) as [-> | ?];
             [rewrite lookup_insert_eq; eauto | rewrite lookup_insert_ne by lia]
         end; try lia.

(** X7.  When a failed call cuts the constructor short, at most four objects have
    been made, each by a call that succeeded; all of them are still alive, the
    handles that were there before are untouched, and nothing has been
    destroyed: the log holds nothing but the calls that made them and the
    call that failed. *)
Theorem create_cut_short_releases_nothing (device renderQueueFamilyIndex : Z)
    (w : World) (r : VkResult) (w' : World) :
  create device renderQueueFamilyIndex w = Aborted r w' ->
  is_success r = false /\
  exists made c,
    trace w' = trace w ++ made ++ [Called c r] /\
    Forall succeeded made /\
    (length made <= 4)%nat /\
    next_handle w' = next_handle w + Z.of_nat (length made) /\
    (forall k, k < next_handle w -> resources w' !! k = resources w !! k) /\
    (forall k, next_handle w <= k < next_handle w' -> is_Some (resources w' !! k)).
Proof.
  destruct w as [o tr n res p h]. intros Hrun. unfold create in Hrun.
  cbn [trace next_handle resources].
  creation_step (vkCreateCommandPool_cases VK_COMMAND_POOL_CREATE_RESET_COMMAND_BUFFER_BIT
                   renderQueueFamilyIndex o tr n res p h) Hrun.
  { cut_short_after (@nil Event). }
  match type of Hrun with context [mkWorld o ?t1 ?n1 ?r1 p h] =>
    creation_step (vkAllocateCommandBuffers_cases n VK_COMMAND_BUFFER_LEVEL_PRIMARY 1
                     o t1 n1 r1 p h) Hrun
  end.
  { cut_short_after [Called (VkCreateCommandPool VK_COMMAND_POOL_CREATE_RESET_COMMAND_BUFFER_BIT
                               renderQueueFamilyIndex) VK_SUCCESS]. }
  match type of Hrun with context [mkWorld o ?t1 ?n1 ?r1 p h] =>
    creation_step (vkCreateSemaphore_cases o t1 n1 r1 p h) Hrun
  end.
  { cut_short_after
      [Called (VkCreateCommandPool VK_COMMAND_POOL_CREATE_RESET_COMMAND_BUFFER_BIT
                 renderQueueFamilyIndex) VK_SUCCESS;
       Called (VkAllocateCommandBuffers n VK_COMMAND_BUFFER_LEVEL_PRIMARY 1) VK_SUCCESS]. }
  match type of Hrun with context [mkWorld o ?t1 ?n1 ?r1 p h] =>
    creation_step (vkCreateSemaphore_cases o t1 n1 r1 p h) Hrun
  end.
  { cut_short_after
      [Called (VkCreateCommandPool VK_COMMAND_POOL_CREATE_RESET_COMMAND_BUFFER_BIT
                 renderQueueFamilyIndex) VK_SUCCESS;
       Called (VkAllocateCommandBuffers n VK_COMMAND_BUFFER_LEVEL_PRIMARY 1) VK_SUCCESS;
       Called VkCreateSemaphore VK_SUCCESS]. }
  match type of Hrun with context [mkWorld o ?t1 ?n1 ?r1 p h] =>
    creation_step (vkCreateFence_cases VK_FENCE_CREATE_SIGNALED_BIT o t1 n1 r1 p h) Hrun
  end.
  { cut_short_after
      [Called (VkCreateCommandPool VK_COMMAND_POOL_CREATE_RESET_COMMAND_BUFFER_BIT
                 renderQueueFamilyIndex) VK_SUCCESS;
       Called (VkAllocateCommandBuffers n VK_COMMAND_BUFFER_LEVEL_PRIMARY 1) VK_SUCCESS;
       Called VkCreateSemaphore VK_SUCCESS; Called VkCreateSemaphore VK_SUCCESS]. }
  discriminate.
Qed.

Lemma create_cut_short_releases_nothing_witness :
  exists w',
    create 103 0 (DeviceAllocator.boot no_semaphores) = Aborted VK_ERROR_OUT_OF_DEVICE_MEMORY w' /\
    is_Some (resources w' !! 1) /\ is_Some (resources w' !! 2) /\ next_handle w' = 3.
Proof.
  eexists. split; [vm_compute; reflexivity |].
  destruct (create_cut_short_releases_nothing 103 0 (DeviceAllocator.boot no_semaphores)
              VK_ERROR_OUT_OF_DEVICE_MEMORY _ ltac:(vm_compute; reflexivity))
    as (_ & made & c & _ & _ & _ & _ & _ & Halive).
  split; [apply Halive; cbn; lia |].
  split; [apply Halive; cbn; lia | reflexivity].
Defined.

End FrameLife.

(** ** Frame: what the caches hold *)

Module FrameCacheContents.
Import Frame.

Section Cache.

Variable hasher : Hasher.

Lemma entry_empty (f : t) (k : Kind) (i h : Z) :
  descriptorPools f = ∅ -> descriptorSets f = ∅ -> entry f k i h = None.
Proof.
  intros Hp Hs. unfold entry, lookup2. destruct k; cbn [cache_of]; rewrite ?Hp, ?Hs;
    by rewrite lookup_empty.
Qed.

(** X8.  The move constructor does not carry the caches over.  Whatever the old
    Frame had cached, the first request for a descriptor set on the new Frame
    builds a new pool and a new set, while the old Frame still holds every
    cached object it held. *)
Theorem moved_frame_starts_cold (i : Z) (l : DescriptorSetLayout)
    (bs : BindingMap VkDescriptorBufferInfo) (ims : BindingMap VkDescriptorImageInfo)
    (other : t) (w : World) :
  let new := fst (move other) in
  let old := snd (move other) in
  let r := getDescriptorSet hasher i l bs ims new w in
  result_of r = next_handle w + 1 /\
  trace (world_after r) = trace w ++
    [ New (next_handle w) (ODescriptorPool (device other) l);
      New (next_handle w + 1) (ODescriptorSet (device other) (next_handle w) bs ims) ] /\
  (forall k j h, entry old k j h = entry other k j h) /\
  (forall k j h, entry new k j h = None).
Proof.
  intros new old r.
  assert (Hcold : forall k j h, entry new k j h = None)
    by (intros; by apply entry_empty).
  pose proof (FrameCache.getDescriptorSet_spec hasher i l bs ims new w) as Hset.
  pose proof (FrameCache.getDescriptorPool_spec hasher i l new w) as Hpool.
  cbv zeta in Hset, Hpool. rewrite Hcold in Hset, Hpool.
  destruct Hset as (Hres & Hworld & _). destruct Hpool as (_ & _ & Hp & Hpw & _).
  fold r in Hres, Hworld.
  rewrite Hpw, FrameCache.next_handle_make_unique in Hres.
  split; [exact Hres |]. split; [| split; [reflexivity | exact Hcold]].
  rewrite Hworld, Hpw, Hp, FrameCache.trace_make_unique, FrameCache.trace_make_unique,
    FrameCache.next_handle_make_unique, <- app_assoc.
  reflexivity.
Qed.

Lemma fold_values {A B} (g : A -> B -> A) (l : list (Z * B)) (a : A) :
  fold_left (fun h i => g h (snd i)) l a = fold_left g (snd <$> l) a.
Proof. revert a. induction l as [| x l IH]; intros a; [reflexivity | apply IH]. Qed.

Lemma set_hash_values (l : DescriptorSetLayout)
    (bs bs' : BindingMap VkDescriptorBufferInfo) (ims ims' : BindingMap VkDescriptorImageInfo) :
  snd <$> bs' = snd <$> bs -> snd <$> ims' = snd <$> ims ->
  set_hash hasher l bs' ims' = set_hash hasher l bs ims.
Proof.
  intros Hb Hi. unfold set_hash. cbv zeta.
  rewrite !(fold_values (hash_combine_buffer hasher)),
    !(fold_values (hash_combine_image hasher)), Hb, Hi.
  reflexivity.
Qed.

(** X9.  The binding indices take no part in the key of a descriptor set.  A
    request whose bindings carry the same values at other binding numbers is
    answered with the set built for the first request: nothing is created,
    and the set still holds the bindings it was built with. *)
Theorem rebound_values_share_a_set (i : Z) (l : DescriptorSetLayout)
    (bs bs' : BindingMap VkDescriptorBufferInfo) (ims ims' : BindingMap VkDescriptorImageInfo)
    (f : t) (w : World) :
  snd <$> bs' = snd <$> bs ->
  snd <$> ims' = snd <$> ims ->
  entry f DSet i (set_hash hasher l bs ims) = None ->
  let r1 := getDescriptorSet hasher i l bs ims f w in
  let r2 := getDescriptorSet hasher i l bs' ims' (frame_of r1) (world_after r1) in
  result_of r2 = result_of r1 /\
  world_after r2 = world_after r1 /\
  exists pool,
    heap (world_after r2) !! result_of r2 = Some (ODescriptorSet (device f) pool bs ims).
Proof.
  intros Hb Hi Hmiss r1 r2.
  destruct (FrameCache.same_hash_same_set hasher i l bs ims l bs' ims' f w []
              (set_hash_values l bs bs' ims ims' Hb Hi)) as [Hsame Hworld].
  cbn [serve_all fold_left fst snd] in Hsame, Hworld. fold r1 in Hsame, Hworld.
  fold r2 in Hsame, Hworld.
  split; [exact Hsame |]. split; [exact Hworld |].
  rewrite Hsame, Hworld.
  pose proof (FrameCache.getDescriptorSet_spec hasher i l bs ims f w) as Hset.
  cbv zeta in Hset. rewrite Hmiss in Hset. destruct Hset as (Hres & Hw & _).
  fold r1 in Hres, Hw. eexists.
  rewrite Hw, Hres, FrameCache.heap_make_unique, lookup_insert_eq. reflexivity.
Qed.

(** *** The objects behind the cached addresses *)

Lemma getDescriptorSet_device i l bs ims f w :
  device (frame_of (getDescriptorSet hasher i l bs ims f w)) = device f.
Proof.
  destruct (entry f DSet i (set_hash hasher l bs ims)) as [set |] eqn:He.
  - by rewrite (FrameCache.getDescriptorSet_hit hasher _ _ _ _ _ _ _ He).
  - rewrite (FrameCache.getDescriptorSet_miss hasher _ _ _ _ _ _ He). cbv zeta.
    cbn [frame_of fst snd set_descriptorSets device].
    by destruct (FrameCache.getDescriptorPool_spec hasher i l
                   (set_descriptorSets
                      (<[i := default ∅ (descriptorSets f !! i)]> (descriptorSets f)) f) w)
      as (_ & -> & _).
Qed.

Lemma typed_same f w f' w' :
  (forall k i h, entry f' k i h = entry f k i h) ->
  device f' = device f ->
  (forall a, a < next_handle w -> heap w' !! a = heap w !! a) ->
  cache_wf f w -> cache_typed hasher f w -> cache_typed hasher f' w'.
Proof.
  intros He Hd Hh Hwf [Hpools Hsets]. split.
  - intros i h a Ha. rewrite He in Ha. destruct (Hpools _ _ _ Ha) as (l & Hl & Hhash).
    exists l. rewrite Hd, Hh by (eapply wf_old; eauto). by split.
  - intros i h a Ha. rewrite He in Ha.
    destruct (Hsets _ _ _ Ha) as (l & bs & ims & pool & Hl & Hhash & Hpool).
    exists l, bs, ims, pool. rewrite Hd, He, Hh by (eapply wf_old; eauto). by repeat split.
Qed.

Lemma getDescriptorPool_typed i l f w :
  cache_wf f w -> cache_typed hasher f w ->
  cache_typed hasher (frame_of (getDescriptorPool hasher i l f w))
                     (world_after (getDescriptorPool hasher i l f w)).
Proof.
  intros Hwf Htyped.
  pose proof (FrameCache.getDescriptorPool_spec hasher i l f w) as Hspec. cbv zeta in Hspec.
  destruct Hspec as (_ & Hd & Hspec).
  destruct (entry f Pool i (hash_value hasher l)) as [pool |] eqn:He.
  - destruct Hspec as (_ & Hw & Hentries).
    apply (typed_same f w); try done. intros a _. by rewrite Hw.
  - destruct Hspec as (_ & Hw & Hentries). destruct Htyped as [Hpools Hsets].
    assert (Hheap : forall a, a < next_handle w ->
              heap (world_after (getDescriptorPool hasher i l f w)) !! a = heap w !! a).
    { intros a Ha. rewrite Hw, FrameCache.heap_make_unique, lookup_insert_ne by lia. done. }
    split.
    + intros j h a Ha. rewrite Hentries in Ha. case_decide as Hnew.
      * destruct Hnew as (_ & -> & ->). injection Ha as <-. exists l.
        by rewrite Hw, FrameCache.heap_make_unique, lookup_insert_eq, Hd.
      * destruct (Hpools _ _ _ Ha) as (l0 & Hl0 & Hhash). exists l0.
        rewrite Hd, Hheap by (eapply wf_old; eauto). by split.
    + intros j h a Ha. rewrite Hentries in Ha. case_decide as Hnew; [by destruct Hnew |].
      destruct (Hsets _ _ _ Ha) as (l0 & bs & ims & pool & Hl0 & Hhash & Hpool).
      exists l0, bs, ims, pool. rewrite Hd, Hheap by (eapply wf_old; eauto).
      split; [done |]. split; [done |]. by apply FrameCache.getDescriptorPool_keeps.
Qed.

Lemma getDescriptorSet_typed i l bs ims f w :
  cache_wf f w -> cache_typed hasher f w ->
  cache_typed hasher (frame_of (getDescriptorSet hasher i l bs ims f w))
                     (world_after (getDescriptorSet hasher i l bs ims f w)).
Proof.
  intros Hwf Htyped.
  pose proof (FrameCache.getDescriptorSet_spec hasher i l bs ims f w) as Hspec.
  cbv zeta in Hspec.
  pose proof (getDescriptorSet_device i l bs ims f w) as Hd.
  destruct (entry f DSet i (set_hash hasher l bs ims)) as [set |] eqn:He.
  - destruct Hspec as (_ & Hw & Hentries).
    apply (typed_same f w); try done. intros a _. by rewrite Hw.
  - destruct Hspec as (_ & Hw & Hentries).
    set (rp := getDescriptorPool hasher i l f w) in *.
    pose proof (FrameCache.getDescriptorPool_wf hasher i l f w Hwf) as Hwf1.
    pose proof (getDescriptorPool_typed i l f w Hwf Htyped) as [Hpools Hsets].
    fold rp in Hwf1, Hpools, Hsets.
    assert (Hd1 : device (frame_of rp) = device f)
      by (by destruct (FrameCache.getDescriptorPool_spec hasher i l f w) as (_ & ? & _)).
    assert (Hheap : forall a, a < next_handle (world_after rp) ->
              heap (world_after (getDescriptorSet hasher i l bs ims f w)) !! a
              = heap (world_after rp) !! a).
    { intros a Ha. rewrite Hw, FrameCache.heap_make_unique, lookup_insert_ne by lia. done. }
    split.
    + intros j h a Ha. rewrite Hentries in Ha. case_decide as Hnew; [by destruct Hnew |].
      destruct (Hpools _ _ _ Ha) as (l0 & Hl0 & Hhash). exists l0.
      rewrite Hd, Hheap by (eapply wf_old; eauto). rewrite <- Hd1. by split.
    + intros j h a Ha. rewrite Hentries in Ha. case_decide as Hnew.
      * destruct Hnew as (_ & -> & ->). injection Ha as <-.
        exists l, bs, ims, (result_of rp).
        rewrite Hw, FrameCache.heap_make_unique, lookup_insert_eq, Hd.
        split; [done |]. split; [done |].
        rewrite Hentries. rewrite decide_False by (by intros [? _]).
        apply FrameCache.getDescriptorPool_cached.
      * destruct (Hsets _ _ _ Ha) as (l0 & bs0 & ims0 & pool & Hl0 & Hhash & Hpool).
        exists l0, bs0, ims0, pool. rewrite Hd, Hheap by (eapply wf_old; eauto).
        rewrite <- Hd1. split; [done |]. split; [done |].
        rewrite Hentries. by rewrite decide_False by (by intros [? _]).
Qed.

Lemma update_all_world (es : list (Z * Z)) (w : World) :
  fold_left (fun w' s => log (UpdateAll (snd s)) w') es w =
    mkWorld (oracle w) (trace w ++ (UpdateAll <$> (snd <$> es))) (next_handle w)
            (resources w) (pending w) (heap w).
Proof.
  revert w. induction es as [| e es IH]; intros [o tr n r p h]; cbn.
  - by rewrite app_nil_r.
  - rewrite IH. cbn. by rewrite <- app_assoc.
Qed.

Lemma updateDescriptorSets_world i f w :
  next_handle (updateDescriptorSets i f w) = next_handle w /\
  heap (updateDescriptorSets i f w) = heap w.
Proof.
  unfold updateDescriptorSets. destruct (descriptorSets f !! i); [| done].
  by rewrite update_all_world.
Qed.

Lemma serve_typed r f w :
  cache_wf f w -> cache_typed hasher f w ->
  cache_typed hasher (fst (serve hasher r (f, w))) (snd (serve hasher r (f, w))).
Proof.
  intros Hwf Htyped. destruct r as [i l | i l bs ims | i]; cbn [serve fst snd].
  - pose proof (getDescriptorPool_typed i l f w Hwf Htyped) as H'.
    by destruct (getDescriptorPool hasher i l f w) as [[? ?] ?].
  - pose proof (getDescriptorSet_typed i l bs ims f w Hwf Htyped) as H'.
    by destruct (getDescriptorSet hasher i l bs ims f w) as [[? ?] ?].
  - destruct (updateDescriptorSets_world i f w) as [_ Hh].
    apply (typed_same f w); try done. intros a _. by rewrite Hh.
Qed.

Lemma serve_all_typed rs f w :
  cache_wf f w -> cache_typed hasher f w ->
  cache_typed hasher (fst (serve_all hasher rs (f, w))) (snd (serve_all hasher rs (f, w))).
Proof.
  revert f w. induction rs as [| r rs IH]; intros f w Hwf Htyped; [done |].
  cbn [serve_all fold_left].
  pose proof (FrameCache.serve_wf hasher r f w Hwf) as Hwf1.
  pose proof (serve_typed r f w Hwf Htyped) as Htyped1.
  destruct (serve hasher r (f, w)) as [f1 w1]. by apply IH.
Qed.

(** X10.  Whatever requests a Frame has served since its caches were empty, every
    cached pool is a pool object of the Frame's device filed under the hash
    of its layout, and every cached set is a set object of the Frame's device
    whose pool is the pool cached in the same slot for the set's layout. *)
Theorem caches_hold_pools_and_sets (f0 : t) (w0 : World) (rs : list Request) :
  descriptorPools f0 = ∅ -> descriptorSets f0 = ∅ ->
  let s := serve_all hasher rs (f0, w0) in
  cache_typed hasher (fst s) (snd s).
Proof.
  intros Hp Hs s. apply serve_all_typed.
  - by apply FrameCache.empty_caches_wf.
  - split; intros i h a Ha; by rewrite entry_empty in Ha.
Qed.

(** *** What the destructor gives back *)

Lemma cached_sound (cache : gmap Z (gmap Z Z)) (a : Z) :
  a ∈ cached cache -> exists i h, lookup2 cache i h = Some a.
Proof.
  unfold cached. intros Ha.
  apply list_elem_of_bind in Ha as ([i m] & Ha & Hslot).
  apply list_elem_of_fmap in Ha as ([h a'] & -> & Ha).
  apply elem_of_map_to_list in Hslot, Ha. cbn [snd] in *.
  exists i, h. unfold lookup2. by rewrite Hslot.
Qed.

Lemma owns_same w0 f w f' w' :
  (forall k i h, entry f' k i h = entry f k i h) ->
  next_handle w <= next_handle w' ->
  heap w' = heap w ->
  cache_owns w0 f w -> cache_owns w0 f' w'.
Proof.
  intros He Hn Hh (Hle & Hnew & Hrest). split; [lia |]. split.
  - intros k i h a Ha. rewrite He in Ha. eauto.
  - intros a Ha. rewrite Hh. apply Hrest. intros k i h. rewrite <- He. apply Ha.
Qed.

Lemma owns_add w0 f w f' w' k0 i0 h0 o :
  entry f k0 i0 h0 = None ->
  (forall k i h, entry f' k i h =
                 if decide (k = k0 /\ i = i0 /\ h = h0)
                 then Some (next_handle w) else entry f k i h) ->
  w' = snd (make_unique o w) ->
  cache_owns w0 f w -> cache_owns w0 f' w'.
Proof.
  intros Hmiss He -> (Hle & Hnew & Hrest).
  split; [rewrite FrameCache.next_handle_make_unique; lia |]. split.
  - intros k i h a Ha. rewrite He in Ha. case_decide; [injection Ha as <-; lia | eauto].
  - intros a Ha. rewrite FrameCache.heap_make_unique.
    assert (a <> next_handle w).
    { intros ->. apply (Ha k0 i0 h0). rewrite He. by rewrite decide_True. }
    rewrite lookup_insert_ne by done. apply Hrest.
    intros k i h Hk. apply (Ha k i h). rewrite He. case_decide as Hnew'; [| done].
    destruct Hnew' as (-> & -> & ->). congruence.
Qed.

Lemma getDescriptorPool_owns w0 i l f w :
  cache_owns w0 f w ->
  cache_owns w0 (frame_of (getDescriptorPool hasher i l f w))
                (world_after (getDescriptorPool hasher i l f w)).
Proof.
  intros Howns.
  pose proof (FrameCache.getDescriptorPool_spec hasher i l f w) as Hspec. cbv zeta in Hspec.
  destruct Hspec as (_ & _ & Hspec).
  destruct (entry f Pool i (hash_value hasher l)) as [pool |] eqn:He.
  - destruct Hspec as (_ & Hw & Hentries).
    apply (owns_same w0 f w); rewrite ?Hw; done.
  - destruct Hspec as (_ & Hw & Hentries). eapply owns_add; eauto.
Qed.

Lemma getDescriptorSet_owns w0 i l bs ims f w :
  cache_owns w0 f w ->
  cache_owns w0 (frame_of (getDescriptorSet hasher i l bs ims f w))
                (world_after (getDescriptorSet hasher i l bs ims f w)).
Proof.
  intros Howns.
  pose proof (FrameCache.getDescriptorSet_spec hasher i l bs ims f w) as Hspec.
  cbv zeta in Hspec.
  destruct (entry f DSet i (set_hash hasher l bs ims)) as [set |] eqn:He.
  - destruct Hspec as (_ & Hw & Hentries).
    apply (owns_same w0 f w); rewrite ?Hw; done.
  - destruct Hspec as (_ & Hw & Hentries).
    eapply (owns_add w0 (frame_of (getDescriptorPool hasher i l f w))); eauto.
    + pose proof (FrameCache.getDescriptorPool_spec hasher i l f w) as Hpool.
      cbv zeta in Hpool. destruct Hpool as (_ & _ & Hpool).
      destruct (entry f Pool i (hash_value hasher l)); destruct Hpool as (_ & _ & ->);
        [done |]. by rewrite decide_False by (by intros [? _]).
    + by apply getDescriptorPool_owns.
Qed.

Lemma serve_owns w0 r f w :
  cache_owns w0 f w ->
  cache_owns w0 (fst (serve hasher r (f, w))) (snd (serve hasher r (f, w))).
Proof.
  intros Howns. destruct r as [i l | i l bs ims | i]; cbn [serve fst snd].
  - pose proof (getDescriptorPool_owns w0 i l f w Howns) as H'.
    by destruct (getDescriptorPool hasher i l f w) as [[? ?] ?].
  - pose proof (getDescriptorSet_owns w0 i l bs ims f w Howns) as H'.
    by destruct (getDescriptorSet hasher i l bs ims f w) as [[? ?] ?].
  - destruct (updateDescriptorSets_world i f w) as [Hn Hh].
    apply (owns_same w0 f w); try done. lia.
Qed.

Lemma serve_all_owns w0 rs f w :
  cache_owns w0 f w ->
  cache_owns w0 (fst (serve_all hasher rs (f, w))) (snd (serve_all hasher rs (f, w))).
Proof.
  revert f w. induction rs as [| r rs IH]; intros f w Howns; [done |].
  cbn [serve_all fold_left].
  pose proof (serve_owns w0 r f w Howns) as Howns1.
  destruct (serve hasher r (f, w)) as [f1 w1]. by apply IH.
Qed.

(** X11.  Whatever requests a Frame has served since its caches were empty, its
    destructor leaves the free store as it was when the caches were empty:
    every object the caches made is released, and no other object is. *)
Theorem destroy_releases_what_the_caches_made (f0 : t) (w0 : World) (rs : list Request) :
  descriptorPools f0 = ∅ -> descriptorSets f0 = ∅ ->
  addresses_fresh w0 ->
  let s := serve_all hasher rs (f0, w0) in
  exists w',
    destroy (fst s) (snd s) = Returned tt w' /\
    heap w' = heap w0 /\
    forall a, heap (snd s) !! a <> heap w0 !! a ->
              Delete a ∈ drop (length (trace (snd s))) (trace w').
Proof.
  intros Hp Hs Hfresh s.
  assert (Howns : cache_owns w0 (fst s) (snd s)).
  { apply serve_all_owns. split; [lia |]. split.
    - intros k i h a Ha. by rewrite entry_empty in Ha.
    - done. }
  destruct Howns as (_ & Hnew & Hrest).
  destruct (snd s) as [o tr n r p h] eqn:Hw.
  eexists. split; [apply FrameLifecycle.destroy_run |].
  cbn [heap trace] in *.
  assert (Hcached : forall a,
            (a ∈ cached (descriptorSets (fst s)) \/ a ∈ cached (descriptorPools (fst s))) \/
            h !! a = heap w0 !! a).
  { intros a.
    destruct (decide (a ∈ cached (descriptorSets (fst s)))) as [? | Hsets]; [by left; left |].
    destruct (decide (a ∈ cached (descriptorPools (fst s)))) as [? | Hpools];
      [by left; right |].
    right. apply Hrest. intros [] i k Ha; apply FrameLifecycle.cached_complete in Ha; done. }
  split.
  - apply map_eq. intros a. rewrite !FrameLifecycle.lookup_fold_delete.
    assert (Hgone : forall k, a ∈ cached (cache_of (fst s) k) -> None = heap w0 !! a).
    { intros k Ha. apply cached_sound in Ha as (i & hv & Ha).
      symmetry. apply Hfresh. eapply (Hnew k). exact Ha. }
    case_decide as Hpools; [apply (Hgone Pool Hpools) |].
    case_decide as Hsets; [apply (Hgone DSet Hsets) |].
    destruct (Hcached a) as [[? | ?] | ?]; done.
  - intros a Ha. rewrite drop_app_length.
    destruct (Hcached a) as [[Hin | Hin] | ?]; [| | done].
    + apply elem_of_app. left. apply list_elem_of_fmap. eauto.
    + apply elem_of_app. right. apply elem_of_app. left. apply list_elem_of_fmap. eauto.
Qed.

End Cache.

Lemma rebound_values_share_a_set_witness :
  let r1 := getDescriptorSet sample_hasher 0 material_layout material_buffers material_images
              fresh_frame fresh_world in
  let r2 := getDescriptorSet sample_hasher 0 material_layout material_buffers_rebound
              material_images (frame_of r1) (world_after r1) in
  result_of r2 = result_of r1 /\
  exists pool,
    heap (world_after r2) !! result_of r2
    = Some (ODescriptorSet 103 pool material_buffers material_images).
Proof.
  destruct (rebound_values_share_a_set sample_hasher 0 material_layout
              material_buffers material_buffers_rebound material_images material_images
              fresh_frame fresh_world eq_refl eq_refl)
    as (Hsame & _ & Hkept).
  - by apply entry_empty.
  - split; [exact Hsame | exact Hkept].
Defined.

Lemma caches_hold_pools_and_sets_witness :
  let s := serve_all sample_hasher
             [ GetDescriptorSet 0 material_layout material_buffers material_images;
               UpdateDescriptorSets 0;
               GetDescriptorSet 1 material_layout material_buffers material_images ]
             (fresh_frame, fresh_world) in
  cache_typed sample_hasher (fst s) (snd s).
Proof.
  apply (caches_hold_pools_and_sets sample_hasher fresh_frame fresh_world); reflexivity.
Defined.

Lemma destroy_releases_what_the_caches_made_witness :
  let s := serve_all sample_hasher
             [ GetDescriptorSet 0 material_layout material_buffers material_images;
               GetDescriptorSet 1 material_layout material_buffers material_images ]
             (fresh_frame, fresh_world) in
  exists w', destroy (fst s) (snd s) = Returned tt w' /\ heap w' = ∅.
Proof.
  destruct (destroy_releases_what_the_caches_made sample_hasher fresh_frame fresh_world
              [ GetDescriptorSet 0 material_layout material_buffers material_images;
                GetDescriptorSet 1 material_layout material_buffers material_images ]
              eq_refl eq_refl)
    as (w' & Hrun & Hheap & _).
  - intros a _. apply lookup_empty.
  - exists w'. split; [exact Hrun | exact Hheap].
Defined.

(** *** Updating a slot *)

(** X12.  [updateDescriptorSets] calls [updateAll] on the sets cached in the slot,
    on each of them once, and on nothing else; it changes nothing but the log
    of calls, and for a slot no set was ever requested in it does nothing. *)
Theorem updateDescriptorSets_updates_each_set_once (i : Z) (f : t) (w : World) :
  cache_wf f w ->
  let w' := updateDescriptorSets i f w in
  exists touched,
    w' = mkWorld (oracle w) (trace w ++ (UpdateAll <$> touched)) (next_handle w)
                 (resources w) (pending w) (heap w) /\
    NoDup touched /\
    (forall a, a ∈ touched <-> exists h, entry f DSet i h = Some a) /\
    (descriptorSets f !! i = None -> touched = []).
Proof.
  intros Hwf w'. subst w'. unfold updateDescriptorSets.
  destruct (descriptorSets f !! i) as [sets |] eqn:Hslot.
  - assert (Hentry : forall h a, entry f DSet i h = Some a <-> sets !! h = Some a).
    { intros h a. unfold entry, lookup2. cbn [cache_of]. by rewrite Hslot. }
    exists (snd <$> map_to_list sets).
    split; [apply update_all_world |]. split; [| split; [| done]].
    + apply NoDup_fmap_2_strong; [| apply NoDup_map_to_list].
      intros [h1 a1] [h2 a2] H1 H2 Heq. cbn [snd] in Heq. subst a2.
      apply elem_of_map_to_list, Hentry in H1, H2.
      destruct (wf_inj _ _ Hwf _ _ _ _ _ _ _ H1 H2) as (_ & _ & ->). reflexivity.
    + intros a. rewrite list_elem_of_fmap. split.
      * intros ([h a'] & -> & Hin). exists h. by apply Hentry, elem_of_map_to_list.
      * intros (h & Ha). exists (h, a). split; [done |].
        by apply elem_of_map_to_list, Hentry.
  - exists []. split.
    + destruct w. cbn. by rewrite app_nil_r.
    + split; [constructor |]. split; [| done].
      intros a. split; [by intros ?%elem_of_nil |].
      intros (h & Ha). unfold entry, lookup2 in Ha. cbn [cache_of] in Ha.
      by rewrite Hslot in Ha.
Qed.

Lemma updateDescriptorSets_updates_each_set_once_witness :
  let r := getDescriptorSet sample_hasher 0 material_layout material_buffers material_images
             fresh_frame fresh_world in
  exists touched,
    trace (updateDescriptorSets 0 (frame_of r) (world_after r))
    = trace (world_after r) ++ (UpdateAll <$> touched) /\
    result_of r ∈ touched.
Proof.
  intros r.
  destruct (updateDescriptorSets_updates_each_set_once 0 (frame_of r) (world_after r))
    as (touched & Hworld & _ & Htouched & _).
  - apply FrameCache.getDescriptorSet_wf. by apply FrameCache.empty_caches_wf.
  - exists touched. split; [by rewrite Hworld |].
    apply Htouched. eexists. apply FrameCache.getDescriptorSet_cached.
Defined.

End FrameCacheContents.

(** ** Application: instance, device selection and swap chain parameters *)

Module ApplicationProps.
Import String.
Import Application.

Lemma found_iff_listed (name : String.string) (names : list String.string) :
  existsb (fun other => String.eqb name other) names = true <-> In name names.
Proof.
  rewrite existsb_exists. split.
  - intros (other & Hin & Heq). apply String.eqb_eq in Heq. by subst.
  - intros Hin. exists name. split; [exact Hin | apply String.eqb_refl].
Qed.

(** X14.  Both support checks answer whether every required name is among the
    reported ones; with nothing required they answer yes. *)
Theorem support_checks_are_inclusion (required : list String.string)
    (layers : list String.string) (device : PhysicalDevice) :
  (checkValidationLayersSupported required layers = true <->
     forall name, In name required -> In name layers) /\
  (checkDeviceRequiredExtensionsSupport required device = true <->
     forall name, In name required -> In name (pd_extensions device)) /\
  checkValidationLayersSupported [] layers = true /\
  checkDeviceRequiredExtensionsSupport [] device = true.
Proof.
  unfold checkValidationLayersSupported, checkDeviceRequiredExtensionsSupport.
  split; [| split; [| split; reflexivity]].
  all: rewrite forallb_forall; split; intros Hall name Hin;
    apply found_iff_listed; auto.
Qed.

Lemma support_checks_are_inclusion_witness :
  checkDeviceRequiredExtensionsSupport [VK_KHR_SWAPCHAIN_EXTENSION_NAME] sample_gpu = true /\
  checkDeviceRequiredExtensionsSupport [VK_KHR_SWAPCHAIN_EXTENSION_NAME] sample_headless = false.
Proof.
  split; [| reflexivity].
  destruct (support_checks_are_inclusion [VK_KHR_SWAPCHAIN_EXTENSION_NAME] [] sample_gpu)
    as (_ & [_ Hincluded] & _).
  apply Hincluded. intros name [<- | []]. right. left. reflexivity.
Defined.

(** *** Queue families *)

Lemma isComplete_iff (indices : QueueFamilyIndices) :
  isComplete indices = true <-> is_Some (graphics indices) /\ is_Some (present indices).
Proof.
  unfold isComplete. rewrite andb_true_iff, !bool_decide_eq_true. reflexivity.
Qed.

Lemma scan_found (families : list QueueFamily) :
  forall i indices,
    isComplete indices = false ->
    let r := scanQueueFamilies families i indices in
    (is_Some (graphics r) <-> is_Some (graphics indices) \/ Exists draws families) /\
    (is_Some (present r) <-> is_Some (present indices) \/ Exists presents families).
Proof.
  induction families as [| q rest IH]; intros i indices Hopen; cbn [scanQueueFamilies].
  - split; (split; [auto | intros [? | Hex]; [done | inversion Hex]]).
  - set (i1 := if has_flag (queueFlags q) VK_QUEUE_GRAPHICS_BIT
               then mkIndices (Some i) (present indices) else indices).
    set (i2 := if presentSupport q then mkIndices (graphics i1) (Some i) else i1).
    assert (Hg : is_Some (graphics i2) <-> is_Some (graphics indices) \/ draws q).
    { subst i2 i1. unfold draws.
      destruct (has_flag (queueFlags q) VK_QUEUE_GRAPHICS_BIT), (presentSupport q);
        cbn; split; eauto; intros [? | ?]; done. }
    assert (Hp : is_Some (present i2) <-> is_Some (present indices) \/ presents q).
    { subst i2 i1. unfold presents.
      destruct (has_flag (queueFlags q) VK_QUEUE_GRAPHICS_BIT), (presentSupport q);
        cbn; split; eauto; intros [? | ?]; done. }
    destruct (isComplete i2) eqn:Hc.
    + apply isComplete_iff in Hc as [Hcg Hcp].
      split; (split; [intros _ | intros _; assumption]).
      * apply Hg in Hcg as [? | ?]; [by left | right; by left].
      * apply Hp in Hcp as [? | ?]; [by left | right; by left].
    + destruct (IH (i + 1) i2 Hc) as [IHg IHp]. cbv zeta in IHg, IHp.
      rewrite IHg, IHp, Hg, Hp, !Exists_cons. tauto.
Qed.

Lemma scan_index (families : list QueueFamily) :
  forall i indices,
    let r := scanQueueFamilies families i indices in
    (forall g, graphics r = Some g ->
       graphics indices = Some g \/
       (i <= g /\ exists q, families !! Z.to_nat (g - i) = Some q /\ draws q)) /\
    (forall p, present r = Some p ->
       present indices = Some p \/
       (i <= p /\ exists q, families !! Z.to_nat (p - i) = Some q /\ presents q)).
Proof.
  induction families as [| q rest IH]; intros i indices; cbn [scanQueueFamilies].
  - split; intros; by left.
  - set (i1 := if has_flag (queueFlags q) VK_QUEUE_GRAPHICS_BIT
               then mkIndices (Some i) (present indices) else indices).
    set (i2 := if presentSupport q then mkIndices (graphics i1) (Some i) else i1).
    assert (Hg : forall g, graphics i2 = Some g ->
                   graphics indices = Some g \/ (g = i /\ draws q)).
    { subst i2 i1. unfold draws. intros g.
      destruct (has_flag (queueFlags q) VK_QUEUE_GRAPHICS_BIT) eqn:?, (presentSupport q);
        cbn; intros Hg; try (by left); inversion Hg; by right. }
    assert (Hp : forall p, present i2 = Some p ->
                   present indices = Some p \/ (p = i /\ presents q)).
    { subst i2 i1. unfold presents. intros p.
      destruct (has_flag (queueFlags q) VK_QUEUE_GRAPHICS_BIT), (presentSupport q) eqn:?;
        cbn; intros Hp; try (by left); inversion Hp; by right. }
    assert (Hhere : forall x, x = i -> Z.to_nat (x - i) = 0%nat) by (intros; lia).
    assert (Hlater : forall x, i + 1 <= x -> Z.to_nat (x - i) = S (Z.to_nat (x - (i + 1))))
      by (intros; lia).
    destruct (isComplete i2).
    + split; intros x Hx.
      * apply Hg in Hx as [? | [-> ?]]; [by left | right].
        split; [lia |]. exists q. by rewrite Hhere.
      * apply Hp in Hx as [? | [-> ?]]; [by left | right].
        split; [lia |]. exists q. by rewrite Hhere.
    + destruct (IH (i + 1) i2) as [IHg IHp]. cbv zeta in IHg, IHp.
      split; intros x Hx.
      * apply IHg in Hx as [Hx | (Hle & q' & Hq' & Hd)].
        -- apply Hg in Hx as [? | [-> ?]]; [by left | right].
           split; [lia |]. exists q. by rewrite Hhere.
        -- right. split; [lia |]. exists q'. by rewrite Hlater.
      * apply IHp in Hx as [Hx | (Hle & q' & Hq' & Hd)].
        -- apply Hp in Hx as [? | [-> ?]]; [by left | right].
           split; [lia |]. exists q. by rewrite Hhere.
        -- right. split; [lia |]. exists q'. by rewrite Hlater.
Qed.

(** X15.  [findNeededQueueFamilyIndices] finds a graphics index exactly when some
    family can draw and a present index exactly when some family can present,
    so its result is complete exactly when the device has both; every index
    it reports is the position of a family with that ability. *)
Theorem findNeededQueueFamilyIndices_finds (device : PhysicalDevice) :
  let r := findNeededQueueFamilyIndices device in
  (is_Some (graphics r) <-> Exists draws (pd_queueFamilies device)) /\
  (is_Some (present r) <-> Exists presents (pd_queueFamilies device)) /\
  (isComplete r = true <->
     Exists draws (pd_queueFamilies device) /\ Exists presents (pd_queueFamilies device)) /\
  (forall g, graphics r = Some g ->
     0 <= g /\ exists q, pd_queueFamilies device !! Z.to_nat g = Some q /\ draws q) /\
  (forall p, present r = Some p ->
     0 <= p /\ exists q, pd_queueFamilies device !! Z.to_nat p = Some q /\ presents q).
Proof.
  intros r. subst r. unfold findNeededQueueFamilyIndices.
  destruct (scan_found (pd_queueFamilies device) 0 (mkIndices None None) eq_refl)
    as [Hg Hp].
  destruct (scan_index (pd_queueFamilies device) 0 (mkIndices None None)) as [Hgi Hpi].
  cbv zeta in *. cbn [graphics present] in *.
  assert (Hnone : forall P : Prop, @is_Some Z None \/ P <-> P).
  { intros P. split; [intros [[? ?] | ?]; [discriminate | done] | by right]. }
  rewrite Hnone in Hg, Hp.
  split; [exact Hg |]. split; [exact Hp |]. split; [by rewrite isComplete_iff, Hg, Hp |].
  split; intros x Hx.
  - apply Hgi in Hx as [? | (? & q & Hq & ?)]; [discriminate |].
    rewrite Z.sub_0_r in Hq. eauto.
  - apply Hpi in Hx as [? | (? & q & Hq & ?)]; [discriminate |].
    rewrite Z.sub_0_r in Hq. eauto.
Qed.

Lemma findNeededQueueFamilyIndices_finds_witness :
  findNeededQueueFamilyIndices sample_gpu = mkIndices (Some 1) (Some 1) /\
  exists q, pd_queueFamilies sample_gpu !! 1%nat = Some q /\ draws q.
Proof.
  split; [reflexivity |].
  destruct (findNeededQueueFamilyIndices_finds sample_gpu) as (_ & _ & _ & Hg & _).
  destruct (Hg 1 eq_refl) as (_ & q & Hq & Hd). exists q. by split.
Defined.

(** *** Choosing the physical device *)

Lemma choose_keeps (required : list String.string) (devices : list PhysicalDevice) :
  forall chosen,
    Forall (fun device => suitable required device = false) devices ->
    fold_left (fun chosen device =>
                 if suitable required device then pd_handle device else chosen)
              devices chosen = chosen.
Proof.
  induction devices as [| d rest IH]; intros chosen Hnone; [reflexivity |].
  inversion Hnone as [| ? ? Hd Hrest]; subst. cbn [fold_left]. rewrite Hd. by apply IH.
Qed.

Lemma choose_last (required : list String.string) (earlier later : list PhysicalDevice)
    (device : PhysicalDevice) (chosen : Z) :
  suitable required device = true ->
  Forall (fun device => suitable required device = false) later ->
  fold_left (fun chosen device =>
               if suitable required device then pd_handle device else chosen)
            (earlier ++ device :: later) chosen = pd_handle device.
Proof.
  intros Hd Hlater. rewrite fold_left_app. cbn [fold_left]. rewrite Hd.
  by apply choose_keeps.
Qed.

(** X16.  [findAndChooseDevice] selects the last suitable device of the
    enumeration, whatever was selected before and however many suitable
    devices precede it. *)
Theorem findAndChooseDevice_takes_last_suitable (required : list String.string)
    (physicalDevice : Z) (earlier later : list PhysicalDevice) (device : PhysicalDevice) :
  suitable required device = true ->
  Forall (fun other => suitable required other = false) later ->
  pd_handle device <> VK_NULL_HANDLE ->
  findAndChooseDevice required physicalDevice (earlier ++ device :: later)
  = Ok (pd_handle device).
Proof.
  intros Hd Hlater Hhandle. unfold findAndChooseDevice.
  rewrite bool_decide_eq_false_2 by (by destruct earlier).
  cbv zeta. rewrite choose_last by assumption.
  by apply Z.eqb_neq in Hhandle as ->.
Qed.

Lemma findAndChooseDevice_takes_last_suitable_witness :
  findAndChooseDevice [VK_KHR_SWAPCHAIN_EXTENSION_NAME] VK_NULL_HANDLE
    ([sample_headless] ++ sample_gpu :: [sample_headless])
  = Ok 900.
Proof.
  apply (findAndChooseDevice_takes_last_suitable
           [VK_KHR_SWAPCHAIN_EXTENSION_NAME] VK_NULL_HANDLE
           [sample_headless] [sample_headless] sample_gpu).
  - reflexivity.
  - repeat constructor.
  - unfold VK_NULL_HANDLE. cbn. lia.
Defined.

(** X17.  Without a suitable device [findAndChooseDevice] throws when nothing was
    selected before: one message for an empty enumeration, another for a
    non-empty one. A handle selected before the call survives it instead. *)
Theorem findAndChooseDevice_without_suitable_device (required : list String.string)
    (physicalDevice : Z) (devices : list PhysicalDevice) :
  Forall (fun device => suitable required device = false) devices ->
  findAndChooseDevice required physicalDevice devices =
    if bool_decide (devices = []) then Throw (runtime_error "No GPUs found!"%string)
    else if bool_decide (physicalDevice = VK_NULL_HANDLE)
         then Throw (runtime_error "GPUs were found, but no device is suitable!"%string)
         else Ok physicalDevice.
Proof.
  intros Hnone. unfold findAndChooseDevice.
  case_bool_decide; [reflexivity |].
  cbv zeta. rewrite choose_keeps by assumption.
  case_bool_decide as Hnull.
  - by apply Z.eqb_eq in Hnull as ->.
  - by apply Z.eqb_neq in Hnull as ->.
Qed.

Lemma findAndChooseDevice_without_suitable_device_witness :
  findAndChooseDevice [VK_KHR_SWAPCHAIN_EXTENSION_NAME] VK_NULL_HANDLE [sample_headless]
  = Throw (runtime_error "GPUs were found, but no device is suitable!"%string).
Proof.
  apply (findAndChooseDevice_without_suitable_device
           [VK_KHR_SWAPCHAIN_EXTENSION_NAME] VK_NULL_HANDLE [sample_headless]).
  repeat constructor.
Defined.

Lemma last_suitable_split (required : list String.string) (devices : list PhysicalDevice) :
  Forall (fun device => suitable required device = false) devices \/
  exists earlier device later,
    devices = earlier ++ device :: later /\
    suitable required device = true /\
    Forall (fun other => suitable required other = false) later.
Proof.
  induction devices as [| d rest IH]; [left; constructor |].
  destruct IH as [Hnone | (earlier & device & later & -> & Hdevice & Hlater)].
  - destruct (suitable required d) eqn:Hd.
    + right. exists [], d, rest. by repeat split.
    + left. by constructor.
  - right. exists (d :: earlier), device, later. by repeat split.
Qed.

(** X24.  A handle [findAndChooseDevice] selects, when none was selected before, is
    never null and is that of an enumerated device that is suitable, the last
    such device of the enumeration. *)
Theorem findAndChooseDevice_selects_a_suitable_device (required : list String.string)
    (devices : list PhysicalDevice) (selected : Z) :
  findAndChooseDevice required VK_NULL_HANDLE devices = Ok selected ->
  selected <> VK_NULL_HANDLE /\
  exists earlier device later,
    devices = earlier ++ device :: later /\
    pd_handle device = selected /\
    suitable required device = true /\
    Forall (fun other => suitable required other = false) later.
Proof.
  intros Hrun. unfold findAndChooseDevice in Hrun.
  case_bool_decide as Hempty; [discriminate |]. cbv zeta in Hrun.
  destruct (last_suitable_split required devices)
    as [Hnone | (earlier & device & later & -> & Hdevice & Hlater)].
  - rewrite choose_keeps in Hrun by assumption. discriminate.
  - rewrite choose_last in Hrun by assumption.
    destruct (pd_handle device =? VK_NULL_HANDLE) eqn:Hnull; [discriminate |].
    injection Hrun as <-. apply Z.eqb_neq in Hnull. split; [exact Hnull |].
    exists earlier, device, later. by repeat split.
Qed.

Lemma findAndChooseDevice_selects_a_suitable_device_witness :
  exists device,
    In device [sample_headless; sample_gpu; sample_headless] /\
    pd_handle device = 900 /\
    suitable [VK_KHR_SWAPCHAIN_EXTENSION_NAME] device = true.
Proof.
  destruct (findAndChooseDevice_selects_a_suitable_device [VK_KHR_SWAPCHAIN_EXTENSION_NAME]
              [sample_headless; sample_gpu; sample_headless] 900 eq_refl)
    as (_ & earlier & device & later & Hsplit & Hhandle & Hsuitable & _).
  exists device. split; [| by split].
  rewrite Hsplit. apply in_or_app. right. by left.
Defined.

(** *** Swap chain parameters *)

(** X18.  For a non-empty list [chooseSwapSurfaceFormat] returns an element of it:
    the first B8G8R8A8_SRGB / SRGB_NONLINEAR format when there is one, the
    first element otherwise; for the empty list it throws. *)
Theorem chooseSwapSurfaceFormat_picks (availableFormats : list VkSurfaceFormatKHR) :
  match chooseSwapSurfaceFormat availableFormats with
  | Ok chosen =>
      In chosen availableFormats /\
      ((exists earlier later,
          availableFormats = earlier ++ chosen :: later /\
          format chosen = VK_FORMAT_B8G8R8A8_SRGB /\
          colorSpace chosen = VK_COLOR_SPACE_SRGB_NONLINEAR_KHR /\
          Forall (fun f => preferred f = false) earlier) \/
       (Forall (fun f => preferred f = false) availableFormats /\
        head availableFormats = Some chosen))
  | Throw _ => availableFormats = []
  end.
Proof.
  unfold chooseSwapSurfaceFormat. destruct availableFormats as [| first rest]; [reflexivity |].
  destruct (find preferred (first :: rest)) as [chosen |] eqn:Hfind.
  - split; [by apply find_some in Hfind as [? _] |]. left.
    revert Hfind. generalize (first :: rest) as fs.
    induction fs as [| f fs IH]; [discriminate |]. cbn [find].
    destruct (preferred f) eqn:Hf.
    + intros [= ->]. exists [], fs. unfold preferred in Hf.
      apply andb_true_iff in Hf as [?%Z.eqb_eq ?%Z.eqb_eq]. by repeat split.
    + intros Hfind. destruct (IH Hfind) as (earlier & later & -> & ? & ? & ?).
      exists (f :: earlier), later. repeat split; try done. by constructor.
  - split; [by left |]. right. split; [| reflexivity].
    apply Forall_forall. intros f Hin. apply (find_none _ _ Hfind f).
    by apply list_elem_of_In.
Qed.

(** X19.  When the surface fixes the width, [chooseSwapExtent] returns the
    surface's extent, whatever its height.  When the surface leaves the extent
    open, it returns an extent within the surface's limits.  A framebuffer
    width or height that is a [uint32_t] value within the limits is taken as
    it is.  A negative one, [v], becomes [v + 2^32] in the cast and is then
    clamped into the limits: to the maximum whenever the maximum is below
    [2^31]. *)
Theorem chooseSwapExtent_within_limits (capabilities : VkSurfaceCapabilitiesKHR)
    (fbWidth fbHeight : Z) :
  width (minImageExtent capabilities) <= width (maxImageExtent capabilities) ->
  height (minImageExtent capabilities) <= height (maxImageExtent capabilities) ->
  let extent := chooseSwapExtent capabilities fbWidth fbHeight in
  (width (currentExtent capabilities) <> UINT32_MAX -> extent = currentExtent capabilities) /\
  (width (currentExtent capabilities) = UINT32_MAX ->
     width (minImageExtent capabilities) <= width extent <= width (maxImageExtent capabilities) /\
     height (minImageExtent capabilities) <= height extent <= height (maxImageExtent capabilities) /\
     (0 <= fbWidth <= UINT32_MAX ->
      width (minImageExtent capabilities) <= fbWidth <= width (maxImageExtent capabilities) ->
      width extent = fbWidth) /\
     (0 <= fbHeight <= UINT32_MAX ->
      height (minImageExtent capabilities) <= fbHeight <= height (maxImageExtent capabilities) ->
      height extent = fbHeight) /\
     (- 2147483648 <= fbWidth < 0 ->
      width extent =
        Z.min (width (maxImageExtent capabilities))
              (Z.max (width (minImageExtent capabilities)) (fbWidth + 4294967296)) /\
      (width (maxImageExtent capabilities) < 2147483648 ->
       width extent = width (maxImageExtent capabilities))) /\
     (- 2147483648 <= fbHeight < 0 ->
      height extent =
        Z.min (height (maxImageExtent capabilities))
              (Z.max (height (minImageExtent capabilities)) (fbHeight + 4294967296)) /\
      (height (maxImageExtent capabilities) < 2147483648 ->
       height extent = height (maxImageExtent capabilities)))).
Proof.
  intros Hw Hh extent. subst extent. unfold chooseSwapExtent.
  split.
  - intros Hfixed. by apply Z.eqb_neq in Hfixed as ->.
  - intros Hopen. apply Z.eqb_eq in Hopen as ->. cbn [negb width height].
    unfold clamp, to_uint32, UINT32_MAX.
    repeat split; intros; repeat case_match;
      rewrite ?Z.ltb_lt, ?Z.ltb_ge in *; unfold UINT32_MAX in *;
      Z.to_euclidean_division_equations; lia.
Qed.

Lemma chooseSwapExtent_within_limits_witness :
  width (chooseSwapExtent (capabilities sample_support) (-5) 600) = 4096 /\
  width (chooseSwapExtent
           (mkCapabilities 2 3 (mkExtent UINT32_MAX UINT32_MAX)
                           (mkExtent 1 1) (mkExtent UINT32_MAX UINT32_MAX) 1)
           (-5) 600) = 4294967291.
Proof.
  split.
  - pose proof (chooseSwapExtent_within_limits (capabilities sample_support) (-5) 600
                  ltac:(cbn; lia) ltac:(cbn; lia)) as [_ Hopen].
    destruct (Hopen eq_refl) as (_ & _ & _ & _ & Hnegative & _).
    destruct Hnegative as (_ & Hmax); [lia |].
    apply Hmax. cbn. lia.
  - pose proof (chooseSwapExtent_within_limits
                  (mkCapabilities 2 3 (mkExtent UINT32_MAX UINT32_MAX)
                                  (mkExtent 1 1) (mkExtent UINT32_MAX UINT32_MAX) 1)
                  (-5) 600 ltac:(cbn; unfold UINT32_MAX; lia) ltac:(cbn; unfold UINT32_MAX; lia))
      as [_ Hopen].
    destruct (Hopen eq_refl) as (_ & _ & _ & _ & Hnegative & _).
    destruct Hnegative as (Hvalue & _); [lia |].
    rewrite Hvalue. reflexivity.
Defined.

(** X20.  The image count [createSwapChain] asks for is one more than the
    surface's minimum, except where that would pass the surface's maximum or
    wrap around in [uint32_t]: there it is the minimum. It never leaves the
    range the surface allows. *)
Theorem swapChainImageCount_in_range (capabilities : VkSurfaceCapabilitiesKHR) :
  counts_valid capabilities ->
  let imageCount := swapChainImageCount capabilities in
  minImageCount capabilities <= imageCount <= UINT32_MAX /\
  (0 < maxImageCount capabilities -> imageCount <= maxImageCount capabilities) /\
  (imageCount = minImageCount capabilities <->
     minImageCount capabilities = UINT32_MAX \/
     (0 < maxImageCount capabilities /\
      minImageCount capabilities = maxImageCount capabilities)) /\
  (imageCount <> minImageCount capabilities ->
     imageCount = minImageCount capabilities + 1).
Proof.
  intros (Hmin & Hmax & Hrange) imageCount. subst imageCount.
  unfold swapChainImageCount, clamp, to_uint32, UINT32_MAX in *.
  repeat case_match; rewrite ?Z.ltb_lt, ?Z.ltb_ge in *;
    Z.to_euclidean_division_equations; lia.
Qed.

Lemma swapChainImageCount_in_range_witness :
  swapChainImageCount (capabilities sample_support) = 3 /\
  swapChainImageCount
    (mkCapabilities UINT32_MAX 0 (mkExtent 1 1) (mkExtent 1 1) (mkExtent 1 1) 1)
  = UINT32_MAX.
Proof.
  split; [reflexivity |].
  pose proof (swapChainImageCount_in_range
                (mkCapabilities UINT32_MAX 0 (mkExtent 1 1) (mkExtent 1 1) (mkExtent 1 1) 1))
    as Hcount.
  destruct Hcount as (_ & _ & [_ Hmin] & _).
  - unfold counts_valid, UINT32_MAX. cbn. lia.
  - apply Hmin. left. reflexivity.
Defined.

Lemma chooseSwapSurfaceFormat_found (availableFormats : list VkSurfaceFormatKHR) :
  availableFormats <> [] ->
  exists chosen,
    chooseSwapSurfaceFormat availableFormats = Ok chosen /\ In chosen availableFormats.
Proof.
  intros Hne. unfold chooseSwapSurfaceFormat.
  destruct availableFormats as [| first rest]; [done |].
  destruct (find preferred (first :: rest)) as [chosen |] eqn:Hfind.
  - exists chosen. split; [reflexivity |]. by apply find_some in Hfind as [? _].
  - exists first. split; [reflexivity | by left].
Qed.

Lemma suitable_inv (required : list String.string) (device : PhysicalDevice) :
  suitable required device = true ->
  (exists g p, findNeededQueueFamilyIndices device = mkIndices (Some g) (Some p)) /\
  checkDeviceRequiredExtensionsSupport required device = true /\
  formats (pd_swapChainSupport device) <> [] /\
  presentModes (pd_swapChainSupport device) <> [].
Proof.
  unfold suitable, isDeviceSuitable, querySwapChainSupport. cbv zeta.
  intros Hs. apply andb_true_iff in Hs as [Hs Hadequate].
  apply andb_true_iff in Hs as [Hcomplete Hext].
  rewrite Hext in Hadequate.
  apply andb_true_iff in Hadequate as [Hf Hm].
  apply negb_true_iff, bool_decide_eq_false in Hf.
  apply negb_true_iff, bool_decide_eq_false in Hm.
  apply isComplete_iff in Hcomplete as [[g Hg] [p Hp]].
  split; [| done].
  exists g, p. destruct (findNeededQueueFamilyIndices device); cbn in *. congruence.
Qed.

(** X21.  For a device [isDeviceSuitable] accepts, [createLogicalDevice] reads
    both optional family indices without [bad_optional_access] and asks for
    one queue per distinct family, in ascending order of family index: one
    entry when the graphics and present families coincide, two otherwise. *)
Theorem suitable_device_queues (required : list String.string) (device : PhysicalDevice) :
  suitable required device = true ->
  exists g p infos,
    findNeededQueueFamilyIndices device = mkIndices (Some g) (Some p) /\
    queueCreateInfos device = Ok infos /\
    Forall (fun info => queueCount info = 1) infos /\
    (forall index, In index (queueFamilyIndex <$> infos) <-> index = g \/ index = p) /\
    (g = p -> queueFamilyIndex <$> infos = [g]) /\
    (g <> p -> queueFamilyIndex <$> infos = [Z.min g p; Z.max g p]).
Proof.
  intros Hs. apply suitable_inv in Hs as ((g & p & Hidx) & _).
  exists g, p. unfold queueCreateInfos. cbv zeta. rewrite Hidx. cbn [graphics present value].
  destruct (g =? p) eqn:Hgp; [| destruct (g <? p) eqn:Hlt]; eexists;
    (split; [reflexivity |]); (split; [reflexivity |]);
    rewrite ?Z.eqb_eq, ?Z.eqb_neq, ?Z.ltb_lt, ?Z.ltb_ge in *; cbn [fmap list_fmap queueFamilyIndex].
  all: split; [repeat constructor |].
  all: split; [intros index; cbn [In]; intuition lia |].
  all: split; intros ?; try lia; f_equal; try f_equal; lia.
Qed.

Lemma suitable_device_queues_witness :
  exists infos, queueCreateInfos sample_gpu = Ok infos /\ queueFamilyIndex <$> infos = [1].
Proof.
  destruct (suitable_device_queues [VK_KHR_SWAPCHAIN_EXTENSION_NAME] sample_gpu eq_refl)
    as (g & p & infos & Hidx & Hinfos & _ & _ & Hsame & _).
  exists infos. split; [exact Hinfos |].
  injection Hidx as <- <-. by apply Hsame.
Defined.

(** X22.  For a device [isDeviceSuitable] accepts, [createSwapChain] reaches
    [vkCreateSwapchainKHR] without throwing. The surface format it asks for
    is one the surface offers; the present mode is MAILBOX when offered and
    FIFO otherwise; the images are shared between queue families exactly when
    the graphics and present families differ. *)
Theorem suitable_device_swap_chain (required : list String.string) (device : PhysicalDevice)
    (fbWidth fbHeight : Z) :
  suitable required device = true ->
  exists g p info,
    findNeededQueueFamilyIndices device = mkIndices (Some g) (Some p) /\
    swapChainCreateInfo device (findNeededQueueFamilyIndices device) fbWidth fbHeight
    = Ok info /\
    In (mkSurfaceFormat (sc_imageFormat info) (sc_imageColorSpace info))
       (formats (pd_swapChainSupport device)) /\
    (In VK_PRESENT_MODE_MAILBOX_KHR (presentModes (pd_swapChainSupport device)) ->
       sc_presentMode info = VK_PRESENT_MODE_MAILBOX_KHR) /\
    (~ In VK_PRESENT_MODE_MAILBOX_KHR (presentModes (pd_swapChainSupport device)) ->
       sc_presentMode info = VK_PRESENT_MODE_FIFO_KHR) /\
    (g <> p ->
       sc_imageSharingMode info = VK_SHARING_MODE_CONCURRENT /\
       sc_queueFamilyIndices info = [g; p]) /\
    (g = p ->
       sc_imageSharingMode info = VK_SHARING_MODE_EXCLUSIVE /\
       sc_queueFamilyIndices info = []).
Proof.
  intros Hs. apply suitable_inv in Hs as ((g & p & Hidx) & _ & Hformats & _).
  exists g, p. unfold swapChainCreateInfo, querySwapChainSupport. cbv zeta.
  rewrite Hidx. cbn [graphics present value].
  pose proof (chooseSwapSurfaceFormat_found (formats (pd_swapChainSupport device)) Hformats)
    as (chosen & -> & Hin).
  eexists. split; [reflexivity |]. split; [reflexivity |].
  cbn [sc_imageFormat sc_imageColorSpace sc_presentMode sc_imageSharingMode
       sc_queueFamilyIndices].
  split; [by destruct chosen |].
  unfold chooseSwapPresentMode.
  split; [| split; [| split]].
  - intros Hin'. destruct (find _ _) as [mode |] eqn:Hfind.
    + by apply find_some in Hfind as [_ ?%Z.eqb_eq].
    + apply (find_none _ _ Hfind) in Hin'. discriminate.
  - intros Hout. destruct (find _ _) as [mode |] eqn:Hfind; [| reflexivity].
    apply find_some in Hfind as [? ?%Z.eqb_eq]. by subst.
  - intros Hne. by apply Z.eqb_neq in Hne as ->.
  - intros Heq. by apply Z.eqb_eq in Heq as ->.
Qed.

Lemma suitable_device_swap_chain_witness :
  exists info,
    swapChainCreateInfo sample_gpu (findNeededQueueFamilyIndices sample_gpu) (-5) 600
    = Ok info /\
    sc_presentMode info = VK_PRESENT_MODE_MAILBOX_KHR.
Proof.
  destruct (suitable_device_swap_chain [VK_KHR_SWAPCHAIN_EXTENSION_NAME] sample_gpu
              (-5) 600 eq_refl)
    as (g & p & info & _ & Hinfo & _ & Hmailbox & _).
  exists info. split; [exact Hinfo |]. apply Hmailbox. right. left. reflexivity.
Defined.

(** *** Instance and debug messenger *)

(** X23.  [initVulkan] calls [setupDebugMessenger] whether or not validation is
    enabled, and with validation disabled the instance is created without
    VK_EXT_debug_utils unless GLFW itself asks for it.  Unless it does,
    [initVulkan] with validation disabled always ends in an exception: that
    of GLFW returning no extension list, else that of [vkCreateInstance] if
    the call fails, and otherwise that of [setupDebugMessenger], whose command
    cannot be looked up.  With validation enabled, the layers available, an
    extension list from GLFW and both calls succeeding it gets past both
    steps, with the layers and the extension enabled. *)
Theorem initVulkan_needs_validation_enabled (requiredValidationLayers : list string)
    (platform : Platform) :
  (forall glfwExtensions,
     glfwGetRequiredInstanceExtensions platform = Some glfwExtensions ->
     ~ In VK_EXT_DEBUG_UTILS_EXTENSION_NAME glfwExtensions) ->
  (initVulkan_instance false requiredValidationLayers platform =
     Throw (runtime_error
              match glfwGetRequiredInstanceExtensions platform with
              | None => "glfwGetRequiredInstanceExtensions returned NULL"%string
              | Some glfwExtensions =>
                  let plain := mkInstanceInfo [] glfwExtensions false in
                  if vkCreateInstance platform plain =? 0
                  then "addres of vkCreateDebugUtilsMessengerEXT could not be looked up!"%string
                  else format_code "vkCreateInstance failed with code "%string
                                   (vkCreateInstance platform plain)
              end)) /\
  (forall glfwExtensions,
     let validated :=
       mkInstanceInfo requiredValidationLayers
                      (glfwExtensions ++ [VK_EXT_DEBUG_UTILS_EXTENSION_NAME]) true in
     glfwGetRequiredInstanceExtensions platform = Some glfwExtensions ->
     checkValidationLayersSupported requiredValidationLayers (instanceLayers platform) = true ->
     vkCreateInstance platform validated = 0 ->
     vkCreateDebugUtilsMessengerEXT platform = 0 ->
     initVulkan_instance true requiredValidationLayers platform = Ok validated).
Proof.
  intros Hplain. split.
  - unfold initVulkan_instance, createInstance.
    cbn [andb]. destruct (glfwGetRequiredInstanceExtensions platform) as [glfwExtensions |];
      [| reflexivity].
    cbv zeta. rewrite app_nil_r.
    destruct (vkCreateInstance platform (mkInstanceInfo [] glfwExtensions false) =? 0);
      [| reflexivity].
    unfold setupDebugMessenger, debugUtilsCommandFound. cbn [enabledExtensionNames].
    destruct (existsb _ glfwExtensions) eqn:Hfound; [| reflexivity].
    apply found_iff_listed in Hfound. by apply Hplain in Hfound.
  - intros glfwExtensions validated Hglfw Hlayers Hinstance Hmessenger.
    unfold initVulkan_instance, createInstance. rewrite Hglfw, Hlayers. cbn [andb negb]. cbv zeta. fold validated.
    rewrite Hinstance. cbn [Z.eqb].
    unfold setupDebugMessenger, debugUtilsCommandFound. cbn [enabledExtensionNames validated].
    rewrite existsb_app. cbn [existsb]. rewrite String.eqb_refl, orb_true_r.
    cbn [negb orb]. cbv zeta. rewrite Hmessenger. reflexivity.
Qed.

Lemma initVulkan_needs_validation_enabled_witness :
  initVulkan_instance false ["VK_LAYER_KHRONOS_validation"%string] sample_platform
  = Throw (runtime_error
             "addres of vkCreateDebugUtilsMessengerEXT could not be looked up!"%string) /\
  exists instance,
    initVulkan_instance true ["VK_LAYER_KHRONOS_validation"%string] sample_platform
    = Ok instance /\
    In VK_EXT_DEBUG_UTILS_EXTENSION_NAME (enabledExtensionNames instance).
Proof.
  destruct (initVulkan_needs_validation_enabled ["VK_LAYER_KHRONOS_validation"%string]
              sample_platform) as [Hplain Hvalidated].
  - intros glfwExtensions [= <-] [H | [H | []]]; discriminate.
  - split; [exact Hplain |]. eexists. split; [by apply Hvalidated |].
    cbn. right. right. left. reflexivity.
Defined.

End ApplicationProps.
